(** * marathon-bigip-ctlr: a shallow embedding of [_f5.py]

    The module [_f5.py] builds the desired BIG-IP configuration from the
    orchestrator's state and reconciles the device against it.  This file
    embeds the parts of it that the specification speaks about:

    - the helpers [healthcheck_timeout_calculate], [get_protocol],
      [has_partition], [healthcheck_sendstring], [get_healthcheck_fields],
      [iapp_build_definition];
    - the Marathon builder [_create_config_marathon] with
      [is_label_data_valid];
    - the reconciliation engine [_apply_config] as a program in a small
      state / exception / trace monad over the device;
    - the node sweep [cleanup_nodes] with the readers it calls, over a
      store of pools and nodes;
    - the top level [regenerate_config_f5].

    Python objects are modelled as the code uses them: integers as [Z], byte
    strings as [string], [None]-able attributes as [option], dictionaries
    whose iteration order drives the order of device calls as association
    lists, exceptions as a sum type. *)

From Stdlib Require Import List String Ascii ZArith Lia Bool Arith.
From Stdlib Require Import DecimalString Sorted.
Import ListNotations.

Local Open Scope string_scope.
Local Open Scope Z_scope.

Set Implicit Arguments.

(* ===================================================================== *)
(** * Exceptions and results *)
(* ===================================================================== *)

(** The exception classes that matter to [_f5.py]: the four families that
    [regenerate_config_f5] catches, and the ordinary Python errors raised by
    the code itself. *)
Inductive exn : Type :=
| ConnectionError               (* requests.exceptions.ConnectionError *)
| F5SDKError                    (* f5.sdk_exception.F5SDKError *)
| BigIPInvalidURL               (* icontrol.exceptions.BigIPInvalidURL *)
| iControlUnexpectedHTTPError   (* icontrol.exceptions.iControlUnexpectedHTTPError *)
| KeyError
| ValueError
| TypeError
| IndexError
| AttributeError
| Exception (msg : string).

Inductive result (A : Type) : Type :=
| Ok (a : A)
| Raise (e : exn).

Arguments Ok {A} a.
Arguments Raise {A} e.

Definition rbind {A B} (r : result A) (k : A -> result B) : result B :=
  match r with
  | Ok a => k a
  | Raise e => Raise e
  end.

Declare Scope result_scope.
Delimit Scope result_scope with result.
Notation "x <- c ;; k" := (rbind c (fun x => k))
  (at level 100, c at next level, right associativity) : result_scope.

(* ===================================================================== *)
(** * Python strings *)
(* ===================================================================== *)

Definition ascii_lower (c : ascii) : ascii :=
  let n := nat_of_ascii c in
  if andb (Nat.leb 65 n) (Nat.leb n 90) then ascii_of_nat (n + 32) else c.

(** [str.lower()] *)
Fixpoint lower (s : string) : string :=
  match s with
  | EmptyString => EmptyString
  | String c r => String (ascii_lower c) (lower r)
  end.

(** [str.startswith(p)] *)
Definition startswith (s p : string) : bool := String.prefix p s.

(** [str.endswith(p)] *)
Fixpoint endswith (s p : string) : bool :=
  if String.eqb s p then true
  else match s with
       | EmptyString => false
       | String _ r => endswith r p
       end.

(** [str.split(sep)] for a one-character separator: the pieces between the
    separators, empty pieces included. *)
Fixpoint split (sep : ascii) (s : string) : list string :=
  match s with
  | EmptyString => [EmptyString]
  | String c r =>
      if Ascii.eqb c sep then EmptyString :: split sep r
      else match split sep r with
           | [] => [String c EmptyString]
           | w :: ws => String c w :: ws
           end
  end.

(** [str.lstrip(c)] for a one-character set. *)
Fixpoint lstrip (c : ascii) (s : string) : string :=
  match s with
  | EmptyString => EmptyString
  | String d r => if Ascii.eqb d c then lstrip c r else s
  end.

(** [sub in s] on strings. *)
Fixpoint str_in (sub s : string) : bool :=
  if String.prefix sub s then true
  else match s with
       | EmptyString => false
       | String _ r => str_in sub r
       end.

(** [str(n)] and ["%d" % n] on an integer. *)
Definition str_of_Z (z : Z) : string := NilZero.string_of_int (Z.to_int z).

(** [x in l] on a list of strings. *)
Definition mem (x : string) (l : list string) : bool :=
  existsb (String.eqb x) l.

(** [bool(s)] for an attribute that holds a string or [None]. *)
Definition truthy (o : option string) : bool :=
  match o with
  | Some s => negb (String.eqb s "")
  | None => false
  end.

(** ["%s" % s] for an attribute that holds a string or [None]. *)
Definition fmt_s (o : option string) : string :=
  match o with
  | Some s => s
  | None => "None"
  end.

(* ===================================================================== *)
(** * Python values and dictionaries *)
(* ===================================================================== *)

(** The values held by the health-check dictionaries that Marathon hands
    over (JSON scalars). *)
Inductive pyval : Type :=
| VNone
| VInt (z : Z)
| VStr (s : string).

(** [str(v)] *)
Definition str (v : pyval) : string :=
  match v with
  | VNone => "None"
  | VInt z => str_of_Z z
  | VStr s => s
  end.

(** A dictionary with string keys, in iteration order. *)
Definition dict (V : Type) : Type := list (string * V).

Fixpoint dict_get {V} (d : dict V) (k : string) : option V :=
  match d with
  | [] => None
  | (k', v) :: r => if String.eqb k k' then Some v else dict_get r k
  end.

(** [k in d] *)
Definition dict_has {V} (d : dict V) (k : string) : bool :=
  match dict_get d k with
  | Some _ => true
  | None => false
  end.

(** [d[k] = v] and [d.update({k: v})]: an existing key keeps its place. *)
Fixpoint dict_set {V} (d : dict V) (k : string) (v : V) : dict V :=
  match d with
  | [] => [(k, v)]
  | (k', v') :: r =>
      if String.eqb k k' then (k, v) :: r else (k', v') :: dict_set r k v
  end.

(** [d.keys()] *)
Definition keys {V} (d : dict V) : list string := map fst d.

(** [d[k]], which raises [KeyError] on a missing key. *)
Definition getitem {V} (d : dict V) (k : string) : result V :=
  match dict_get d k with
  | Some v => Ok v
  | None => Raise KeyError
  end.

(* ===================================================================== *)
(** * Module-level helpers of [_f5.py] *)
(* ===================================================================== *)

Local Open Scope result_scope.

(** Operand of an integer subtraction or addition. *)
Definition as_int (v : pyval) : result Z :=
  match v with
  | VInt z => Ok z
  | _ => Raise TypeError
  end.

(** [healthcheck_timeout_calculate(data)]:
    [((data['maxConsecutiveFailures'] - 1) * data['intervalSeconds'])
      + data['timeoutSeconds'] + 1], evaluated left to right.  A string
    [intervalSeconds] survives the multiplication (Python repeats it) and
    fails at the addition, after [data['timeoutSeconds']] was looked up. *)
Definition healthcheck_timeout_calculate (data : dict pyval) : result Z :=
  m <- getitem data "maxConsecutiveFailures" ;;
  m <- as_int m ;;
  i <- getitem data "intervalSeconds" ;;
  match i with
  | VNone => Raise TypeError
  | VStr _ => _ <- getitem data "timeoutSeconds" ;; Raise TypeError
  | VInt i =>
      t <- getitem data "timeoutSeconds" ;;
      t <- as_int t ;;
      Ok ((m - 1) * i + t + 1)
  end.

(** [get_protocol(protocol)] *)
Definition get_protocol (protocol : pyval) : option string :=
  if String.eqb (lower (str protocol)) "tcp" then Some "tcp"
  else if String.eqb (lower (str protocol)) "http" then Some "tcp"
  else if String.eqb (lower (str protocol)) "udp" then Some "udp"
  else None.

(** [has_partition(partitions, app_partition)].  The [raise] of the source
    is kept; it sits behind a test that the first [return] makes
    unreachable. *)
Definition has_partition (partitions : list string)
    (app_partition : option string) : result bool :=
  if negb (truthy app_partition) then Ok false
  else if mem "*" partitions then Ok true
  else if andb (Nat.eqb (List.length partitions) 0)
               (negb (truthy app_partition))
       then Raise (Exception "No partitions specified")
  else if mem (fmt_s app_partition) partitions then Ok true
  else Ok false.

(** [CloudBigIP.healthcheck_sendstring(data)].  The Python literals are
    written with doubled backslashes: the string holds a backslash and an
    [r] (or [n]), not a carriage return. *)
Definition crlf2 : string :=
  String (ascii_of_nat 92) ("r" ++ String (ascii_of_nat 92) ("n" ++
  String (ascii_of_nat 92) ("r" ++ String (ascii_of_nat 92) "n"))).

Definition healthcheck_sendstring (data : dict pyval) : result (option string) :=
  p <- getitem data "protocol" ;;
  match p with
  | VStr "http" =>
      match dict_get data "path" with
      | Some path => Ok (Some ("GET " ++ str path ++ " HTTP/1.0" ++ crlf2))
      | None => Ok (Some ("GET / HTTP/1.0" ++ crlf2))
      end
  | _ => Ok None
  end.

(** [CloudBigIP.get_healthcheck_fields(data)]: the fields of a health
    monitor that are sent to the device, by protocol. *)
Definition http_send_keys : list string :=
  [ "adaptive"; "adaptiveDivergenceType"; "adaptiveDivergenceValue";
    "adaptiveLimit"; "adaptiveSamplingTimespan"; "appService";
    "defaultsFrom"; "description"; "destination"; "interval"; "ipDscp";
    "manualResume"; "name"; "tmPartition"; "password"; "recv";
    "recvDisable"; "reverse"; "send"; "timeUntilUp"; "timeout";
    "transparent"; "upInterval"; "username" ].

Definition tcp_send_keys : list string :=
  [ "adaptive"; "adaptiveDivergenceType"; "adaptiveDivergenceValue";
    "adaptiveLimit"; "adaptiveSamplingTimespan"; "appService";
    "defaultsFrom"; "description"; "destination"; "interval"; "ipDscp";
    "manualResume"; "name"; "tmPartition"; "recv"; "recvDisable";
    "reverse"; "send"; "timeUntilUp"; "timeout"; "transparent";
    "upInterval" ].

Definition get_healthcheck_fields (data : dict pyval) : result (dict pyval) :=
  p <- getitem data "protocol" ;;
  send_keys <-
    match p with
    | VStr "http" => Ok http_send_keys
    | VStr "tcp" => Ok tcp_send_keys
    | _ => Raise (Exception ("Protocol " ++ str p ++ " is not supported."))
    end ;;
  Ok (filter (fun kv => mem (fst kv) send_keys) data).

(* ===================================================================== *)
(** * The canonical configuration *)
(* ===================================================================== *)

(** A profile reference [{'partition': p, 'name': n}]. *)
Record profile_ref : Type := {
  prof_partition : string;
  prof_name : string }.

(** [f5_service['virtual']] *)
Record virtual_cfg : Type := {
  v_enabled : bool;
  v_disabled : bool;
  v_ipProtocol : option string;
  v_destination : string;
  v_pool : string;
  v_sourceAddressTranslation : string;     (* the 'type' of the policy *)
  v_profiles : list profile_ref }.

(** [f5_service['pool']] *)
Record pool_cfg : Type := {
  p_monitor : option string;
  p_loadBalancingMode : string }.

(** A member's [{'state': ..., 'session': ...}]. *)
Record member_cfg : Type := {
  m_state : string;
  m_session : string }.

(** [f5_service['iapp']] *)
Record iapp_cfg : Type := {
  template : string;
  tableName : string;
  variables : dict string;
  options : dict pyval }.

(** One entry of the configuration dictionary ([f5_service]).  The key
    ['iapp'] is present exactly when [svc_iapp] is [Some]. *)
Record service : Type := {
  svc_virtual : option virtual_cfg;
  svc_pool : option pool_cfg;
  svc_nodes : dict member_cfg;
  svc_health : list (dict pyval);
  svc_partition : string;
  svc_name : string;
  svc_iapp : option iapp_cfg;
  svc_virtual_address : option string }.

Definition config : Type := dict service.

(* ===================================================================== *)
(** * The Marathon builder *)
(* ===================================================================== *)

(** A backend server of an application. *)
Record backend : Type := {
  host : string;
  port : Z }.

(** The attributes of a Marathon application object that [_f5.py] reads. *)
Record app : Type := {
  appId : string;
  partition : option string;
  mode : pyval;
  balance : string;
  bindAddr : option string;
  servicePort : Z;
  profile : option string;
  iapp : option string;
  iappTableName : string;
  iappVariables : dict string;
  iappOptions : dict pyval;
  healthCheck : option (dict pyval);
  backends : list backend }.

(** What the builder takes from outside [_f5.py]: [common.resolve_ip] and
    the standard library's [ipaddress.ip_address] (which either returns or
    raises [ValueError]). *)
Record platform : Type := {
  resolve_ip : string -> option string;
  ip_address : option string -> bool }.

(** [self._lbmethods] *)
Definition _lbmethods : list string :=
  [ "dynamic-ratio-member"; "least-connections-member"; "observed-node";
    "ratio-least-connections-node"; "round-robin"; "dynamic-ratio-node";
    "least-connections-node"; "predictive-member"; "ratio-member";
    "weighted-least-connections-member"; "fastest-app-response";
    "least-sessions"; "predictive-node"; "ratio-node";
    "weighted-least-connections-node"; "fastest-node"; "observed-member";
    "ratio-least-connections-member"; "ratio-session" ].

(** [CloudBigIP.is_label_data_valid(app)] *)
Definition is_label_data_valid (pf : platform) (a : app) : bool :=
  let is_valid := true in
  let is_valid :=
    match get_protocol (mode a) with None => false | Some _ => is_valid end in
  let is_valid :=
    if orb (servicePort a <? 1) (servicePort a >? 65535) then false
    else is_valid in
  let is_valid := if ip_address pf (bindAddr a) then is_valid else false in
  let is_valid := if mem (balance a) _lbmethods then is_valid else false in
  is_valid.

(** Stable sort by a key, as [sorted(l, key=...)]. *)
Section Sorted.
Variable A : Type.
Variable le : A -> A -> bool.

Fixpoint insert_sorted (x : A) (l : list A) : list A :=
  match l with
  | [] => [x]
  | y :: r => if le x y then x :: y :: r else y :: insert_sorted x r
  end.

Fixpoint sorted (l : list A) : list A :=
  match l with
  | [] => []
  | x :: r => insert_sorted x (sorted r)
  end.
End Sorted.

(** Order of the tuples [(s, n)]: by [s], then by [n]. *)
Definition key_le (k1 k2 : string * Z) : bool :=
  match String.compare (fst k1) (fst k2) with
  | Lt => true
  | Eq => snd k1 <=? snd k2
  | Gt => false
  end.

(** [attrgetter('appId', 'servicePort')] *)
Definition app_le (a b : app) : bool :=
  key_le (appId a, servicePort a) (appId b, servicePort b).

(** [attrgetter('host', 'port')] *)
Definition backend_le (a b : backend) : bool :=
  key_le (host a, port a) (host b, port b).

(** Python's [bool(d)] for a dictionary attribute that may be [None]. *)
Definition truthy_dict {V} (o : option (dict V)) : option (dict V) :=
  match o with
  | Some [] => None
  | other => other
  end.

(** [(data['protocol']).lower()] *)
Definition lower_val (v : pyval) : result pyval :=
  match v with
  | VStr s => Ok (VStr (lower s))
  | _ => Raise AttributeError
  end.

(** The block of [_create_config_marathon] under [if app.healthCheck:]:
    the health-check dictionary with the monitor's name, the lower-cased
    protocol, and [interval], [timeout] and [send] added. *)
Definition marathon_healthcheck (frontend_name : string) (hc : dict pyval)
    : result (dict pyval) :=
  let hc := dict_set hc "name" (VStr frontend_name) in
  hc <- match dict_get hc "protocol" with
        | Some p => p' <- lower_val p ;; Ok (dict_set hc "protocol" p')
        | None => Ok hc
        end ;;
  interval <- getitem hc "intervalSeconds" ;;
  timeout <- healthcheck_timeout_calculate hc ;;
  send <- healthcheck_sendstring hc ;;
  let hc := dict_set hc "interval" interval in
  let hc := dict_set hc "timeout" (VInt timeout) in
  let hc := dict_set hc "send"
              (match send with Some s => VStr s | None => VNone end) in
  Ok hc.

(** The profile list of a virtual server: the SSL profile when it parses as
    [partition/name], then the [http] or [tcp] profile of [Common]. *)
Definition marathon_profiles (a : app) : list profile_ref :=
  let profiles :=
    if truthy (profile a) then
      match split "/" (fmt_s (profile a)) with
      | [p; n] => [ {| prof_partition := p; prof_name := n |} ]
      | _ => []
      end
    else [] in
  if String.eqb (lower (str (mode a))) "http" then
    profiles ++ [ {| prof_partition := "Common"; prof_name := "http" |} ]
  else if match get_protocol (mode a) with
          | Some p => String.eqb p "tcp"
          | None => false
          end then
    profiles ++ [ {| prof_partition := "Common"; prof_name := "tcp" |} ]
  else profiles.

Definition member_up : member_cfg :=
  {| m_state := "user-up"; m_session := "user-enabled" |}.

(** The loop over [sorted(app.backends, key=key_func)]. *)
Definition marathon_nodes (pf : platform) (a : app) : dict member_cfg :=
  fold_left
    (fun nodes backendServer =>
       match resolve_ip pf (host backendServer) with
       | Some ipv4 =>
           dict_set nodes (ipv4 ++ ":" ++ str_of_Z (port backendServer))
                    member_up
       | None => nodes
       end)
    (sorted backend_le (backends a)) [].

(** ["%s_%s_%d" % ((app.appId).lstrip('/'), frontend, app.servicePort)] *)
Definition frontend_name_of (a : app) : string :=
  let frontend := if truthy (iapp a) then "iapp" else fmt_s (bindAddr a) in
  lstrip "/" (appId a) ++ "_" ++ frontend ++ "_" ++ str_of_Z (servicePort a).

(** One turn of the loop of [_create_config_marathon]: [Ok None] when the
    application is skipped by a [continue], [Ok (Some (name, f5_service))]
    when it reaches [f5.update({frontend_name: f5_service})]. *)
Definition marathon_service (pf : platform) (partitions : list string)
    (a : app) : result (option (string * service)) :=
  managed <- has_partition partitions (partition a) ;;
  if negb managed then Ok None
  else if andb (negb (truthy (bindAddr a))) (negb (truthy (iapp a)))
  then Ok None
  else if andb (negb (truthy (iapp a))) (negb (is_label_data_valid pf a))
  then Ok None
  else
    let frontend_name := frontend_name_of a in
    health <- match truthy_dict (healthCheck a) with
              | Some hc => hc' <- marathon_healthcheck frontend_name hc ;;
                           Ok [hc']
              | None => Ok []
              end ;;
    let part := fmt_s (partition a) in
    Ok (Some (frontend_name,
      {| svc_virtual := Some
           {| v_enabled := true;
              v_disabled := false;
              v_ipProtocol := get_protocol (mode a);
              v_destination :=
                "/" ++ part ++ "/" ++ fmt_s (bindAddr a) ++ ":"
                    ++ str_of_Z (servicePort a);
              v_pool := "/" ++ part ++ "/" ++ frontend_name;
              v_sourceAddressTranslation := "automap";
              v_profiles := marathon_profiles a |};
         svc_pool := Some
           {| p_monitor :=
                match truthy_dict (healthCheck a) with
                | Some _ => Some ("/" ++ part ++ "/" ++ frontend_name)
                | None => None
                end;
              p_loadBalancingMode := balance a |};
         svc_nodes := marathon_nodes pf a;
         svc_health := health;
         svc_partition := part;
         svc_name := frontend_name;
         svc_iapp :=
           if truthy (iapp a) then
             Some {| template := fmt_s (iapp a);
                     tableName := iappTableName a;
                     variables := iappVariables a;
                     options := iappOptions a |}
           else None;
         svc_virtual_address := bindAddr a |})).

(** [CloudBigIP._create_config_marathon(apps)] with [self._partitions]. *)
Fixpoint marathon_loop (pf : platform) (partitions : list string)
    (apps : list app) (f5 : config) : result config :=
  match apps with
  | [] => Ok f5
  | a :: rest =>
      entry <- marathon_service pf partitions a ;;
      match entry with
      | Some (frontend_name, f5_service) =>
          marathon_loop pf partitions rest (dict_set f5 frontend_name f5_service)
      | None => marathon_loop pf partitions rest f5
      end
  end.

Definition _create_config_marathon (pf : platform) (partitions : list string)
    (apps : list app) : result config :=
  marathon_loop pf partitions (sorted app_le apps) [].

(* ===================================================================== *)
(** * The diffing primitive *)
(* ===================================================================== *)

(** Modelled from the spec: [list_diff] and [list_intersect] are imported by
    [_f5.py] from the module [common], which is not among the sources.  The
    specification gives them as the difference and the intersection of two
    name collections, decided by membership, in the order of the first
    operand. *)
Definition list_diff (list1 list2 : list string) : list string :=
  filter (fun x => negb (mem x list2)) list1.

Definition list_intersect (list1 list2 : list string) : list string :=
  filter (fun x => mem x list2) list1.

(* ===================================================================== *)
(** * The device, and programs over it *)
(* ===================================================================== *)

(** The reads that [_apply_config] makes of the BIG-IP through the methods
    of [CloudBigIP]; each answers with a list of names. *)
Inductive query : Type :=
| Folders                                  (* self.sys.folders.get_collection() *)
| Iapp_list (partition : string)           (* get_iapp_list *)
| Pool_list (partition : string)           (* get_pool_list *)
| Virtual_list (partition : string)        (* get_virtual_list *)
| Pool_member_list (partition pool : string). (* get_pool_member_list *)

(** The methods of [CloudBigIP] through which [_apply_config] changes the
    BIG-IP, with their arguments. *)
Inductive command : Type :=
| Iapp_delete (partition name : string)
| Iapp_create (partition name : string) (data : service)
| Iapp_update (partition name : string) (data : service)
| Virtual_delete (partition virt : string)
| Pool_delete (partition pool : string)
| Healthcheck_delete (partition hc hc_type : string)
| Healthcheck_create (partition : string) (data : dict pyval)
| Pool_create (partition pool : string) (data : service)
| Virtual_create (partition virt : string) (data : service)
| Healthcheck_update (partition hc : string) (data : dict pyval)
| Pool_update (partition pool : string) (data : service)
| Virtual_update (partition virt : string) (data : service)
| Member_delete (partition pool member : string)
| Member_create (partition pool member : string) (data : member_cfg)
| Member_update (partition pool member : string) (data : member_cfg)
| Cleanup_nodes (partition : string).

(** What the pass did to the device, in order. *)
Inductive event : Type :=
| Read (q : query)
| Read_healthchecks (partition : string)   (* get_healthcheck_list *)
| Do (c : command).

(** A BIG-IP as the engine sees it: a state [W] and the outcome of each
    call, which may be any exception. *)
Record device (W : Type) : Type := {
  dev_names : query -> W -> W * result (list string);
  dev_healthchecks : string -> W -> W * result (dict string);
  dev_do : command -> W -> W * result unit }.

(** A run: the calls issued, the device's state, the value or exception. *)
Record run (W A : Type) : Type := {
  trace : list event;
  final : W;
  outcome : result A }.

Definition M (W A : Type) : Type := W -> run W A.

Definition ret {W A} (a : A) : M W A :=
  fun w => {| trace := []; final := w; outcome := Ok a |}.

Definition raise {W A} (e : exn) : M W A :=
  fun w => {| trace := []; final := w; outcome := Raise e |}.

Definition bind {W A B} (m : M W A) (k : A -> M W B) : M W B :=
  fun w =>
    let r := m w in
    match outcome r with
    | Ok a =>
        let r' := k a (final r) in
        {| trace := trace r ++ trace r'; final := final r';
           outcome := outcome r' |}
    | Raise e => {| trace := trace r; final := final r; outcome := Raise e |}
    end.

(** A [result] computed by the code itself, without the device. *)
Definition lift {W A} (r : result A) : M W A :=
  match r with
  | Ok a => ret a
  | Raise e => raise e
  end.

Declare Scope prog_scope.
Delimit Scope prog_scope with prog.
Notation "x <- c ;; k" := (bind c (fun x => k))
  (at level 100, c at next level, right associativity) : prog_scope.
Notation "c ;;; k" := (bind c (fun _ => k))
  (at level 100, right associativity) : prog_scope.

Definition ask {W} (d : device W) (q : query) : M W (list string) :=
  fun w =>
    let (w', r) := dev_names d q w in
    {| trace := [Read q]; final := w'; outcome := r |}.

Definition ask_healthchecks {W} (d : device W) (partition : string)
    : M W (dict string) :=
  fun w =>
    let (w', r) := dev_healthchecks d partition w in
    {| trace := [Read_healthchecks partition]; final := w'; outcome := r |}.

Definition perform {W} (d : device W) (c : command) : M W unit :=
  fun w =>
    let (w', r) := dev_do d c w in
    {| trace := [Do c]; final := w'; outcome := r |}.

(** [for x in l: body(x)] *)
Fixpoint for_each {W A} (l : list A) (body : A -> M W unit) : M W unit :=
  match l with
  | [] => ret tt
  | x :: r => bind (body x) (fun _ => for_each r body)
  end.

(** [try: body  except (the four device errors): return True;
    else return False].  Any other exception goes on to the caller. *)
Definition retry_on_device_error {W} (body : M W unit) : M W bool :=
  fun w =>
    let r := body w in
    {| trace := trace r;
       final := final r;
       outcome :=
         match outcome r with
         | Ok _ => Ok false
         | Raise ConnectionError => Ok true
         | Raise F5SDKError => Ok true
         | Raise BigIPInvalidURL => Ok true
         | Raise iControlUnexpectedHTTPError => Ok true
         | Raise e => Raise e
         end |}.

(* ===================================================================== *)
(** * iApp definitions *)
(* ===================================================================== *)

(** A table of an iApp: [{'columnNames': ..., 'name': ..., 'rows': ...}],
    each row being the list under its ['row'] key. *)
Record iapp_table : Type := {
  columnNames : list string;
  table_name : string;
  rows : list (list string) }.

(** [{'variables': [{'name': k, 'value': v}, ...], 'tables': [...]}]; the
    variables are kept as the pairs [(k, v)]. *)
Record iapp_definition : Type := {
  def_variables : list (string * string);
  def_tables : list iapp_table }.

(** [node = node.split(':')] then [[node[0], node[1], '0']]. *)
Definition iapp_row (node : string) : result (list string) :=
  match split ":" node with
  | addr :: prt :: _ => Ok [addr; prt; "0"]
  | _ => Raise IndexError
  end.

Fixpoint iapp_rows (nodes : list string) : result (list (list string)) :=
  match nodes with
  | [] => Ok []
  | node :: rest =>
      (row <- iapp_row node ;;
       more <- iapp_rows rest ;;
       Ok (row :: more))%result
  end.

(** [CloudBigIP.iapp_build_definition(config)] *)
Definition iapp_build_definition (cfg : service) : result iapp_definition :=
  (ia <- match svc_iapp cfg with
         | Some ia => Ok ia
         | None => Raise KeyError
         end ;;
   rws <- iapp_rows (keys (svc_nodes cfg)) ;;
   Ok {| def_variables := variables ia;
         def_tables :=
           [ {| columnNames := ["addr"; "port"; "connection_limit"];
                table_name := tableName ia;
                rows := rws |} ] |})%result.

(** The keyword arguments of [a.update(...)] in [iapp_update]. *)
Record service_update : Type := {
  executeAction : string;
  upd_name : string;
  upd_partition : string;
  upd_variables : list (string * string);
  upd_tables : list iapp_table;
  upd_options : dict pyval }.

(** [CloudBigIP.iapp_update(partition, name, config)]: the service is loaded
    and [update] is called on it with the definition built from [config];
    nothing is compared with the device's copy. *)
Definition iapp_update (partition name : string) (cfg : service)
    : result service_update :=
  (iapp_def <- iapp_build_definition cfg ;;
   ia <- match svc_iapp cfg with
         | Some ia => Ok ia
         | None => Raise KeyError
         end ;;
   Ok {| executeAction := "definition";
         upd_name := name;
         upd_partition := partition;
         upd_variables := def_variables iapp_def;
         upd_tables := def_tables iapp_def;
         upd_options := options ia |})%result.

(** The same method as it runs against the f5-sdk.  [load] is
    [self.get_iapp(partition, name)], the [load] of the application service,
    and [update] is [a.update(...)]; between the two the keyword arguments
    are built from [config], and an exception of either step ends the
    call. *)
Definition iapp_update_call {W : Type}
    (load : string -> string -> W -> W * result unit)
    (update : service_update -> W -> W * result unit)
    (partition name : string) (cfg : service) (w : W) : W * result unit :=
  let (w1, a) := load partition name w in
  match a with
  | Raise e => (w1, Raise e)
  | Ok _ =>
      match iapp_update partition name cfg with
      | Raise e => (w1, Raise e)
      | Ok kwargs => update kwargs w1
      end
  end.

(* ===================================================================== *)
(** * The reconciliation engine *)
(* ===================================================================== *)

(** [CloudBigIP.get_partitions(partitions)] *)
Definition get_partitions {W} (d : device W) (partitions : list string)
    : M W (list string) :=
  if mem "*" partitions then
    (folders <- ask d Folders ;;
     ret (filter (fun name =>
                    andb (andb (negb (String.eqb name "Common"))
                               (negb (String.eqb name "/")))
                         (negb (endswith name ".app")))
                 folders))%prog
  else ret partitions.

(** [[x for x in config.keys() if config[x]['partition'] == partition and
     'iapp' (not) in config[x]]] *)
Definition names_of (cfg : config) (partition : string) (with_iapp : bool)
    : list string :=
  filter (fun x =>
            match dict_get cfg x with
            | Some s =>
                andb (String.eqb (svc_partition s) partition)
                     (Bool.eqb (match svc_iapp s with
                                | Some _ => true
                                | None => false
                                end) with_iapp)
            | None => false
            end)
         (keys cfg).

(** The names of [l] that start with none of the iApp names. *)
Definition not_owned_by (iapps : list string) (l : list string) : list string :=
  fold_left (fun acc ia => filter (fun x => negb (startswith x ia)) acc)
            iapps l.

(** [marathon_healthcheck_list]: a virtual's name once for each of its
    health checks that has a ['protocol']. *)
Fixpoint healthcheck_names (cfg : config) (virtuals : list string)
    : result (list string) :=
  match virtuals with
  | [] => Ok []
  | v :: rest =>
      (s <- getitem cfg v ;;
       more <- healthcheck_names cfg rest ;;
       Ok (map (fun _ => v)
               (filter (fun hc => dict_has hc "protocol") (svc_health s))
             ++ more)%list)%result
  end.

(** [list(set(l))]: each name once.  Python leaves the order to the hash of
    the names; first occurrences are kept here. *)
Fixpoint list_of_set (l : list string) : list string :=
  match l with
  | [] => []
  | x :: r => x :: filter (fun y => negb (String.eqb x y)) (list_of_set r)
  end.

Section Engine.
Variable W : Type.
Variable d : device W.
Variable cfg : config.

Local Open Scope prog_scope.

(** The member phase for one pool. *)
Definition apply_members (partition pool : string) : M W unit :=
  f5_member_list <- ask d (Pool_member_list partition pool) ;;
  s <- lift (getitem cfg pool) ;;
  let marathon_member_list := keys (svc_nodes s) in
  for_each (list_diff f5_member_list marathon_member_list)
    (fun member => perform d (Member_delete partition pool member)) ;;;
  for_each (list_diff marathon_member_list f5_member_list)
    (fun member =>
       data <- lift (getitem (svc_nodes s) member) ;;
       perform d (Member_create partition pool member data)) ;;;
  for_each (list_intersect marathon_member_list f5_member_list)
    (fun member =>
       data <- lift (getitem (svc_nodes s) member) ;;
       perform d (Member_update partition pool member data)).

(** The body of the loop of [_apply_config] for one partition. *)
Definition apply_partition (partition : string) : M W unit :=
  let marathon_virtual_list := names_of cfg partition false in
  let marathon_pool_list := names_of cfg partition false in
  let marathon_iapp_list := names_of cfg partition true in
  (* Configure iApps *)
  f5_iapp_list <- ask d (Iapp_list partition) ;;
  for_each (list_diff f5_iapp_list marathon_iapp_list)
    (fun ia => perform d (Iapp_delete partition ia)) ;;;
  for_each (list_diff marathon_iapp_list f5_iapp_list)
    (fun ia => s <- lift (getitem cfg ia) ;;
               perform d (Iapp_create partition ia s)) ;;;
  for_each (list_intersect marathon_iapp_list f5_iapp_list)
    (fun ia => s <- lift (getitem cfg ia) ;;
               perform d (Iapp_update partition ia s)) ;;;
  marathon_healthcheck_list <-
    lift (healthcheck_names cfg marathon_virtual_list) ;;
  f5_pool_list <- ask d (Pool_list partition) ;;
  f5_virtual_list <- ask d (Virtual_list partition) ;;
  f5_healthcheck_dict <- ask_healthchecks d partition ;;
  let f5_healthcheck_list := keys f5_healthcheck_dict in
  (* resources of the iApps are left to the iApps *)
  let f5_virtual_list := not_owned_by marathon_iapp_list f5_virtual_list in
  let f5_pool_list := not_owned_by marathon_iapp_list f5_pool_list in
  let f5_healthcheck_list :=
    not_owned_by marathon_iapp_list f5_healthcheck_list in
  (* virtual delete *)
  for_each (list_diff f5_virtual_list marathon_virtual_list)
    (fun virt => perform d (Virtual_delete partition virt)) ;;;
  (* pool delete *)
  for_each (list_diff f5_pool_list marathon_pool_list)
    (fun pool => perform d (Pool_delete partition pool)) ;;;
  (* healthcheck delete *)
  for_each (list_diff f5_healthcheck_list marathon_healthcheck_list)
    (fun hc => ty <- lift (getitem f5_healthcheck_dict hc) ;;
               perform d (Healthcheck_delete partition hc ty)) ;;;
  (* healthcheck add *)
  for_each (list_diff marathon_healthcheck_list f5_healthcheck_list)
    (fun hc => s <- lift (getitem cfg hc) ;;
               for_each (svc_health s)
                 (fun item => perform d (Healthcheck_create partition item))) ;;;
  (* pool add *)
  let pool_add := list_diff marathon_pool_list f5_pool_list in
  for_each pool_add
    (fun pool => s <- lift (getitem cfg pool) ;;
                 perform d (Pool_create partition pool s)) ;;;
  (* virtual add *)
  for_each (list_diff marathon_virtual_list f5_virtual_list)
    (fun virt => s <- lift (getitem cfg virt) ;;
                 perform d (Virtual_create partition virt s)) ;;;
  (* healthcheck intersection *)
  for_each (list_intersect marathon_virtual_list f5_healthcheck_list)
    (fun hc => s <- lift (getitem cfg hc) ;;
               for_each (svc_health s)
                 (fun item => perform d (Healthcheck_update partition hc item))) ;;;
  (* pool intersection *)
  let pool_intersect := list_intersect marathon_pool_list f5_pool_list in
  for_each pool_intersect
    (fun pool => s <- lift (getitem cfg pool) ;;
                 perform d (Pool_update partition pool s)) ;;;
  (* virt intersection *)
  for_each (list_intersect marathon_virtual_list f5_virtual_list)
    (fun virt => s <- lift (getitem cfg virt) ;;
                 perform d (Virtual_update partition virt s)) ;;;
  (* add/update/remove pool members *)
  for_each (list_of_set (pool_add ++ pool_intersect)%list)
    (fun pool => apply_members partition pool) ;;;
  (* Delete any unreferenced nodes *)
  perform d (Cleanup_nodes partition).

(** [CloudBigIP._apply_config(config)] with [self._partitions]. *)
Definition _apply_config (partitions : list string) : M W unit :=
  unique_partitions <- get_partitions d partitions ;;
  for_each unique_partitions apply_partition.
End Engine.

(* ===================================================================== *)
(** * The Kubernetes builder *)
(* ===================================================================== *)

(** [frontend['virtualAddress']]; the key ['bindAddr'] may be missing. *)
Record virtual_address : Type := {
  va_bindAddr : option string;
  va_port : Z }.

(** [svc['virtualServer']['frontend']].  Keys that the code tests with [in]
    are options; the others are read only on the paths that need them. *)
Record frontend : Type := {
  fe_partition : option string;
  fe_virtualAddress : option virtual_address;
  fe_iapp : option string;
  fe_iappTableName : string;
  fe_iappVariables : dict string;
  fe_iappOptions : dict pyval;
  fe_sslProfile : option string;           (* ['sslProfile']['f5ProfileName'] *)
  fe_mode : pyval;
  fe_balance : string }.

(** [svc['virtualServer']['backend']] *)
Record k8s_backend : Type := {
  serviceName : string;
  be_servicePort : Z;
  poolMemberPort : Z;
  poolMemberAddrs : list string;
  healthMonitors : list (dict pyval) }.

Record k8s_service : Type := {
  vs_frontend : frontend;
  vs_backend : k8s_backend }.

(** [str.rstrip(c)] and [str.strip(c)] for a one-character set. *)
Fixpoint rstrip (c : ascii) (s : string) : string :=
  match s with
  | EmptyString => EmptyString
  | String x r =>
      match rstrip c r with
      | EmptyString => if Ascii.eqb x c then EmptyString
                       else String x EmptyString
      | r' => String x r'
      end
  end.

Definition strip (c : ascii) (s : string) : string := rstrip c (lstrip c s).

(** The loop over [enumerate(health_monitors)]: the named monitors and the
    [monitors] expression. *)
Fixpoint k8s_monitors (part frontend_name : string) (index : nat)
    (hms : list (dict pyval)) (monitors : option string)
    : list (dict pyval) * option string :=
  match hms with
  | [] => ([], monitors)
  | health :: rest =>
      let name :=
        match index with
        | O => frontend_name
        | _ => frontend_name ++ "_" ++ str_of_Z (Z.of_nat index)
        end in
      let monitors :=
        match index with
        | O => monitors
        | _ => Some (fmt_s monitors ++ " and ")
        end in
      let health := dict_set health "name" (VStr name) in
      let monitor := "/" ++ part ++ "/" ++ name in
      let monitors :=
        match monitors with
        | Some m => Some (m ++ monitor)
        | None => Some monitor
        end in
      let (hs, ms) := k8s_monitors part frontend_name (S index) rest monitors in
      (health :: hs, ms)
  end.

(** One turn of the loop of [_create_config_kubernetes]. *)
Definition kubernetes_service (partitions : list string) (svc : k8s_service)
    : result (option (string * service)) :=
  let backend := vs_backend svc in
  let frontend := vs_frontend svc in
  managed <- has_partition partitions (fe_partition frontend) ;;
  if negb managed then Ok None
  else
    let bind_addr :=
      match fe_virtualAddress frontend with
      | Some va => va_bindAddr va
      | None => None
      end in
    match bind_addr, fe_iapp frontend with
    | None, None => Ok None
    | _, _ =>
        let virt_addr :=
          match fe_iapp frontend with
          | Some _ => "iapp"
          | None => fmt_s bind_addr
          end in
        let prt :=
          match fe_virtualAddress frontend with
          | Some va => va_port va
          | None => be_servicePort backend
          end in
        let frontend_name :=
          strip "/" (serviceName backend) ++ "_" ++ virt_addr ++ "_"
                ++ str_of_Z prt in
        let part := fmt_s (fe_partition frontend) in
        let nodes :=
          fold_left
            (fun nodes node =>
               dict_set nodes (node ++ ":" ++ str_of_Z (poolMemberPort backend))
                        member_up)
            (poolMemberAddrs backend) [] in
        match fe_iapp frontend with
        | Some tmpl =>
            Ok (Some (frontend_name,
              {| svc_virtual := None;
                 svc_pool := None;
                 svc_nodes := nodes;
                 svc_health := [];
                 svc_partition := part;
                 svc_name := frontend_name;
                 svc_iapp := Some {| template := tmpl;
                                     tableName := fe_iappTableName frontend;
                                     variables := fe_iappVariables frontend;
                                     options := fe_iappOptions frontend |};
                 svc_virtual_address := None |}))
        | None =>
            let profiles :=
              match fe_sslProfile frontend with
              | Some f5ProfileName =>
                  match split "/" f5ProfileName with
                  | [p; n] => [ {| prof_partition := p; prof_name := n |} ]
                  | _ => []
                  end
              | None => []
              end in
            let profiles :=
              if String.eqb (lower (str (fe_mode frontend))) "http" then
                (profiles ++ [ {| prof_partition := "Common";
                                  prof_name := "http" |} ])%list
              else if match get_protocol (fe_mode frontend) with
                      | Some p => String.eqb p "tcp"
                      | None => false
                      end then
                (profiles ++ [ {| prof_partition := "Common";
                                  prof_name := "tcp" |} ])%list
              else profiles in
            let (health, monitors) :=
              k8s_monitors part frontend_name O (healthMonitors backend) None in
            Ok (Some (frontend_name,
              {| svc_virtual := Some
                   {| v_enabled := true;
                      v_disabled := false;
                      v_ipProtocol := get_protocol (fe_mode frontend);
                      v_destination :=
                        "/" ++ part ++ "/" ++ fmt_s bind_addr ++ ":"
                            ++ str_of_Z prt;
                      v_pool := "/" ++ part ++ "/" ++ frontend_name;
                      v_sourceAddressTranslation := "automap";
                      v_profiles := profiles |};
                 svc_pool := Some {| p_monitor := monitors;
                                     p_loadBalancingMode := fe_balance frontend |};
                 svc_nodes := nodes;
                 svc_health := health;
                 svc_partition := part;
                 svc_name := frontend_name;
                 svc_iapp := None;
                 svc_virtual_address := bind_addr |}))
        end
    end.

(** [CloudBigIP._create_config_kubernetes(svcs)] with [self._partitions]. *)
Fixpoint _create_config_kubernetes_from (partitions : list string)
    (svcs : list k8s_service) (f5 : config) : result config :=
  match svcs with
  | [] => Ok f5
  | svc :: rest =>
      entry <- kubernetes_service partitions svc ;;
      match entry with
      | Some (frontend_name, f5_service) =>
          _create_config_kubernetes_from partitions rest
            (dict_set f5 frontend_name f5_service)
      | None => _create_config_kubernetes_from partitions rest f5
      end
  end.

Definition _create_config_kubernetes (partitions : list string)
    (svcs : list k8s_service) : result config :=
  _create_config_kubernetes_from partitions svcs [].

(* ===================================================================== *)
(** * The top level *)
(* ===================================================================== *)

(** The state handed to [regenerate_config_f5], in the shape that
    [self._cloud] announces: Marathon's application list, or the Kubernetes
    services, bare or under the key ['services'] of a dictionary. *)
Inductive cloud_state : Type :=
| Marathon_apps (apps : list app)
| Kubernetes_services (svcs : list k8s_service)
| Kubernetes_config (services : list k8s_service).

(** The [try] block of [regenerate_config_f5]. *)
Definition regenerate_pass {W} (d : device W) (pf : platform)
    (partitions : list string) (state : cloud_state) : M W unit :=
  (cfg <- lift match state with
               | Marathon_apps apps =>
                   _create_config_marathon pf partitions apps
               | Kubernetes_services svcs =>
                   _create_config_kubernetes partitions svcs
               | Kubernetes_config services =>
                   _create_config_kubernetes partitions services
               end ;;
   _apply_config d cfg partitions)%prog.

(** [CloudBigIP.regenerate_config_f5(cloud_state)] *)
Definition regenerate_config_f5 {W} (d : device W) (pf : platform)
    (partitions : list string) (state : cloud_state) : M W bool :=
  retry_on_device_error (regenerate_pass d pf partitions state).

(* ===================================================================== *)
(** * The node sweep *)
(* ===================================================================== *)

(** The pools and nodes of the BIG-IP, as [get_collection()] lists them:
    every partition's objects in one collection. *)
Record pool_obj : Type := {
  pool_name : string;
  pool_partition : string;
  pool_members : list string }.            (* the names of its members *)

Record node_obj : Type := {
  node_name : string;
  node_partition : string;
  node_state : string;
  node_session : string }.

Record bigip : Type := {
  ltm_pools : list pool_obj;
  ltm_nodes : list node_obj }.

(** [CloudBigIP.get_pool(partition, name)]: the first pool of the collection
    with this name; [partition] is not looked at. *)
Definition get_pool (b : bigip) (partition name : string) : option pool_obj :=
  find (fun pool => String.eqb (pool_name pool) name) (ltm_pools b).

(** [CloudBigIP.get_pool_list(partition)] *)
Definition get_pool_list (b : bigip) (partition : string) : list string :=
  map pool_name
      (filter (fun pool => String.eqb (pool_partition pool) partition)
              (ltm_pools b)).

(** [CloudBigIP.get_pool_member_list(partition, pool)]; on [None] the
    attribute access [p.members_s] fails. *)
Definition get_pool_member_list (b : bigip) (partition pool : string)
    : result (list string) :=
  match get_pool b partition pool with
  | Some p => Ok (pool_members p)
  | None => Raise AttributeError
  end.

(** [CloudBigIP.get_node_list(partition)] *)
Definition get_node_list (b : bigip) (partition : string) : list string :=
  map node_name
      (filter (fun node => String.eqb (node_partition node) partition)
              (ltm_nodes b)).

Definition is_node (partition name : string) (node : node_obj) : bool :=
  andb (String.eqb (node_name node) name)
       (String.eqb (node_partition node) partition).

(** [CloudBigIP.get_node(partition, name)] *)
Definition get_node (b : bigip) (partition name : string) : option node_obj :=
  find (is_node partition name) (ltm_nodes b).

(** [node.modify(state=..., session=...)] on the node loaded under
    [name] and [partition]. *)
Fixpoint modify_first (partition name state session : string)
    (nodes : list node_obj) : list node_obj :=
  match nodes with
  | [] => []
  | node :: rest =>
      if is_node partition name node then
        {| node_name := node_name node;
           node_partition := node_partition node;
           node_state := state;
           node_session := session |} :: rest
      else node :: modify_first partition name state session rest
  end.

Definition node_modify (b : bigip) (partition name state session : string)
    : bigip :=
  {| ltm_pools := ltm_pools b;
     ltm_nodes := modify_first partition name state session (ltm_nodes b) |}.

Fixpoint delete_first (partition name : string) (nodes : list node_obj)
    : list node_obj :=
  match nodes with
  | [] => []
  | node :: rest =>
      if is_node partition name node then rest
      else node :: delete_first partition name rest
  end.

(** [CloudBigIP.node_delete(node_name, partition)]: [load] then [delete];
    loading a node that does not exist is refused by the device. *)
Definition node_delete (b : bigip) (name partition : string) : result bigip :=
  match get_node b partition name with
  | Some _ =>
      Ok {| ltm_pools := ltm_pools b;
            ltm_nodes := delete_first partition name (ltm_nodes b) |}
  | None => Raise iControlUnexpectedHTTPError
  end.

(** [list.remove(x)]: the first occurrence goes. *)
Fixpoint remove_first (x : string) (l : list string) : list string :=
  match l with
  | [] => []
  | y :: r => if String.eqb x y then r else y :: remove_first x r
  end.

(** What the sweep did to the nodes, in order. *)
Inductive node_event : Type :=
| Node_modify (name : string)
| Node_delete (name : string).

(** The variables of [cleanup_nodes] while it runs. *)
Record sweep : Type := {
  sw_bigip : bigip;
  sw_node_list : list string;
  sw_log : list node_event }.

(** The body of [for member in member_list]. *)
Definition sweep_member (partition : string) (st : sweep) (member : string)
    : result sweep :=
  match split ":" member with
  | [name; _] =>
      if mem name (sw_node_list st) then
        let node_list := remove_first name (sw_node_list st) in
        match get_node (sw_bigip st) partition name with
        | None => Raise AttributeError
        | Some node =>
            if andb (orb (String.eqb (node_state node) "up")
                         (String.eqb (node_state node) "unchecked"))
                    (str_in "enabled" (node_session node))
            then Ok {| sw_bigip := sw_bigip st;
                       sw_node_list := node_list;
                       sw_log := sw_log st |}
            else Ok {| sw_bigip :=
                         node_modify (sw_bigip st) partition name
                                     "user-up" "user-enabled";
                       sw_node_list := node_list;
                       sw_log := (sw_log st ++ [Node_modify name])%list |}
        end
      else Ok st
  | _ => Raise ValueError
  end.

Fixpoint sweep_members (partition : string) (st : sweep)
    (member_list : list string) : result sweep :=
  match member_list with
  | [] => Ok st
  | member :: rest =>
      st' <- sweep_member partition st member ;;
      sweep_members partition st' rest
  end.

(** The body of [for pool in pool_list]. *)
Fixpoint sweep_pools (partition : string) (st : sweep)
    (pool_list : list string) : result sweep :=
  match pool_list with
  | [] => Ok st
  | pool :: rest =>
      member_list <- get_pool_member_list (sw_bigip st) partition pool ;;
      st' <- sweep_members partition st member_list ;;
      sweep_pools partition st' rest
  end.

(** [for node in node_list: self.node_delete(node, partition)] *)
Fixpoint sweep_delete (partition : string) (b : bigip)
    (log : list node_event) (node_list : list string)
    : result (bigip * list node_event) :=
  match node_list with
  | [] => Ok (b, log)
  | node :: rest =>
      b' <- node_delete b node partition ;;
      sweep_delete partition b' (log ++ [Node_delete node])%list rest
  end.

(** [CloudBigIP.cleanup_nodes(partition)]: the device after the sweep and
    the node operations issued. *)
Definition cleanup_nodes (b : bigip) (partition : string)
    : result (bigip * list node_event) :=
  let node_list := get_node_list b partition in
  let pool_list := get_pool_list b partition in
  st <- sweep_pools partition
          {| sw_bigip := b; sw_node_list := node_list; sw_log := [] |}
          pool_list ;;
  sweep_delete partition (sw_bigip st) (sw_log st) (sw_node_list st).

(* ===================================================================== *)
(** * Properties: the diffing primitive *)
(* ===================================================================== *)

Lemma mem_In (x : string) (l : list string) : mem x l = true <-> In x l.
Proof.
  unfold mem. rewrite existsb_exists. split.
  - intros [y [Hy Heq]]. apply String.eqb_eq in Heq. now subst.
  - intros H. exists x. split; [assumption | apply String.eqb_refl].
Qed.

Lemma mem_not_In (x : string) (l : list string) : mem x l = false <-> ~ In x l.
Proof.
  rewrite <- mem_In. destruct (mem x l); split; congruence.
Qed.

Lemma In_list_diff (l1 l2 : list string) (x : string) :
  In x (list_diff l1 l2) <-> In x l1 /\ ~ In x l2.
Proof.
  unfold list_diff. rewrite filter_In, negb_true_iff, mem_not_In. tauto.
Qed.

Lemma In_list_intersect (l1 l2 : list string) (x : string) :
  In x (list_intersect l1 l2) <-> In x l1 /\ In x l2.
Proof.
  unfold list_intersect. rewrite filter_In, mem_In. tauto.
Qed.

(** [subsequence s l]: [s] is [l] with some elements left out, the others in
    the order they have in [l]. *)
Inductive subsequence {A : Type} : list A -> list A -> Prop :=
| sub_nil : subsequence [] []
| sub_keep x s l : subsequence s l -> subsequence (x :: s) (x :: l)
| sub_skip x s l : subsequence s l -> subsequence s (x :: l).

Lemma filter_subsequence {A} (f : A -> bool) (l : list A) :
  subsequence (filter f l) l.
Proof.
  induction l as [| x l IH]; simpl.
  - constructor.
  - destruct (f x); now constructor.
Qed.

(** C1.  For all name lists [D] (desired) and [A] (actual), the lists
    [to_delete = list_diff A D], [to_add = list_diff D A] and
    [to_update = list_intersect D A] hold exactly the names of [A] not in
    [D], of [D] not in [A], and of both; each is a subsequence of its first
    operand; and no name is both deleted and added, or both added and
    updated. *)
Theorem list_diff_correct (D A : list string) :
  let to_delete := list_diff A D in
  let to_add := list_diff D A in
  let to_update := list_intersect D A in
  (forall x, In x to_delete <-> In x A /\ ~ In x D) /\
  (forall x, In x to_add <-> In x D /\ ~ In x A) /\
  (forall x, In x to_update <-> In x D /\ In x A) /\
  subsequence to_delete A /\
  subsequence to_add D /\
  subsequence to_update D /\
  (forall x, ~ (In x to_delete /\ In x to_add)) /\
  (forall x, ~ (In x to_add /\ In x to_update)).
Proof.
  cbv zeta.
  split; [intros x; apply In_list_diff |].
  split; [intros x; apply In_list_diff |].
  split; [intros x; apply In_list_intersect |].
  split; [apply filter_subsequence |].
  split; [apply filter_subsequence |].
  split; [apply filter_subsequence |].
  split; intros x [H1 H2].
  - apply In_list_diff in H1, H2. tauto.
  - apply In_list_diff in H1. apply In_list_intersect in H2. tauto.
Qed.

(* ===================================================================== *)
(** * Properties: the helpers *)
(* ===================================================================== *)

Lemma getitem_Some {V} (data : dict V) (k : string) (v : V) :
  dict_get data k = Some v -> getitem data k = Ok v.
Proof. unfold getitem. now intros ->. Qed.

Lemma timeout_of_ints (data : dict pyval) (m i t : Z) :
  dict_get data "maxConsecutiveFailures" = Some (VInt m) ->
  dict_get data "intervalSeconds" = Some (VInt i) ->
  dict_get data "timeoutSeconds" = Some (VInt t) ->
  healthcheck_timeout_calculate data = Ok ((m - 1) * i + t + 1).
Proof.
  intros Hm Hi Ht. unfold healthcheck_timeout_calculate.
  rewrite (getitem_Some _ _ Hm). simpl.
  rewrite (getitem_Some _ _ Hi). simpl.
  rewrite (getitem_Some _ _ Ht). reflexivity.
Qed.

(** C5.  For a health-check record whose [maxConsecutiveFailures],
    [intervalSeconds] and [timeoutSeconds] are the integers [m], [i] and
    [t], the computed timeout is [(m - 1) * i + t + 1]. *)
Theorem healthcheck_timeout_formula (data : dict pyval) (m i t : Z) :
  dict_get data "maxConsecutiveFailures" = Some (VInt m) ->
  dict_get data "intervalSeconds" = Some (VInt i) ->
  dict_get data "timeoutSeconds" = Some (VInt t) ->
  healthcheck_timeout_calculate data = Ok ((m - 1) * i + t + 1).
Proof. exact (@timeout_of_ints data m i t). Qed.

(** The record of the specification's example: 3 failures, every 5 seconds,
    10 seconds of timeout, give 21. *)
Definition healthcheck_3_5_10 : dict pyval :=
  [ ("protocol", VStr "HTTP"); ("path", VStr "/health");
    ("maxConsecutiveFailures", VInt 3); ("intervalSeconds", VInt 5);
    ("timeoutSeconds", VInt 10) ].

Lemma healthcheck_timeout_formula_witness :
  healthcheck_timeout_calculate healthcheck_3_5_10 = Ok 21.
Proof.
  apply (@healthcheck_timeout_formula healthcheck_3_5_10 3 5 10);
    reflexivity.
Defined.

Lemma sendstring_http (data : dict pyval) :
  dict_get data "protocol" = Some (VStr "http") ->
  healthcheck_sendstring data =
  Ok (Some ("GET " ++ match dict_get data "path" with
                      | Some path => str path
                      | None => "/"
                      end ++ " HTTP/1.0" ++ crlf2)).
Proof.
  intros Hp. unfold healthcheck_sendstring.
  rewrite (getitem_Some _ _ Hp). simpl.
  now destruct (dict_get data "path").
Qed.

Lemma sendstring_other (data : dict pyval) (p : pyval) :
  dict_get data "protocol" = Some p ->
  p <> VStr "http" ->
  healthcheck_sendstring data = Ok None.
Proof.
  intros Hp Hne. unfold healthcheck_sendstring.
  rewrite (getitem_Some _ _ Hp). simpl.
  destruct p as [| z | s]; try reflexivity.
  repeat match goal with
         | |- context [match ?s with EmptyString => _ | String _ _ => _ end] =>
             destruct s; try reflexivity
         | |- context [match ?a with Ascii _ _ _ _ _ _ _ _ => _ end] =>
             destruct a
         | |- context [if ?b then _ else _] => destruct b; try reflexivity
         end.
  now contradiction Hne.
Qed.

(** C7.  A health-monitor record whose protocol is ["http"] gets the send
    string [GET <path> HTTP/1.0] followed by the four two-character escapes
    backslash-r backslash-n backslash-r backslash-n, where [<path>] is the
    record's ['path'] when it has one and [/] otherwise; a record with any
    other protocol gets [None]. *)
Theorem healthcheck_sendstring_spec (data : dict pyval) (p : pyval) :
  dict_get data "protocol" = Some p ->
  (p = VStr "http" ->
   healthcheck_sendstring data =
   Ok (Some ("GET " ++ match dict_get data "path" with
                       | Some path => str path
                       | None => "/"
                       end ++ " HTTP/1.0" ++ crlf2))) /\
  (p <> VStr "http" -> healthcheck_sendstring data = Ok None).
Proof.
  intros Hp. split.
  - intros ->. now apply sendstring_http.
  - intros Hne. now apply (sendstring_other data Hp).
Qed.

Lemma healthcheck_sendstring_spec_witness :
  healthcheck_sendstring
    [("protocol", VStr "http"); ("path", VStr "/health")] =
  Ok (Some ("GET /health HTTP/1.0" ++ crlf2)) /\
  healthcheck_sendstring [("protocol", VStr "http")] =
  Ok (Some ("GET / HTTP/1.0" ++ crlf2)) /\
  healthcheck_sendstring [("protocol", VStr "tcp"); ("path", VStr "/x")] =
  Ok None.
Proof.
  split; [| split].
  - apply (@healthcheck_sendstring_spec
             [("protocol", VStr "http"); ("path", VStr "/health")]
             (VStr "http")); reflexivity.
  - apply (@healthcheck_sendstring_spec [("protocol", VStr "http")]
             (VStr "http")); reflexivity.
  - apply (@healthcheck_sendstring_spec
             [("protocol", VStr "tcp"); ("path", VStr "/x")]
             (VStr "tcp")); [reflexivity | discriminate].
Defined.

(** [has_partition] never raises: the test before its [raise] cannot hold
    once the first [return] has been passed. *)
Lemma has_partition_total (partitions : list string) (o : option string) :
  has_partition partitions o =
  Ok (andb (truthy o) (orb (mem "*" partitions) (mem (fmt_s o) partitions))).
Proof.
  unfold has_partition.
  destruct (truthy o); simpl; [| reflexivity].
  destruct (mem "*" partitions); simpl; [reflexivity |].
  rewrite andb_false_r.
  now destruct (mem (fmt_s o) partitions).
Qed.

Lemma invalid_mode_invalid_labels (pf : platform) (a : app) :
  get_protocol (mode a) = None -> is_label_data_valid pf a = false.
Proof.
  intros H. unfold is_label_data_valid. rewrite H.
  destruct (orb _ _), (ip_address pf (bindAddr a)),
    (mem (balance a) _lbmethods); reflexivity.
Qed.

Lemma invalid_labels_skipped (pf : platform) (partitions : list string)
    (a : app) :
  truthy (iapp a) = false ->
  is_label_data_valid pf a = false ->
  marathon_service pf partitions a = Ok None.
Proof.
  intros Hi Hv. unfold marathon_service.
  rewrite has_partition_total. simpl.
  destruct (negb _); [reflexivity |].
  rewrite Hi, Hv. simpl.
  now destruct (negb (truthy (bindAddr a))).
Qed.

(** The mapping in the words of the specification: [tcp], [http] and [udp]
    give [tcp]; [udp] gives [udp]; anything else gives no mode. *)
Definition spec_mode_mapping (protocol : string) (derived : option string)
    : Prop :=
  (In protocol ["tcp"; "http"; "udp"] -> derived = Some "tcp") /\
  (protocol = "udp" -> derived = Some "udp") /\
  (~ In protocol ["tcp"; "http"; "udp"] -> derived = None).

(** A Kubernetes service of partition [prod] bound to 10.0.0.5:80, with the
    given mode, no iApp and no health monitor. *)
Definition plain_service (md : pyval) : k8s_service :=
  {| vs_frontend :=
       {| fe_partition := Some "prod";
          fe_virtualAddress :=
            Some {| va_bindAddr := Some "10.0.0.5"; va_port := 80 |};
          fe_iapp := None;
          fe_iappTableName := "";
          fe_iappVariables := [];
          fe_iappOptions := [];
          fe_sslProfile := None;
          fe_mode := md;
          fe_balance := "round-robin" |};
     vs_backend :=
       {| serviceName := "web";
          be_servicePort := 80;
          poolMemberPort := 30080;
          poolMemberAddrs := ["10.1.0.1"];
          healthMonitors := [] |} |}.

(** C6, as stated, fails in three places.  At the protocol ["udp"] the code
    derives [udp], not [tcp].  The protocol ["TCP"] is none of the three
    listed strings, yet it is not invalid: the code compares in lower case
    and derives [tcp].  And an individually-managed service with the invalid
    protocol ["sctp"] is excluded only when it is a Marathon application:
    the Kubernetes builder enters it in the desired model, its virtual
    server without a protocol. *)
Lemma protocol_mapping_counterexample :
  (get_protocol (VStr "udp") = Some "udp" /\
   ~ spec_mode_mapping "udp" (get_protocol (VStr "udp"))) /\
  (get_protocol (VStr "TCP") = Some "tcp" /\
   ~ spec_mode_mapping "TCP" (get_protocol (VStr "TCP"))) /\
  (get_protocol (VStr "sctp") = None /\
   exists entry v,
     _create_config_kubernetes ["prod"] [plain_service (VStr "sctp")]
     = Ok [("web_10.0.0.5_80", entry)] /\
     svc_iapp entry = None /\
     svc_virtual entry = Some v /\
     v_ipProtocol v = None).
Proof.
  split; [| split].
  - split; [reflexivity |].
    intros [H _]. specialize (H (or_intror (or_intror (or_introl eq_refl)))).
    discriminate H.
  - split; [reflexivity |].
    intros [_ [_ H]].
    assert (N : ~ In "TCP" ["tcp"; "http"; "udp"])
      by (simpl; intuition discriminate).
    specialize (H N). discriminate H.
  - split; [reflexivity |].
    eexists. eexists. split; [vm_compute; reflexivity |].
    split; [reflexivity |]. split; reflexivity.
Qed.

(** C6, amended.  For every declared protocol string, compared in lower
    case: [tcp] and [http] derive [tcp]; [udp] derives [udp]; any other
    value is invalid (derives no mode).  An individually-managed Marathon
    application (one without an iApp) with an invalid protocol fails
    validation and yields no entry of the desired model.  An
    individually-managed Kubernetes service is not validated: with an
    invalid protocol, a managed partition and a bind address it is still
    entered in the desired model, its virtual server without a protocol. *)
Theorem get_protocol_mapping (s : string) :
  (lower s = "tcp" \/ lower s = "http" -> get_protocol (VStr s) = Some "tcp") /\
  (lower s = "udp" -> get_protocol (VStr s) = Some "udp") /\
  (lower s <> "tcp" -> lower s <> "http" -> lower s <> "udp" ->
   get_protocol (VStr s) = None /\
   (forall (pf : platform) (partitions : list string) (a : app),
      mode a = VStr s ->
      truthy (iapp a) = false ->
      is_label_data_valid pf a = false /\
      marathon_service pf partitions a = Ok None) /\
   (forall (partitions : list string) (svc : k8s_service)
           (va : virtual_address) (b : string),
      fe_mode (vs_frontend svc) = VStr s ->
      fe_iapp (vs_frontend svc) = None ->
      has_partition partitions (fe_partition (vs_frontend svc)) = Ok true ->
      fe_virtualAddress (vs_frontend svc) = Some va ->
      va_bindAddr va = Some b ->
      exists name entry v,
        kubernetes_service partitions svc = Ok (Some (name, entry)) /\
        svc_iapp entry = None /\
        svc_virtual entry = Some v /\
        v_ipProtocol v = None)).
Proof.
  unfold get_protocol. simpl str. split; [| split].
  - intros [-> | ->]; reflexivity.
  - intros ->. reflexivity.
  - intros H1 H2 H3.
    apply String.eqb_neq in H1, H2, H3.
    assert (Hnone : get_protocol (VStr s) = None).
    { unfold get_protocol. simpl str. now rewrite H1, H2, H3. }
    split; [exact Hnone |]. split.
    + intros pf partitions a Hm Hi.
      assert (Hv : is_label_data_valid pf a = false).
      { apply invalid_mode_invalid_labels. rewrite Hm. exact Hnone. }
      split; [exact Hv |].
      now apply invalid_labels_skipped.
    + intros partitions svc va b Hm Hi Hp Hva Hb.
      unfold kubernetes_service. rewrite Hp. simpl.
      rewrite Hva, Hb, Hi, Hm, Hnone.
      destruct (k8s_monitors _ _ O (healthMonitors (vs_backend svc)) None)
        as [health monitors].
      eexists. eexists. eexists. split; [reflexivity |].
      split; [reflexivity |]. split; reflexivity.
Qed.

(** An application of partition [part] bound to 10.0.0.1:80, with the
    given mode and no iApp, health check or profile. *)
Definition plain_app (id part : string) (md : pyval) : app :=
  {| appId := id;
     partition := Some part;
     mode := md;
     balance := "round-robin";
     bindAddr := Some "10.0.0.1";
     servicePort := 80;
     profile := None;
     iapp := None;
     iappTableName := "";
     iappVariables := [];
     iappOptions := [];
     healthCheck := None;
     backends := [ {| host := "10.1.0.1"; port := 31001 |};
                   {| host := "10.1.0.2"; port := 31002 |} ] |}.

(** A platform on which host names are already addresses and every
    non-empty bind address parses. *)
Definition test_platform : platform :=
  {| resolve_ip := fun h => Some h;
     ip_address := truthy |}.

Lemma get_protocol_mapping_witness :
  get_protocol (VStr "HTTP") = Some "tcp" /\
  get_protocol (VStr "Udp") = Some "udp" /\
  get_protocol (VStr "sctp") = None /\
  (is_label_data_valid test_platform (plain_app "/app-a" "prod" (VStr "sctp"))
   = false /\
   marathon_service test_platform ["prod"]
     (plain_app "/app-a" "prod" (VStr "sctp")) = Ok None) /\
  (exists name entry v,
     kubernetes_service ["prod"] (plain_service (VStr "sctp"))
     = Ok (Some (name, entry)) /\
     svc_iapp entry = None /\
     svc_virtual entry = Some v /\
     v_ipProtocol v = None).
Proof.
  split; [| split].
  - apply (get_protocol_mapping "HTTP"). right. reflexivity.
  - apply (get_protocol_mapping "Udp"). reflexivity.
  - destruct (get_protocol_mapping "sctp") as [_ [_ H]].
    destruct H as [Hn [Ha Hk]]; try discriminate.
    split; [exact Hn |]. split.
    + apply (Ha test_platform ["prod"]
               (plain_app "/app-a" "prod" (VStr "sctp"))); reflexivity.
    + apply (Hk ["prod"] (plain_service (VStr "sctp"))
               {| va_bindAddr := Some "10.0.0.5"; va_port := 80 |}
               "10.0.0.5"); reflexivity.
Defined.

(* ===================================================================== *)
(** * Properties: the Marathon builder *)
(* ===================================================================== *)

Lemma dict_get_set {V} (d : dict V) (k k' : string) (v : V) :
  dict_get (dict_set d k v) k' =
  if String.eqb k' k then Some v else dict_get d k'.
Proof.
  induction d as [| [k0 v0] d IH]; simpl.
  - reflexivity.
  - destruct (String.eqb k k0) eqn:E; simpl.
    + apply String.eqb_eq in E. subst k0.
      now destruct (String.eqb k' k).
    + destruct (String.eqb k' k0) eqn:E'.
      * apply String.eqb_eq in E'. subst k0.
        rewrite String.eqb_sym in E. now rewrite E.
      * exact IH.
Qed.

Lemma In_dict_set {V} (d : dict V) (k : string) (v : V) (e : string * V) :
  In e (dict_set d k v) -> e = (k, v) \/ In e d.
Proof.
  induction d as [| [k0 v0] d IH]; simpl.
  - intros [<- | []]. now left.
  - destruct (String.eqb k k0); simpl.
    + intros [<- | H]; [now left | now right; right].
    + intros [<- | H]; [now right; left |].
      destruct (IH H); [now left | now right; right].
Qed.

Lemma In_insert_sorted {A} (le : A -> A -> bool) (x y : A) (l : list A) :
  In y (insert_sorted le x l) -> y = x \/ In y l.
Proof.
  induction l as [| z l IH]; simpl.
  - intros [<- | []]. now left.
  - destruct (le x z); simpl.
    + intros [<- | H]; [now left | now right].
    + intros [<- | H]; [now right; left |].
      destruct (IH H); [now left | now right; right].
Qed.

Lemma In_sorted {A} (le : A -> A -> bool) (y : A) (l : list A) :
  In y (sorted le l) -> In y l.
Proof.
  induction l as [| x l IH]; simpl; [tauto |].
  intros H. apply In_insert_sorted in H. destruct H as [-> | H].
  - now left.
  - right. now apply IH.
Qed.

(** Every entry of the loop's result was there before or was produced by
    one of the applications. *)
Lemma marathon_loop_entries (pf : platform) (partitions : list string)
    (apps : list app) :
  forall (f5 cfg : config), marathon_loop pf partitions apps f5 = Ok cfg ->
  forall e, In e cfg ->
    In e f5 \/
    exists a, In a apps /\ marathon_service pf partitions a = Ok (Some e).
Proof.
  induction apps as [| a apps IH]; simpl; intros f5 cfg H e He.
  - injection H as <-. now left.
  - destruct (marathon_service pf partitions a) as [[[n s] |] |] eqn:Ha;
      simpl in H; try discriminate.
    + destruct (IH _ _ H e He) as [Hin | [b [Hb Hs]]].
      * apply In_dict_set in Hin. destruct Hin as [-> | Hin].
        -- right. exists a. split; [now left | exact Ha].
        -- now left.
      * right. exists b. split; [now right | exact Hs].
    + destruct (IH _ _ H e He) as [Hin | [b [Hb Hs]]].
      * now left.
      * right. exists b. split; [now right | exact Hs].
Qed.

(** Every entry of the desired model comes from an application that the
    loop did not skip; in particular from one whose partition is managed. *)
Lemma marathon_entries_managed (pf : platform) (partitions : list string)
    (apps : list app) (cfg : config) :
  _create_config_marathon pf partitions apps = Ok cfg ->
  forall e, In e cfg ->
    exists a, In a apps /\
              marathon_service pf partitions a = Ok (Some e) /\
              has_partition partitions (partition a) = Ok true.
Proof.
  unfold _create_config_marathon. intros H e He.
  destruct (marathon_loop_entries _ _ _ _ H e He) as [[] | [a [Ha Hs]]].
  exists a. split; [now apply In_sorted in Ha |]. split; [exact Hs |].
  unfold marathon_service in Hs. rewrite has_partition_total in *.
  simpl in Hs.
  destruct (andb _ _); [reflexivity | discriminate].
Qed.

Lemma unmanaged_skipped (pf : platform) (partitions : list string) (a : app) :
  has_partition partitions (partition a) = Ok false ->
  marathon_service pf partitions a = Ok None /\
  _create_config_marathon pf partitions [a] = Ok [].
Proof.
  intros H.
  assert (Hs : marathon_service pf partitions a = Ok None).
  { unfold marathon_service. now rewrite H. }
  split; [exact Hs |].
  unfold _create_config_marathon. simpl. now rewrite Hs.
Qed.

(** A health check that the builder can process: the three integers of the
    timeout formula and a protocol name. *)
Definition well_formed_healthcheck (hc : dict pyval) : Prop :=
  (exists m, dict_get hc "maxConsecutiveFailures" = Some (VInt m)) /\
  (exists i, dict_get hc "intervalSeconds" = Some (VInt i)) /\
  (exists t, dict_get hc "timeoutSeconds" = Some (VInt t)) /\
  (exists p, dict_get hc "protocol" = Some (VStr p)).

(** An application that passes every test of the loop but, possibly, the
    one on its partition. *)
Definition otherwise_valid (pf : platform) (a : app) : Prop :=
  truthy (partition a) = true /\
  (truthy (bindAddr a) = true \/ truthy (iapp a) = true) /\
  (truthy (iapp a) = false -> is_label_data_valid pf a = true) /\
  (forall hc, truthy_dict (healthCheck a) = Some hc ->
              well_formed_healthcheck hc).

Lemma pyval_eq_http (v : pyval) : v = VStr "http" \/ v <> VStr "http".
Proof.
  destruct v as [| z | s]; try (right; discriminate).
  destruct (string_dec s "http") as [-> | H]; [now left |].
  right. intros E. injection E as E. contradiction.
Qed.

Lemma marathon_healthcheck_ok (name : string) (hc : dict pyval) :
  well_formed_healthcheck hc ->
  exists hc', marathon_healthcheck name hc = Ok hc'.
Proof.
  intros [[m Hm] [[i Hi] [[t Ht] [p Hp]]]].
  unfold marathon_healthcheck.
  rewrite dict_get_set. simpl. rewrite Hp. simpl.
  set (hc2 := dict_set (dict_set hc "name" (VStr name)) "protocol" _).
  assert (G : forall k, String.eqb k "protocol" = false ->
                        String.eqb k "name" = false ->
                        dict_get hc2 k = dict_get hc k).
  { intros k E1 E2. unfold hc2. now rewrite !dict_get_set, E1, E2. }
  assert (Gp : dict_get hc2 "protocol" = Some (VStr (lower p))).
  { unfold hc2. now rewrite dict_get_set. }
  rewrite (getitem_Some hc2 "intervalSeconds" (v := VInt i))
    by (rewrite G; auto).
  simpl.
  rewrite (@timeout_of_ints hc2 m i t) by (rewrite G; auto).
  simpl.
  destruct (pyval_eq_http (VStr (lower p))) as [E | E].
  - rewrite E in Gp. rewrite (sendstring_http hc2 Gp). simpl. eauto.
  - rewrite (sendstring_other hc2 Gp E). simpl. eauto.
Qed.

Lemma valid_app_emitted (pf : platform) (partitions : list string) (a : app) :
  has_partition partitions (partition a) = Ok true ->
  otherwise_valid pf a ->
  exists s,
    marathon_service pf partitions a = Ok (Some (frontend_name_of a, s)) /\
    svc_partition s = fmt_s (partition a) /\
    _create_config_marathon pf partitions [a] = Ok [(frontend_name_of a, s)].
Proof.
  intros Hm [_ [Haddr [Hlab Hhc]]].
  assert (Hs : exists s,
             marathon_service pf partitions a
             = Ok (Some (frontend_name_of a, s)) /\
             svc_partition s = fmt_s (partition a)).
  { unfold marathon_service. rewrite Hm. simpl.
    destruct (truthy (iapp a)) eqn:Hi; simpl.
    - rewrite andb_false_r. simpl.
      destruct (truthy_dict (healthCheck a)) as [hc |] eqn:Hh; simpl.
      + destruct (marathon_healthcheck_ok (frontend_name_of a) (Hhc hc eq_refl))
          as [hc' ->].
        simpl. eexists. split; reflexivity.
      + eexists. split; reflexivity.
    - destruct Haddr as [Hb | Hb]; [| discriminate].
      rewrite Hb, (Hlab eq_refl). simpl.
      destruct (truthy_dict (healthCheck a)) as [hc |] eqn:Hh; simpl.
      + destruct (marathon_healthcheck_ok (frontend_name_of a) (Hhc hc eq_refl))
          as [hc' ->].
        simpl. eexists. split; reflexivity.
      + eexists. split; reflexivity. }
  destruct Hs as [s [Hs Hp]]. exists s. split; [exact Hs |].
  split; [exact Hp |].
  unfold _create_config_marathon. simpl. now rewrite Hs.
Qed.

(** C9.  For every application and managed partition list: when the list
    holds neither the application's partition nor ['*'], the builder emits
    no entry for it and raises nothing; when the list holds ['*'] and the
    application is otherwise valid, the builder emits exactly one entry,
    under the application's name and in its partition. *)
Theorem exclusion_policy (pf : platform) (managed : list string) (a : app) :
  (mem "*" managed = false ->
   (forall p, partition a = Some p -> mem p managed = false) ->
   marathon_service pf managed a = Ok None /\
   _create_config_marathon pf managed [a] = Ok []) /\
  (mem "*" managed = true ->
   otherwise_valid pf a ->
   exists s,
     marathon_service pf managed a = Ok (Some (frontend_name_of a, s)) /\
     svc_partition s = fmt_s (partition a) /\
     _create_config_marathon pf managed [a] = Ok [(frontend_name_of a, s)]).
Proof.
  split.
  - intros Hstar Hnot. apply unmanaged_skipped.
    rewrite has_partition_total, Hstar. simpl.
    destruct (partition a) as [p |]; simpl; [| reflexivity].
    rewrite (Hnot p eq_refl). now rewrite andb_false_r.
  - intros Hstar Hv. apply valid_app_emitted; [| exact Hv].
    rewrite has_partition_total, Hstar. simpl.
    destruct Hv as [-> _]. reflexivity.
Qed.

Lemma plain_app_valid (id part : string) :
  truthy (Some part) = true ->
  otherwise_valid test_platform (plain_app id part (VStr "http")).
Proof.
  intros H. split; [exact H |]. split; [now left |].
  split; [reflexivity | discriminate].
Qed.

(** The example of the specification: an application of partition ["dev"]
    yields no entry under [["prod"]] and one entry under [["*"]]. *)
Lemma exclusion_policy_witness :
  _create_config_marathon test_platform ["prod"]
    [plain_app "/app-b" "dev" (VStr "http")] = Ok [] /\
  exists s,
    _create_config_marathon test_platform ["*"]
      [plain_app "/app-b" "dev" (VStr "http")]
    = Ok [("app-b_10.0.0.1_80", s)] /\
    svc_partition s = "dev".
Proof.
  split.
  - apply (exclusion_policy test_platform ["prod"]
             (plain_app "/app-b" "dev" (VStr "http"))).
    + reflexivity.
    + intros p H. injection H as <-. reflexivity.
  - destruct (exclusion_policy test_platform ["*"]
                (plain_app "/app-b" "dev" (VStr "http"))) as [_ H].
    destruct (H eq_refl (plain_app_valid "/app-b" "dev" eq_refl))
      as [s [_ [Hp Hc]]].
    exists s. split; [exact Hc | exact Hp].
Defined.

(** C10.  Whatever the managed list is, the wildcard included, an entity
    whose partition is missing or empty is not managed: [has_partition]
    returns [False], and both builders skip it without an entry. *)
Theorem unpartitioned_never_managed (partitions : list string)
    (o : option string) :
  o = None \/ o = Some "" ->
  has_partition partitions o = Ok false /\
  (forall (pf : platform) (a : app),
     partition a = o ->
     marathon_service pf partitions a = Ok None /\
     _create_config_marathon pf partitions [a] = Ok []) /\
  (forall svc : k8s_service,
     fe_partition (vs_frontend svc) = o ->
     kubernetes_service partitions svc = Ok None /\
     _create_config_kubernetes partitions [svc] = Ok []).
Proof.
  intros Ho.
  assert (H : has_partition partitions o = Ok false).
  { rewrite has_partition_total. now destruct Ho as [-> | ->]. }
  split; [exact H |]. split.
  - intros pf a Ha. apply unmanaged_skipped. now rewrite Ha.
  - intros svc Hsvc.
    assert (Hs : kubernetes_service partitions svc = Ok None).
    { unfold kubernetes_service. now rewrite Hsvc, H. }
    split; [exact Hs |].
    unfold _create_config_kubernetes. simpl. now rewrite Hs.
Qed.

(** An application like [plain_app] whose partition label is empty. *)
Definition unlabelled_app : app :=
  {| appId := "/app-c";
     partition := Some "";
     mode := VStr "http";
     balance := "round-robin";
     bindAddr := Some "10.0.0.1";
     servicePort := 80;
     profile := None;
     iapp := None;
     iappTableName := "";
     iappVariables := [];
     iappOptions := [];
     healthCheck := None;
     backends := [] |}.

Lemma unpartitioned_never_managed_witness :
  has_partition ["*"] (Some "") = Ok false /\
  has_partition ["*"; "prod"] None = Ok false /\
  _create_config_marathon test_platform ["*"] [unlabelled_app] = Ok [].
Proof.
  split; [| split].
  - apply (@unpartitioned_never_managed ["*"] (Some "")). now right.
  - apply (@unpartitioned_never_managed ["*"; "prod"] None). now left.
  - destruct (@unpartitioned_never_managed ["*"] (Some "")) as [_ [H _]];
      [now right |].
    apply (H test_platform unlabelled_app). reflexivity.
Defined.

(* ===================================================================== *)
(** * Properties: the order of the device calls *)
(* ===================================================================== *)

(** The place of a call in the body of [apply_partition]: the number of the
    statement that issues it. *)
Definition rank (e : event) : nat :=
  match e with
  | Read Folders => 0
  | Read (Iapp_list _) => 0
  | Do (Iapp_delete _ _) => 1
  | Do (Iapp_create _ _ _) => 2
  | Do (Iapp_update _ _ _) => 3
  | Read (Pool_list _) => 4
  | Read (Virtual_list _) => 5
  | Read_healthchecks _ => 6
  | Do (Virtual_delete _ _) => 7
  | Do (Pool_delete _ _) => 8
  | Do (Healthcheck_delete _ _ _) => 9
  | Do (Healthcheck_create _ _) => 10
  | Do (Pool_create _ _ _) => 11
  | Do (Virtual_create _ _ _) => 12
  | Do (Healthcheck_update _ _ _) => 13
  | Do (Pool_update _ _ _) => 14
  | Do (Virtual_update _ _ _) => 15
  | Read (Pool_member_list _ _) => 16
  | Do (Member_delete _ _ _) => 16
  | Do (Member_create _ _ _ _) => 16
  | Do (Member_update _ _ _ _) => 16
  | Do (Cleanup_nodes _) => 17
  end%nat.

Definition rank_le (e1 e2 : event) : Prop := (rank e1 <= rank e2)%nat.

(** A program whose calls come in the order of their ranks, all of them
    between [lo] and [hi], whatever the device answers. *)
Definition phase {W A} (lo hi : nat) (m : M W A) : Prop :=
  forall w,
    StronglySorted rank_le (trace (m w)) /\
    Forall (fun e => (lo <= rank e <= hi)%nat) (trace (m w)).

Lemma sorted_app (l1 l2 : list event) :
  StronglySorted rank_le l1 -> StronglySorted rank_le l2 ->
  (forall a b, In a l1 -> In b l2 -> rank_le a b) ->
  StronglySorted rank_le (l1 ++ l2).
Proof.
  induction l1 as [| x l1 IH]; simpl; intros H1 H2 H; [exact H2 |].
  apply StronglySorted_inv in H1. destruct H1 as [H1 Hx].
  constructor.
  - apply IH; auto.
  - apply Forall_app. split; [exact Hx |].
    apply Forall_forall. intros b Hb. apply H; auto.
Qed.

Lemma sorted_split (before after : list event) (e : event) :
  StronglySorted rank_le (before ++ e :: after) ->
  Forall (fun x => rank_le x e) before /\ Forall (fun x => rank_le e x) after.
Proof.
  induction before as [| x before IH]; simpl; intros H;
    apply StronglySorted_inv in H; destruct H as [H Hx].
  - split; [constructor | exact Hx].
  - destruct (IH H) as [Hb Ha]. split; [| exact Ha].
    constructor; [| exact Hb].
    apply Forall_app in Hx. destruct Hx as [_ Hx].
    now apply Forall_inv in Hx.
Qed.

Section Phases.
Variable W : Type.
Variable d : device W.

Lemma phase_ret A (a : A) (k : nat) : phase k k (ret (W := W) a).
Proof. intros w. simpl. split; constructor. Qed.

Lemma phase_lift A (r : result A) (k : nat) : phase k k (lift (W := W) r).
Proof. destruct r; intros w; simpl; split; constructor. Qed.

Lemma phase_ask (q : query) : phase (rank (Read q)) (rank (Read q)) (ask d q).
Proof.
  intros w. unfold ask. destruct (dev_names d q w) as [w' r]. simpl.
  split; repeat constructor.
Qed.

Lemma phase_ask_healthchecks (partition : string) :
  phase 6 6 (ask_healthchecks d partition).
Proof.
  intros w. unfold ask_healthchecks.
  destruct (dev_healthchecks d partition w) as [w' r]. simpl.
  split; repeat constructor.
Qed.

Lemma phase_perform (c : command) :
  phase (rank (Do c)) (rank (Do c)) (perform d c).
Proof.
  intros w. unfold perform. destruct (dev_do d c w) as [w' r]. simpl.
  split; repeat constructor.
Qed.

Lemma phase_weaken A (lo hi lo' hi' : nat) (m : M W A) :
  (lo' <= lo)%nat -> (hi <= hi')%nat -> phase lo hi m -> phase lo' hi' m.
Proof.
  intros Hlo Hhi Hm w. destruct (Hm w) as [S F]. split; [exact S |].
  eapply Forall_impl; [| exact F]. simpl. intros; lia.
Qed.

(** Sequencing: the first program stays at rank [k], the rest starts
    there. *)
Lemma phase_seq A B (k lo hi : nat) (m : M W A) (c : A -> M W B) :
  (lo <= k <= hi)%nat ->
  phase k k m -> (forall a, phase k hi (c a)) -> phase lo hi (bind m c).
Proof.
  intros Hk Hm Hc w. unfold bind.
  destruct (Hm w) as [Sm Fm].
  destruct (outcome (m w)) as [a | e]; simpl.
  - destruct (Hc a (final (m w))) as [Sc Fc]. split.
    + apply sorted_app; auto.
      intros x y Hx Hy.
      rewrite Forall_forall in Fm, Fc.
      specialize (Fm x Hx). specialize (Fc y Hy). unfold rank_le. lia.
    + apply Forall_app. split.
      * eapply Forall_impl; [| exact Fm]. simpl. intros; lia.
      * eapply Forall_impl; [| exact Fc]. simpl. intros; lia.
  - split; [exact Sm |].
    eapply Forall_impl; [| exact Fm]. simpl. intros; lia.
Qed.

Lemma phase_for_each A (k : nat) (l : list A) (body : A -> M W unit) :
  (forall x, phase k k (body x)) -> phase k k (for_each l body).
Proof.
  intros Hb. induction l as [| x l IH]; simpl.
  - apply phase_ret.
  - apply (@phase_seq unit unit k); [lia | apply Hb | intros _; exact IH].
Qed.

(** A loop that reads a configuration entry and issues one call. *)
Lemma phase_for_each_entry A (k : nat) (l : list string) (r : string -> result A)
    (c : string -> A -> command) :
  (forall x a, rank (Do (c x a)) = k) ->
  phase k k (for_each l (fun x => bind (lift (r x))
                                       (fun a => perform d (c x a)))).
Proof.
  intros Hk. apply phase_for_each. intros x.
  apply (@phase_seq _ _ k); [lia | apply phase_lift |].
  intros a. rewrite <- (Hk x a). apply phase_perform.
Qed.

Lemma phase_apply_members (cfg : config) (partition pool : string) :
  phase 16 16 (apply_members d cfg partition pool).
Proof.
  unfold apply_members.
  apply (@phase_seq _ _ 16); [lia | apply (phase_ask (Pool_member_list _ _)) |].
  intros f5_member_list.
  apply (@phase_seq _ _ 16); [lia | apply phase_lift |]. intros s.
  apply (@phase_seq _ _ 16); [lia | |].
  { apply phase_for_each. intros x. apply (phase_perform (Member_delete _ _ _)). }
  intros _.
  apply (@phase_seq _ _ 16); [lia | |].
  { apply (@phase_for_each_entry _ _ _
             (fun member => getitem (svc_nodes s) member)
             (fun member data => Member_create partition pool member data)).
    reflexivity. }
  intros _.
  apply (@phase_for_each_entry _ _ _
           (fun member => getitem (svc_nodes s) member)
           (fun member data => Member_update partition pool member data)).
  reflexivity.
Qed.

(** The calls of one partition's pass come in the order of the statements
    of [_apply_config]. *)
Lemma phase_apply_partition (cfg : config) (partition : string) :
  phase 0 17 (apply_partition d cfg partition).
Proof.
  unfold apply_partition. cbv zeta.
  apply (@phase_seq _ _ 0); [lia | apply (phase_ask (Iapp_list _)) |].
  intros f5_iapp_list.
  apply (@phase_seq _ _ 1); [lia | |].
  { apply phase_for_each. intros x. apply (phase_perform (Iapp_delete _ _)). }
  intros _.
  apply (@phase_seq _ _ 2); [lia | |].
  { apply (@phase_for_each_entry _ _ _ (fun ia => getitem cfg ia)
             (fun ia s => Iapp_create partition ia s)). reflexivity. }
  intros _.
  apply (@phase_seq _ _ 3); [lia | |].
  { apply (@phase_for_each_entry _ _ _ (fun ia => getitem cfg ia)
             (fun ia s => Iapp_update partition ia s)). reflexivity. }
  intros _.
  apply (@phase_seq _ _ 3); [lia | apply phase_lift |].
  intros marathon_healthcheck_list.
  apply (@phase_seq _ _ 4); [lia | apply (phase_ask (Pool_list _)) |].
  intros f5_pool_list.
  apply (@phase_seq _ _ 5); [lia | apply (phase_ask (Virtual_list _)) |].
  intros f5_virtual_list.
  apply (@phase_seq _ _ 6); [lia | apply phase_ask_healthchecks |].
  intros f5_healthcheck_dict.
  apply (@phase_seq _ _ 7); [lia | |].
  { apply phase_for_each. intros x. apply (phase_perform (Virtual_delete _ _)). }
  intros _.
  apply (@phase_seq _ _ 8); [lia | |].
  { apply phase_for_each. intros x. apply (phase_perform (Pool_delete _ _)). }
  intros _.
  apply (@phase_seq _ _ 9); [lia | |].
  { apply (@phase_for_each_entry _ _ _ (fun hc => getitem f5_healthcheck_dict hc)
             (fun hc ty => Healthcheck_delete partition hc ty)). reflexivity. }
  intros _.
  apply (@phase_seq _ _ 10); [lia | |].
  { apply phase_for_each. intros hc.
    apply (@phase_seq _ _ 10); [lia | apply phase_lift |]. intros s.
    apply phase_for_each. intros item.
    apply (phase_perform (Healthcheck_create _ _)). }
  intros _.
  apply (@phase_seq _ _ 11); [lia | |].
  { apply (@phase_for_each_entry _ _ _ (fun pool => getitem cfg pool)
             (fun pool s => Pool_create partition pool s)). reflexivity. }
  intros _.
  apply (@phase_seq _ _ 12); [lia | |].
  { apply (@phase_for_each_entry _ _ _ (fun virt => getitem cfg virt)
             (fun virt s => Virtual_create partition virt s)). reflexivity. }
  intros _.
  apply (@phase_seq _ _ 13); [lia | |].
  { apply phase_for_each. intros hc.
    apply (@phase_seq _ _ 13); [lia | apply phase_lift |]. intros s.
    apply phase_for_each. intros item.
    apply (phase_perform (Healthcheck_update _ _ _)). }
  intros _.
  apply (@phase_seq _ _ 14); [lia | |].
  { apply (@phase_for_each_entry _ _ _ (fun pool => getitem cfg pool)
             (fun pool s => Pool_update partition pool s)). reflexivity. }
  intros _.
  apply (@phase_seq _ _ 15); [lia | |].
  { apply (@phase_for_each_entry _ _ _ (fun virt => getitem cfg virt)
             (fun virt s => Virtual_update partition virt s)). reflexivity. }
  intros _.
  apply (@phase_seq _ _ 16); [lia | |].
  { apply phase_for_each. intros pool. apply phase_apply_members. }
  intros _.
  apply (@phase_weaken _ 17 17); [lia | lia |].
  apply (phase_perform (Cleanup_nodes _)).
Qed.
End Phases.

Definition is_monitor_change (e : event) : bool :=
  match e with
  | Do (Healthcheck_delete _ _ _) | Do (Healthcheck_create _ _) => true
  | _ => false
  end.

Definition is_pool_delete (e : event) : bool :=
  match e with
  | Do (Pool_delete _ _) => true
  | _ => false
  end.

Definition is_pool_create_or_update (e : event) : bool :=
  match e with
  | Do (Pool_create _ _ _) | Do (Pool_update _ _ _) => true
  | _ => false
  end.

Definition is_pool_operation (e : event) : bool :=
  orb (is_pool_delete e) (is_pool_create_or_update e).

(** The order as the specification words it: no pool operation before any
    health-monitor delete or create. *)
Definition monitors_before_pool_operations (t : list event) : Prop :=
  forall before e after,
    t = (before ++ e :: after)%list ->
    is_monitor_change e = true ->
    Forall (fun x => is_pool_operation x = false) before.

(** [plain_app] with Marathon's health check on it. *)
Definition monitored_app : app :=
  {| appId := "/app-a";
     partition := Some "prod";
     mode := VStr "http";
     balance := "round-robin";
     bindAddr := Some "10.0.0.1";
     servicePort := 80;
     profile := None;
     iapp := None;
     iappTableName := "";
     iappVariables := [];
     iappOptions := [];
     healthCheck := Some healthcheck_3_5_10;
     backends := [ {| host := "10.1.0.1"; port := 31001 |};
                   {| host := "10.1.0.2"; port := 31002 |} ] |}.

Definition or_empty (r : result config) : config :=
  match r with
  | Ok c => c
  | Raise _ => []
  end.

Definition monitored_cfg : config :=
  or_empty (_create_config_marathon test_platform ["prod"] [monitored_app]).

(** A BIG-IP that holds one stale virtual server, pool and tcp monitor, no
    iApp and no pool member, and accepts every call. *)
Definition stale_device : device unit :=
  {| dev_names := fun q w =>
       (w, Ok match q with
              | Pool_list _ | Virtual_list _ => ["stale"]
              | _ => []
              end);
     dev_healthchecks := fun _ w => (w, Ok [("stale", "tcp")]);
     dev_do := fun _ w => (w, Ok tt) |}.

Definition stale_trace : list event :=
  trace (apply_partition stale_device monitored_cfg "prod" tt).

(** C2, as stated, fails on [stale_device]: the stale pool is deleted
    before the stale monitor is, and before the new monitor is created. *)
Lemma pool_delete_precedes_monitor_delete :
  ~ monitors_before_pool_operations stale_trace.
Proof.
  intros H.
  assert (E : stale_trace =
              (firstn 6 stale_trace
                 ++ Do (Healthcheck_delete "prod" "stale" "tcp")
                 :: skipn 7 stale_trace)%list) by (vm_compute; reflexivity).
  specialize (H _ _ _ E eq_refl).
  rewrite Forall_forall in H.
  specialize (H (Do (Pool_delete "prod" "stale"))).
  assert (Hin : In (Do (Pool_delete "prod" "stale")) (firstn 6 stale_trace)).
  { vm_compute. do 5 right. left. reflexivity. }
  specialize (H Hin). discriminate H.
Qed.

(** C2, amended.  In the calls of one partition's pass, whatever the device
    answers and wherever the pass stops: no pool create or pool update comes
    before a health-monitor delete or create, and no pool delete comes after
    one. *)
Theorem monitor_changes_between_pool_phases (W : Type) (d : device W)
    (cfg : config) (partition : string) (w : W)
    (before after : list event) (e : event) :
  trace (apply_partition d cfg partition w) = (before ++ e :: after)%list ->
  is_monitor_change e = true ->
  Forall (fun x => is_pool_create_or_update x = false) before /\
  Forall (fun x => is_pool_delete x = false) after.
Proof.
  intros Ht He.
  destruct (phase_apply_partition d cfg partition w) as [Hs _].
  rewrite Ht in Hs. apply sorted_split in Hs. destruct Hs as [Hb Ha].
  assert (Hr : (9 <= rank e <= 10)%nat).
  { destruct e as [q | p | c]; try discriminate He.
    destruct c; try discriminate He; simpl; lia. }
  split.
  - eapply Forall_impl; [| exact Hb]. unfold rank_le. intros x Hx.
    destruct x as [q | p | c]; try reflexivity.
    destruct c; try reflexivity; simpl in Hx; lia.
  - eapply Forall_impl; [| exact Ha]. unfold rank_le. intros x Hx.
    destruct x as [q | p | c]; try reflexivity.
    destruct c; try reflexivity; simpl in Hx; lia.
Qed.

Lemma monitor_changes_between_pool_phases_witness :
  Forall (fun x => is_pool_create_or_update x = false) (firstn 7 stale_trace) /\
  Forall (fun x => is_pool_delete x = false) (skipn 8 stale_trace).
Proof.
  apply (@monitor_changes_between_pool_phases unit stale_device monitored_cfg
           "prod" tt (firstn 7 stale_trace) (skipn 8 stale_trace)
           (nth 7 stale_trace (Read Folders))).
  - vm_compute. reflexivity.
  - vm_compute. reflexivity.
Defined.

(* ===================================================================== *)
(** * Properties: the iApp phase *)
(* ===================================================================== *)

Lemma bind_run {W A B} (m : M W A) (k : A -> M W B) (w : W) :
  match outcome (m w) with
  | Ok a =>
      trace (bind m k w) = (trace (m w) ++ trace (k a (final (m w))))%list /\
      outcome (bind m k w) = outcome (k a (final (m w))) /\
      final (bind m k w) = final (k a (final (m w)))
  | Raise e =>
      trace (bind m k w) = trace (m w) /\
      outcome (bind m k w) = Raise e /\
      final (bind m k w) = final (m w)
  end.
Proof. unfold bind. destruct (outcome (m w)); simpl; auto. Qed.


(** In a loop that returned, every turn returned and its calls are among
    the loop's. *)
Lemma for_each_ok {W A} (l : list A) (body : A -> M W unit) :
  forall w, outcome (for_each l body w) = Ok tt ->
  forall x, In x l ->
  exists w', outcome (body x w') = Ok tt /\
             incl (trace (body x w')) (trace (for_each l body w)).
Proof.
  induction l as [| y l IH]; simpl; intros w H x Hx; [contradiction |].
  pose proof (bind_run (body y) (fun _ => for_each l body) w) as R.
  destruct (outcome (body y w)) as [[] |] eqn:Ey.
  - destruct R as [Rt [Ro _]]. rewrite Ro in H. destruct Hx as [-> | Hx].
    + exists w. split; [exact Ey |]. rewrite Rt. apply incl_appl, incl_refl.
    + destruct (IH _ H x Hx) as [w' [Hw Hi]]. exists w'. split; [exact Hw |].
      rewrite Rt. now apply incl_appr.
  - destruct R as [_ [Ro _]]. rewrite Ro in H. discriminate.
Qed.




Lemma bind_ok {W A B} (m : M W A) (k : A -> M W B) (w : W) (b : B) :
  outcome (bind m k w) = Ok b ->
  exists a, outcome (m w) = Ok a /\
            outcome (k a (final (m w))) = Ok b /\
            trace (bind m k w)
            = (trace (m w) ++ trace (k a (final (m w))))%list.
Proof.
  intros H. pose proof (bind_run m k w) as R.
  destruct (outcome (m w)) as [a | e].
  - destruct R as [Rt [Ro _]]. exists a. rewrite <- Ro. auto.
  - destruct R as [_ [Ro _]]. rewrite Ro in H. discriminate.
Qed.

(** A pass over a partition that returns has listed the pools. *)
Lemma completed_pass_lists_pools (W : Type) (d : device W) (cfg : config)
    (partition : string) (w : W) :
  outcome (apply_partition d cfg partition w) = Ok tt ->
  In (Read (Pool_list partition)) (trace (apply_partition d cfg partition w)).
Proof.
  unfold apply_partition. cbv zeta. intros H.
  repeat match type of H with
         | outcome (bind (ask _ (Pool_list _)) _ _) = Ok _ => fail 1
         | outcome (bind _ _ _) = Ok _ =>
             apply bind_ok in H;
             let a := fresh "a" in
             let E := fresh "E" in
             destruct H as [a [_ [H E]]];
             rewrite E; apply in_or_app; right; clear E
         end.
  apply bind_ok in H. destruct H as [pools [_ [_ E]]]. rewrite E.
  apply in_or_app. left. unfold ask.
  destruct (dev_names d (Pool_list partition) _). simpl. now left.
Qed.

(** An application deployed through an iApp template. *)
Definition iapp_app : app :=
  {| appId := "/app-i";
     partition := Some "prod";
     mode := VStr "http";
     balance := "round-robin";
     bindAddr := None;
     servicePort := 80;
     profile := None;
     iapp := Some "/Common/f5.http";
     iappTableName := "pool__members";
     iappVariables := [("pool__addr", "10.0.0.9"); ("pool__port", "80")];
     iappOptions := [("description", VStr "app-i")];
     healthCheck := None;
     backends := [ {| host := "10.1.0.1"; port := 31001 |};
                   {| host := "10.1.0.2"; port := 31002 |} ] |}.

Definition templated_cfg : config :=
  or_empty (_create_config_marathon test_platform ["prod"] [iapp_app]).

(** A BIG-IP that already runs the iApp of [iapp_app] and nothing else. *)
Definition iapp_device : device unit :=
  {| dev_names := fun q w =>
       (w, Ok match q with
              | Iapp_list _ => ["app-i_iapp_80"]
              | _ => []
              end);
     dev_healthchecks := fun _ w => (w, Ok []);
     dev_do := fun _ w => (w, Ok tt) |}.

(** The same BIG-IP, with [iapp_update] run as the method of the source
    over an SDK that accepts every call; its state is the list of the
    keyword arguments that [update] received. *)
Definition sdk_iapp_device : device (list service_update) :=
  {| dev_names := fun q w =>
       (w, Ok match q with
              | Iapp_list _ => ["app-i_iapp_80"]
              | _ => []
              end);
     dev_healthchecks := fun _ w => (w, Ok []);
     dev_do := fun c w =>
       match c with
       | Iapp_update p n s =>
           iapp_update_call (fun _ _ w0 => (w0, Ok tt))
                            (fun kwargs w0 => ((w0 ++ [kwargs])%list, Ok tt))
                            p n s w
       | _ => (w, Ok tt)
       end |}.


(** On [sdk_iapp_device] the SDK's [update] receives, once, the definition
    with both members of the application. *)
Example iapp_update_sends_members :
  final (apply_partition sdk_iapp_device templated_cfg "prod" [])
  = [ {| executeAction := "definition";
         upd_name := "app-i_iapp_80";
         upd_partition := "prod";
         upd_variables := [("pool__addr", "10.0.0.9"); ("pool__port", "80")];
         upd_tables :=
           [ {| columnNames := ["addr"; "port"; "connection_limit"];
                table_name := "pool__members";
                rows := [ ["10.1.0.1"; "31001"; "0"];
                          ["10.1.0.2"; "31002"; "0"] ] |} ];
         upd_options := [("description", VStr "app-i")] |} ].
Proof. vm_compute. reflexivity. Qed.

(* ===================================================================== *)
(** * Properties: the top level *)
(* ===================================================================== *)

(** The exceptions named by the [except] clauses of
    [regenerate_config_f5]. *)
Definition is_device_error (e : exn) : Prop :=
  e = ConnectionError \/ e = F5SDKError \/ e = BigIPInvalidURL \/
  e = iControlUnexpectedHTTPError.

(** C4.  [regenerate_config_f5] returns [True] exactly when the pass raises
    a connection error, an SDK error, an invalid-URL error or an
    unexpected-HTTP-status error; it returns [False] exactly when the pass
    returns; it raises [e] exactly when the pass raises an [e] that is none
    of the four.  In every case the calls issued and the state of the
    device are those the pass left: nothing is undone. *)
Theorem regenerate_config_f5_outcome (W : Type) (d : device W)
    (pf : platform) (partitions : list string) (state : cloud_state) (w : W) :
  let pass := regenerate_pass d pf partitions state w in
  let r := regenerate_config_f5 d pf partitions state w in
  (outcome r = Ok true <->
   exists e, outcome pass = Raise e /\ is_device_error e) /\
  (outcome r = Ok false <-> outcome pass = Ok tt) /\
  (forall e, outcome r = Raise e <->
             outcome pass = Raise e /\ ~ is_device_error e) /\
  trace r = trace pass /\
  final r = final pass.
Proof.
  cbv zeta. unfold regenerate_config_f5, retry_on_device_error,
    is_device_error. simpl.
  destruct (outcome (regenerate_pass d pf partitions state w)) as [[] | e].
  - repeat split; try discriminate; try reflexivity.
    + intros [e [H _]]. discriminate.
    + intros [H _]. discriminate.
  - split; [| split; [| split; [| split; reflexivity]]].
    + split.
      * intros H. exists e. split; [reflexivity |].
        destruct e; try discriminate; tauto.
      * intros [e' [H He]]. injection H as ->.
        destruct He as [-> | [-> | [-> | ->]]]; reflexivity.
    + split; [| discriminate]. destruct e; discriminate.
    + intros e'. split.
      * intros H.
        destruct e; try discriminate; injection H as <-;
          (split; [reflexivity |]);
          intros [H | [H | [H | H]]]; discriminate.
      * intros [H He]. injection H as ->.
        destruct e'; try reflexivity; exfalso; apply He; tauto.
Qed.

(** A BIG-IP like [stale_device] whose connection drops when the new pool
    is to be created. *)
Definition dropping_device : device unit :=
  {| dev_names := dev_names stale_device;
     dev_healthchecks := dev_healthchecks stale_device;
     dev_do := fun c w =>
       (w, match c with
           | Pool_create _ _ _ => Raise ConnectionError
           | _ => Ok tt
           end) |}.

(** On [dropping_device] the pass asks for a retry, and the deletions and
    the monitor it had issued before the failure stay issued. *)
Example retry_keeps_applied_operations :
  let r := regenerate_config_f5 dropping_device test_platform ["prod"]
             (Marathon_apps [monitored_app]) tt in
  outcome r = Ok true /\
  map rank (trace r) = [0; 4; 5; 6; 7; 8; 9; 10; 11]%nat.
Proof. vm_compute. split; reflexivity. Qed.

(** A health check of a protocol that [get_healthcheck_fields] does not
    know stops the pass with an exception that is not caught. *)
Example other_exceptions_propagate :
  let d := {| dev_names := dev_names stale_device;
              dev_healthchecks := dev_healthchecks stale_device;
              dev_do := fun c w =>
                (w, match c with
                    | Healthcheck_create _ data =>
                        _ <- get_healthcheck_fields data ;; Ok tt
                    | _ => Ok tt
                    end) |} in
  let a := {| appId := "/app-a"; partition := Some "prod";
              mode := VStr "http"; balance := "round-robin";
              bindAddr := Some "10.0.0.1"; servicePort := 80;
              profile := None; iapp := None; iappTableName := "";
              iappVariables := []; iappOptions := [];
              healthCheck :=
                Some [ ("protocol", VStr "COMMAND");
                       ("maxConsecutiveFailures", VInt 3);
                       ("intervalSeconds", VInt 5);
                       ("timeoutSeconds", VInt 10) ];
              backends := [] |} in
  outcome (regenerate_config_f5 d test_platform ["prod"]
             (Marathon_apps [a]) tt)
  = Raise (Exception "Protocol command is not supported.").
Proof. vm_compute. reflexivity. Qed.

(* ===================================================================== *)
(** * Properties: the node sweep *)
(* ===================================================================== *)

(** The node [n] of [partition] is the address of a member of a pool of
    [partition]. *)
Definition referenced (b : bigip) (partition n : string) : Prop :=
  exists p member prt,
    In p (ltm_pools b) /\ pool_partition p = partition /\
    In member (pool_members p) /\ split ":" member = [n; prt].

(** A BIG-IP with a pool [web] in [Common] and another in [prod]; only the
    one of [prod] has a member, whose node is in [prod] too. *)
Definition shadowed_bigip : bigip :=
  {| ltm_pools :=
       [ {| pool_name := "web"; pool_partition := "Common";
            pool_members := [] |};
         {| pool_name := "web"; pool_partition := "prod";
            pool_members := ["10.1.0.1:80"] |} ];
     ltm_nodes :=
       [ {| node_name := "10.1.0.1"; node_partition := "prod";
            node_state := "unchecked"; node_session := "user-enabled" |} ] |}.

(** C3 at [shadowed_bigip].  The sweep of [prod] looks the pool [web] up by
    name alone, finds the one of [Common], sees no member, and deletes the
    node that the pool of [prod] refers to. *)
Theorem cleanup_nodes_deletes_referenced_node :
  referenced shadowed_bigip "prod" "10.1.0.1" /\
  get_pool_list shadowed_bigip "prod" = ["web"] /\
  get_pool_member_list shadowed_bigip "prod" "web" = Ok [] /\
  cleanup_nodes shadowed_bigip "prod"
  = Ok ({| ltm_pools := ltm_pools shadowed_bigip; ltm_nodes := [] |},
        [Node_delete "10.1.0.1"]).
Proof.
  split; [| repeat split].
  exists {| pool_name := "web"; pool_partition := "prod";
            pool_members := ["10.1.0.1:80"] |}, "10.1.0.1:80", "80".
  simpl. repeat split; auto.
Qed.

(** The sweep away from such shadows.  When every pool of the partition is
    the first of its name in the collection, and the node names of the
    partition are distinct, a sweep that returns has deleted exactly the
    nodes that no member refers to and modified exactly the referenced
    nodes that were not up (or unchecked) with an enabled session. *)

Definition node_healthy (node : node_obj) : bool :=
  andb (orb (String.eqb (node_state node) "up")
            (String.eqb (node_state node) "unchecked"))
       (str_in "enabled" (node_session node)).

Definition unhealthy_in (b : bigip) (partition n : string) : Prop :=
  exists node, get_node b partition n = Some node /\ node_healthy node = false.

Definition unshadowed (b : bigip) (partition : string) : Prop :=
  forall p, In p (ltm_pools b) -> pool_partition p = partition ->
            get_pool b partition (pool_name p) = Some p.

(** The node that a member's name refers to. *)
Definition member_node (member : string) : option string :=
  match split ":" member with
  | [name; _] => Some name
  | _ => None
  end.

Definition refs (members : list string) (n : string) : bool :=
  existsb (fun m => match member_node m with
                    | Some x => String.eqb x n
                    | None => false
                    end) members.

Lemma remove_first_In (x y : string) (l : list string) :
  In y (remove_first x l) -> In y l.
Proof.
  induction l as [| z l IH]; simpl; [tauto |].
  destruct (String.eqb x z); simpl; [now right |].
  intros [-> | H]; [now left | right; now apply IH].
Qed.

Lemma remove_first_NoDup (x : string) (l : list string) :
  NoDup l ->
  NoDup (remove_first x l) /\
  (forall y, In y (remove_first x l) <-> In y l /\ y <> x).
Proof.
  induction l as [| z l IH]; simpl; intros H.
  - split; [constructor | intros y; tauto].
  - apply NoDup_cons_iff in H. destruct H as [Hz H].
    destruct (IH H) as [IH1 IH2].
    destruct (String.eqb x z) eqn:E.
    + apply String.eqb_eq in E. subst z. split; [exact H |].
      intros y. split.
      * intros Hy. split; [now right |]. intros ->. contradiction.
      * intros [[-> | Hy] Hne]; [contradiction | exact Hy].
    + apply String.eqb_neq in E. split.
      * constructor; [| exact IH1]. intros Hc. apply remove_first_In in Hc.
        contradiction.
      * intros y. simpl. rewrite IH2. split.
        -- intros [-> | [Hy Hne]]; [split; [now left | congruence] |].
           split; [now right | exact Hne].
        -- intros [[-> | Hy] Hne]; [now left | right; now split].
Qed.

Lemma find_modify_other (partition name n s1 s2 : string)
    (nodes : list node_obj) :
  n <> name ->
  find (is_node partition n) (modify_first partition name s1 s2 nodes)
  = find (is_node partition n) nodes.
Proof.
  intros Hne. induction nodes as [| node nodes IH]; simpl; [reflexivity |].
  destruct (is_node partition name node) eqn:E; simpl.
  - unfold is_node in E |- *. simpl.
    apply andb_true_iff in E. destruct E as [E _].
    apply String.eqb_eq in E. rewrite E.
    assert (F : String.eqb name n = false)
      by (apply String.eqb_neq; congruence).
    now rewrite F.
  - now rewrite IH.
Qed.

Lemma get_node_modify_other (b : bigip) (partition name n s1 s2 : string) :
  n <> name ->
  get_node (node_modify b partition name s1 s2) partition n
  = get_node b partition n.
Proof. intros H. unfold get_node. simpl. now apply find_modify_other. Qed.

(** One member: what [sweep_member] does when it returns. *)
Lemma sweep_member_spec (partition : string) (st st' : sweep)
    (member : string) :
  sweep_member partition st member = Ok st' ->
  exists name,
    member_node member = Some name /\
    ltm_pools (sw_bigip st') = ltm_pools (sw_bigip st) /\
    ((mem name (sw_node_list st) = false /\ st' = st) \/
     (mem name (sw_node_list st) = true /\
      sw_node_list st' = remove_first name (sw_node_list st) /\
      exists node,
        get_node (sw_bigip st) partition name = Some node /\
        ((node_healthy node = true /\
          sw_bigip st' = sw_bigip st /\ sw_log st' = sw_log st) \/
         (node_healthy node = false /\
          sw_bigip st' = node_modify (sw_bigip st) partition name
                                     "user-up" "user-enabled" /\
          sw_log st' = (sw_log st ++ [Node_modify name])%list)))).
Proof.
  unfold sweep_member, member_node. intros H.
  destruct (split ":" member) as [| name [| prt [| x rest]]];
    try discriminate.
  exists name. split; [reflexivity |].
  destruct (mem name (sw_node_list st)) eqn:Em.
  - destruct (get_node (sw_bigip st) partition name) as [node |] eqn:En;
      try discriminate.
    fold (node_healthy node) in H.
    destruct (node_healthy node) eqn:Eh; injection H as <-; simpl.
    + split; [reflexivity |]. right. split; [reflexivity |].
      split; [reflexivity |]. exists node. split; [reflexivity |]. left. auto.
    + split; [reflexivity |]. right. split; [reflexivity |].
      split; [reflexivity |]. exists node. split; [reflexivity |]. right. auto.
  - injection H as <-. split; [reflexivity |]. left. auto.
Qed.

Lemma refs_cons (member name : string) (rest : list string) (n : string) :
  member_node member = Some name ->
  refs (member :: rest) n = orb (String.eqb name n) (refs rest n).
Proof. intros H. simpl. now rewrite H. Qed.

Lemma In_log_snoc (e x : node_event) (log : list node_event) :
  In e (log ++ [x]) <-> In e log \/ e = x.
Proof.
  rewrite in_app_iff. simpl. intuition congruence.
Qed.

(** The members of one list. *)
Lemma sweep_members_spec (partition : string) (members : list string) :
  forall st st',
    NoDup (sw_node_list st) ->
    sweep_members partition st members = Ok st' ->
    ltm_pools (sw_bigip st') = ltm_pools (sw_bigip st) /\
    NoDup (sw_node_list st') /\
    (forall n, In n (sw_node_list st') <->
               In n (sw_node_list st) /\ refs members n = false) /\
    (forall n, In n (sw_node_list st') ->
               get_node (sw_bigip st') partition n
               = get_node (sw_bigip st) partition n) /\
    (forall n, In (Node_modify n) (sw_log st') <->
               In (Node_modify n) (sw_log st) \/
               (In n (sw_node_list st) /\ refs members n = true /\
                unhealthy_in (sw_bigip st) partition n)) /\
    (forall n, In (Node_delete n) (sw_log st') <->
               In (Node_delete n) (sw_log st)).
Proof.
  induction members as [| member rest IH]; simpl sweep_members;
    intros st st' Hnd H.
  - injection H as <-.
    split; [reflexivity |]. split; [exact Hnd |].
    split; [intros n; simpl; intuition congruence |].
    split; [reflexivity |].
    split; intros n; simpl; intuition congruence.
  - destruct (sweep_member partition st member) as [st1 |] eqn:E1;
      simpl in H; try discriminate.
    apply sweep_member_spec in E1.
    destruct E1 as [name [Hname [Hpools Hcase]]].
    assert (Hrefs : forall n, refs (member :: rest) n
                              = orb (String.eqb name n) (refs rest n))
      by (intros n; now apply refs_cons).
    destruct Hcase as [[Hm ->] | [Hm [Hlist [node [Hnode Hh]]]]].
    + (* the node is not, or no longer, in the list *)
      destruct (IH _ _ Hnd H) as [I1 [I2 [I3 [I4 [I5 I6]]]]].
      assert (Hne : forall n, In n (sw_node_list st) ->
                              String.eqb name n = false).
      { intros n Hn. apply String.eqb_neq. intros ->.
        apply mem_In in Hn. congruence. }
      split; [exact I1 |]. split; [exact I2 |].
      split; [| split; [exact I4 | split; [| exact I6]]].
      * intros n. rewrite I3, Hrefs. split.
        -- intros [Hn Hr]. split; [exact Hn |]. now rewrite (Hne n Hn).
        -- intros [Hn Hr]. split; [exact Hn |].
           now rewrite (Hne n Hn) in Hr.
      * intros n. rewrite I5, Hrefs. split.
        -- intros [Hl | [Hn [Hr Hu]]]; [now left | right].
           split; [exact Hn |]. split; [| exact Hu]. now rewrite (Hne n Hn).
        -- intros [Hl | [Hn [Hr Hu]]]; [now left | right].
           split; [exact Hn |]. split; [| exact Hu].
           now rewrite (Hne n Hn) in Hr.
    + (* the node is in the list: it leaves it *)
      destruct (remove_first_NoDup name Hnd) as [Hnd1 Hin1].
      rewrite <- Hlist in Hnd1, Hin1.
      destruct (IH _ _ Hnd1 H) as [I1 [I2 [I3 [I4 [I5 I6]]]]].
      assert (Hother : forall n, n <> name ->
                get_node (sw_bigip st1) partition n
                = get_node (sw_bigip st) partition n).
      { intros n Hn. destruct Hh as [[_ [-> _]] | [_ [-> _]]];
          [reflexivity | now apply get_node_modify_other]. }
      assert (Hnew : forall n, In n (sw_node_list st1) ->
                               String.eqb name n = false).
      { intros n Hn. apply Hin1 in Hn. apply String.eqb_neq.
        intros ->. now apply (proj2 Hn). }
      split; [congruence |]. split; [exact I2 |].
      split; [| split; [| split]].
      * intros n. rewrite I3, Hin1, Hrefs. split.
        -- intros [[Hn Hne] Hr]. split; [exact Hn |].
           apply String.eqb_neq in Hne. rewrite String.eqb_sym in Hne.
           now rewrite Hne.
        -- intros [Hn Hr]. apply orb_false_iff in Hr. destruct Hr as [Hr1 Hr2].
           apply String.eqb_neq in Hr1. repeat split; auto.
      * intros n Hn. rewrite (I4 n Hn). apply Hother.
        apply I3 in Hn. destruct Hn as [Hn _]. apply Hin1 in Hn. tauto.
      * intros n. rewrite I5, Hrefs. split.
        -- intros [Hl | [Hn [Hr Hu]]].
           ++ destruct Hh as [[_ [_ Hlog]] | [Hbad [_ Hlog]]];
                rewrite Hlog in Hl; [now left |].
              apply In_log_snoc in Hl. destruct Hl as [Hl | Hl]; [now left |].
              injection Hl as ->. right.
              split; [now apply mem_In |].
              split; [now rewrite String.eqb_refl |].
              exists node. now split.
           ++ right. pose proof (Hnew n Hn) as Hne.
              apply Hin1 in Hn. destruct Hn as [Hn Hneq].
              split; [exact Hn |]. split; [now rewrite Hne |].
              destruct Hu as [nd [Hnd' Hb]]. exists nd.
              split; [| exact Hb]. now rewrite <- (Hother n Hneq).
        -- intros [Hl | [Hn [Hr Hu]]].
           ++ left. destruct Hh as [[_ [_ Hlog]] | [_ [_ Hlog]]];
                rewrite Hlog; [exact Hl |].
              apply In_log_snoc. now left.
           ++ destruct (String.eqb name n) eqn:En.
              ** apply String.eqb_eq in En. subst n. left.
                 destruct Hu as [nd [Hnd' Hb]].
                 rewrite Hnode in Hnd'. injection Hnd' as <-.
                 destruct Hh as [[Hgood _] | [_ [_ Hlog]]]; [congruence |].
                 rewrite Hlog. apply In_log_snoc. now right.
              ** right. simpl in Hr.
                 assert (Hneq : n <> name)
                   by (apply String.eqb_neq in En; congruence).
                 split; [apply Hin1; now split |]. split; [exact Hr |].
                 destruct Hu as [nd [Hnd' Hb]]. exists nd.
                 split; [| exact Hb]. now rewrite (Hother n Hneq).
      * intros n. rewrite I6.
        destruct Hh as [[_ [_ Hlog]] | [_ [_ Hlog]]]; rewrite Hlog;
          [tauto |].
        rewrite In_log_snoc. split; [| tauto].
        intros [Hl | Hl]; [exact Hl | discriminate].
Qed.

Lemma sweep_members_app (partition : string) (l1 l2 : list string) :
  forall st,
    sweep_members partition st (l1 ++ l2)
    = (st' <- sweep_members partition st l1 ;;
       sweep_members partition st' l2)%result.
Proof.
  induction l1 as [| m l1 IH]; simpl; intros st; [reflexivity |].
  destruct (sweep_member partition st m) as [st1 |]; simpl; auto.
Qed.

Lemma sweep_members_pools (partition : string) (members : list string) :
  forall st st',
    sweep_members partition st members = Ok st' ->
    ltm_pools (sw_bigip st') = ltm_pools (sw_bigip st).
Proof.
  induction members as [| m members IH]; simpl; intros st st' H.
  - now injection H as <-.
  - destruct (sweep_member partition st m) as [st1 |] eqn:E; simpl in H;
      try discriminate.
    apply sweep_member_spec in E. destruct E as [_ [_ [E _]]].
    rewrite (IH _ _ H). exact E.
Qed.

(** With unshadowed pools, the loop over the pools is the loop over all
    their members. *)
Lemma sweep_pools_as_members (partition : string) (pools : list pool_obj) :
  forall st,
    (forall p, In p pools ->
               find (fun q => String.eqb (pool_name q) (pool_name p))
                    (ltm_pools (sw_bigip st)) = Some p) ->
    sweep_pools partition st (map pool_name pools)
    = sweep_members partition st (flat_map pool_members pools).
Proof.
  induction pools as [| p pools IH]; simpl; intros st Hp; [reflexivity |].
  unfold get_pool_member_list, get_pool.
  rewrite (Hp p (or_introl eq_refl)). simpl.
  rewrite sweep_members_app.
  destruct (sweep_members partition st (pool_members p)) as [st1 |] eqn:E;
    simpl; [| reflexivity].
  apply IH. intros q Hq.
  rewrite (sweep_members_pools _ _ _ E). apply Hp. now right.
Qed.

Lemma sweep_delete_log (partition : string) (node_list : list string) :
  forall b log b' log',
    sweep_delete partition b log node_list = Ok (b', log') ->
    log' = (log ++ map Node_delete node_list)%list.
Proof.
  induction node_list as [| n node_list IH]; simpl; intros b log b' log' H.
  - injection H as _ <-. now rewrite app_nil_r.
  - destruct (node_delete b n partition) as [b1 |]; simpl in H;
      try discriminate.
    rewrite (IH _ _ _ _ H), <- app_assoc. reflexivity.
Qed.

Lemma refs_referenced (b : bigip) (partition n : string) :
  refs (flat_map pool_members
          (filter (fun pool => String.eqb (pool_partition pool) partition)
                  (ltm_pools b))) n = true
  <-> referenced b partition n.
Proof.
  unfold refs, referenced. rewrite existsb_exists. split.
  - intros [m [Hm Hn]]. apply in_flat_map in Hm.
    destruct Hm as [p [Hp Hm]]. apply filter_In in Hp.
    destruct Hp as [Hp Hpart]. apply String.eqb_eq in Hpart.
    unfold member_node in Hn.
    destruct (split ":" m) as [| name [| prt [| x rest]]] eqn:E;
      try discriminate.
    apply String.eqb_eq in Hn. subst name.
    exists p, m, prt. auto.
  - intros [p [m [prt [Hp [Hpart [Hm Hs]]]]]]. exists m. split.
    + apply in_flat_map. exists p. split; [| exact Hm].
      apply filter_In. split; [exact Hp |]. now apply String.eqb_eq.
    + unfold member_node. rewrite Hs. apply String.eqb_refl.
Qed.

(** The sweep on a BIG-IP without shadowed pools: for every node of the
    partition, it is deleted exactly when no member of a pool of the
    partition refers to it, and it is modified exactly when a member refers
    to it and it was not up (or unchecked) with an enabled session. *)
Lemma cleanup_nodes_unshadowed (b b' : bigip) (partition : string)
    (log : list node_event) :
  NoDup (get_node_list b partition) ->
  unshadowed b partition ->
  cleanup_nodes b partition = Ok (b', log) ->
  forall n, In n (get_node_list b partition) ->
    (In (Node_delete n) log <-> ~ referenced b partition n) /\
    (In (Node_modify n) log <->
     referenced b partition n /\ unhealthy_in b partition n).
Proof.
  intros Hnd Hun H n Hn. unfold cleanup_nodes in H.
  unfold get_pool_list in H.
  rewrite sweep_pools_as_members in H.
  2:{ simpl. intros p Hp. apply filter_In in Hp. destruct Hp as [Hp Hpart].
      apply String.eqb_eq in Hpart. exact (Hun p Hp Hpart). }
  destruct (sweep_members partition _ _) as [st |] eqn:E; simpl in H;
    try discriminate.
  apply sweep_members_spec in E; [| exact Hnd]. simpl in E.
  destruct E as [_ [_ [I3 [_ [I5 I6]]]]].
  apply sweep_delete_log in H. subst log.
  pose proof (refs_referenced b partition n) as R.
  split.
  - rewrite in_app_iff, I6. simpl. rewrite in_map_iff. split.
    + intros [[] | [x [Hx Hin]]]. injection Hx as ->.
      apply I3 in Hin. destruct Hin as [_ Hr]. rewrite <- R. congruence.
    + intros Hnr. right. exists n. split; [reflexivity |].
      apply I3. split; [exact Hn |].
      destruct (refs _ n); [| reflexivity]. exfalso. now apply Hnr, R.
  - rewrite in_app_iff, I5. simpl. rewrite <- R. split.
    + intros [[[] | [_ H]] | Hd]; [exact H |].
      apply in_map_iff in Hd. destruct Hd as [x [Hx _]]. discriminate.
    + intros H. left. right. split; [exact Hn | exact H].
Qed.

(** A BIG-IP of one partition with a healthy node in use, a disabled node
    in use and a node that nothing refers to. *)
Definition three_node_bigip : bigip :=
  {| ltm_pools :=
       [ {| pool_name := "web"; pool_partition := "prod";
            pool_members := ["10.1.0.1:80"; "10.1.0.2:80"] |};
         {| pool_name := "api"; pool_partition := "prod";
            pool_members := ["10.1.0.1:8080"] |} ];
     ltm_nodes :=
       [ {| node_name := "10.1.0.1"; node_partition := "prod";
            node_state := "up"; node_session := "monitor-enabled" |};
         {| node_name := "10.1.0.2"; node_partition := "prod";
            node_state := "user-down"; node_session := "user-disabled" |};
         {| node_name := "10.1.0.3"; node_partition := "prod";
            node_state := "unchecked"; node_session := "user-enabled" |} ] |}.

Example cleanup_three_nodes :
  cleanup_nodes three_node_bigip "prod"
  = Ok ({| ltm_pools := ltm_pools three_node_bigip;
           ltm_nodes :=
             [ {| node_name := "10.1.0.1"; node_partition := "prod";
                  node_state := "up"; node_session := "monitor-enabled" |};
               {| node_name := "10.1.0.2"; node_partition := "prod";
                  node_state := "user-up"; node_session := "user-enabled" |} ] |},
        [Node_modify "10.1.0.2"; Node_delete "10.1.0.3"]).
Proof. reflexivity. Qed.

(* ===================================================================== *)
(** * Further properties: what a pass may issue *)
(* ===================================================================== *)

(** Every call that the program issues satisfies [P], whatever the device
    answers and wherever the program stops. *)
Definition emits {W A} (P : event -> Prop) (m : M W A) : Prop :=
  forall w, Forall P (trace (m w)).

Section Emits.
Variable W : Type.
Variable d : device W.
Variable P : event -> Prop.

Lemma emits_ret A (a : A) : emits P (ret (W := W) a).
Proof. intros w. constructor. Qed.

Lemma emits_lift A (r : result A) : emits P (lift (W := W) r).
Proof. destruct r; intros w; constructor. Qed.

Lemma emits_ask (q : query) : P (Read q) -> emits P (ask d q).
Proof.
  intros H w. unfold ask. destruct (dev_names d q w). simpl. now repeat constructor.
Qed.

Lemma emits_ask_healthchecks (partition : string) :
  P (Read_healthchecks partition) -> emits P (ask_healthchecks d partition).
Proof.
  intros H w. unfold ask_healthchecks.
  destruct (dev_healthchecks d partition w). simpl. now repeat constructor.
Qed.

Lemma emits_perform (c : command) : P (Do c) -> emits P (perform d c).
Proof.
  intros H w. unfold perform. destruct (dev_do d c w). simpl.
  now repeat constructor.
Qed.

Lemma emits_bind A B (m : M W A) (k : A -> M W B) :
  emits P m -> (forall a, emits P (k a)) -> emits P (bind m k).
Proof.
  intros Hm Hk w. pose proof (bind_run m k w) as R.
  destruct (outcome (m w)) as [a | e].
  - destruct R as [-> _]. apply Forall_app. split; [apply Hm | apply Hk].
  - destruct R as [-> _]. apply Hm.
Qed.

Lemma emits_bind_lift A B (r : result A) (k : A -> M W B) :
  (forall a, r = Ok a -> emits P (k a)) -> emits P (bind (lift r) k).
Proof.
  intros Hk. destruct r as [a | e].
  - intros w. unfold bind. simpl. now apply Hk.
  - intros w. unfold bind. simpl. constructor.
Qed.

Lemma emits_for_each A (l : list A) (body : A -> M W unit) :
  (forall x, In x l -> emits P (body x)) -> emits P (for_each l body).
Proof.
  induction l as [| x l IH]; simpl; intros H.
  - apply emits_ret.
  - apply emits_bind; [apply H; now left |].
    intros _. apply IH. intros y Hy. apply H. now right.
Qed.

Lemma emits_for_each_entry A (l : list string) (r : string -> result A)
    (c : string -> A -> command) :
  (forall x a, In x l -> r x = Ok a -> P (Do (c x a))) ->
  emits P (for_each l (fun x => bind (lift (r x))
                                     (fun a => perform d (c x a)))).
Proof.
  intros H. apply emits_for_each. intros x Hx.
  apply emits_bind_lift. intros a Ha. apply emits_perform. now apply (H x a).
Qed.
End Emits.

Lemma dict_get_In_keys {V} (c : dict V) (k : string) (v : V) :
  dict_get c k = Some v -> In k (keys c).
Proof.
  induction c as [| [k0 v0] c IH]; simpl; [discriminate |].
  destruct (String.eqb k k0) eqn:E.
  - apply String.eqb_eq in E. now left.
  - intros H. right. now apply IH.
Qed.

Lemma getitem_Ok {V} (c : dict V) (k : string) (v : V) :
  getitem c k = Ok v <-> dict_get c k = Some v.
Proof.
  unfold getitem. destruct (dict_get c k); split; intros H;
    try discriminate; congruence.
Qed.

(** The desired names of a partition are the keys of its entries of the
    given kind. *)
Lemma names_of_spec (cfg : config) (partition : string) (with_iapp : bool)
    (n : string) :
  In n (names_of cfg partition with_iapp) <->
  exists s, dict_get cfg n = Some s /\ svc_partition s = partition /\
            (match svc_iapp s with Some _ => true | None => false end)
            = with_iapp.
Proof.
  unfold names_of. rewrite filter_In. split.
  - intros [_ H]. destruct (dict_get cfg n) as [s |]; [| discriminate].
    apply andb_true_iff in H. destruct H as [H1 H2].
    apply String.eqb_eq in H1. apply Bool.eqb_prop in H2. now exists s.
  - intros [s [Hs [Hp Hi]]]. split; [now apply dict_get_In_keys with s |].
    rewrite Hs, Hp, Hi, String.eqb_refl. simpl. now destruct with_iapp.
Qed.

Lemma not_owned_by_spec (iapps l : list string) (x : string) :
  In x (not_owned_by iapps l) <->
  In x l /\ forall ia, In ia iapps -> startswith x ia = false.
Proof.
  unfold not_owned_by. revert l.
  induction iapps as [| ia iapps IH]; simpl; intros l.
  - split; [intros H; split; [exact H | intros ia []] | tauto].
  - rewrite IH, filter_In, negb_true_iff. split.
    + intros [[Hx Hs] H]. split; [exact Hx |].
      intros ia' [<- | Hi]; auto.
    + intros [Hx H]. split; [split; [exact Hx |] |]; auto.
Qed.

Lemma list_of_set_In (l : list string) (x : string) :
  In x (list_of_set l) <-> In x l.
Proof.
  induction l as [| y l IH]; simpl; [tauto |].
  rewrite filter_In, IH, negb_true_iff. split.
  - intros [-> | [H _]]; auto.
  - intros [-> | H]; [now left |].
    destruct (String.eqb y x) eqn:E.
    + apply String.eqb_eq in E. now left.
    + right. now split.
Qed.

(** The virtual [n] has a health check that names its protocol. *)
Definition monitored (cfg : config) (n : string) : Prop :=
  exists s hc, dict_get cfg n = Some s /\ In hc (svc_health s) /\
               dict_has hc "protocol" = true.

Lemma healthcheck_names_spec (cfg : config) (virtuals : list string) :
  forall l, healthcheck_names cfg virtuals = Ok l ->
  forall n, In n l <-> In n virtuals /\ monitored cfg n.
Proof.
  induction virtuals as [| v virtuals IH]; simpl; intros l H n.
  - injection H as <-. simpl. tauto.
  - unfold getitem in H.
    destruct (dict_get cfg v) as [s |] eqn:Es; simpl in H; try discriminate.
    destruct (healthcheck_names cfg virtuals) as [more |]; simpl in H;
      try discriminate.
    injection H as <-. rewrite in_app_iff, in_map_iff, (IH more eq_refl n).
    split.
    + intros [[hc [<- Hhc]] | [Hn Hm]].
      * apply filter_In in Hhc. destruct Hhc as [Hin Hp].
        split; [now left |]. now exists s, hc.
      * split; [now right | exact Hm].
    + intros [[<- | Hn] Hm].
      * left. destruct Hm as [s' [hc [Hs' [Hin Hp]]]].
        rewrite Es in Hs'. injection Hs' as <-.
        exists hc. split; [reflexivity |]. apply filter_In. now split.
      * right. now split.
Qed.

(** [n] is spared by the deletions of virtual servers, pools and monitors:
    it does not start with the name of a desired iApp of the partition. *)
Definition not_iapp_owned (cfg : config) (partition n : string) : Prop :=
  forall ia, In ia (names_of cfg partition true) -> startswith n ia = false.

(** What a call of the pass over [partition] can be, given the desired
    configuration alone. *)
Definition issued_for (cfg : config) (partition : string) (e : event) : Prop :=
  match e with
  | Read Folders => False
  | Read (Iapp_list p) | Read (Pool_list p) | Read (Virtual_list p)
  | Read_healthchecks p | Do (Cleanup_nodes p) => p = partition
  | Read (Pool_member_list p pool) =>
      p = partition /\ In pool (names_of cfg partition false)
  | Do (Iapp_delete p n) =>
      p = partition /\ ~ In n (names_of cfg partition true)
  | Do (Iapp_create p n s) | Do (Iapp_update p n s) =>
      p = partition /\ In n (names_of cfg partition true) /\
      dict_get cfg n = Some s
  | Do (Virtual_delete p n) | Do (Pool_delete p n) =>
      p = partition /\ ~ In n (names_of cfg partition false) /\
      not_iapp_owned cfg partition n
  | Do (Healthcheck_delete p n _) =>
      p = partition /\
      ~ (In n (names_of cfg partition false) /\ monitored cfg n) /\
      not_iapp_owned cfg partition n
  | Do (Healthcheck_create p item) =>
      p = partition /\
      exists n s, In n (names_of cfg partition false) /\ monitored cfg n /\
                  dict_get cfg n = Some s /\ In item (svc_health s)
  | Do (Healthcheck_update p n item) =>
      p = partition /\ In n (names_of cfg partition false) /\
      exists s, dict_get cfg n = Some s /\ In item (svc_health s)
  | Do (Pool_create p n s) | Do (Pool_update p n s)
  | Do (Virtual_create p n s) | Do (Virtual_update p n s) =>
      p = partition /\ In n (names_of cfg partition false) /\
      dict_get cfg n = Some s
  | Do (Member_delete p pool m) =>
      p = partition /\ In pool (names_of cfg partition false) /\
      exists s, dict_get cfg pool = Some s /\ ~ In m (keys (svc_nodes s))
  | Do (Member_create p pool m data) | Do (Member_update p pool m data) =>
      p = partition /\ In pool (names_of cfg partition false) /\
      exists s, dict_get cfg pool = Some s /\
                dict_get (svc_nodes s) m = Some data
  end.

Lemma issued_for_members (W : Type) (d : device W) (cfg : config)
    (partition pool : string) :
  In pool (names_of cfg partition false) ->
  emits (issued_for cfg partition) (apply_members d cfg partition pool).
Proof.
  intros Hpool. unfold apply_members.
  apply emits_bind; [apply emits_ask; now split |]. intros f5_member_list.
  apply emits_bind_lift. intros s Hs. apply getitem_Ok in Hs.
  apply emits_bind.
  { apply emits_for_each. intros m Hm. apply emits_perform. simpl.
    split; [reflexivity |]. split; [exact Hpool |]. exists s.
    split; [exact Hs |]. apply In_list_diff in Hm. tauto. }
  intros _. apply emits_bind.
  { apply emits_for_each_entry. intros m data Hm Hd. simpl.
    split; [reflexivity |]. split; [exact Hpool |]. exists s.
    split; [exact Hs | now apply getitem_Ok]. }
  intros _.
  apply emits_for_each_entry. intros m data Hm Hd. simpl.
  split; [reflexivity |]. split; [exact Hpool |]. exists s.
  split; [exact Hs | now apply getitem_Ok].
Qed.

(** Every call of the pass over a partition is one that the desired
    configuration accounts for. *)
Lemma issued_for_partition (W : Type) (d : device W) (cfg : config)
    (partition : string) :
  emits (issued_for cfg partition) (apply_partition d cfg partition).
Proof.
  unfold apply_partition. cbv zeta.
  apply emits_bind; [now apply emits_ask |]. intros f5_iapp_list.
  apply emits_bind.
  { apply emits_for_each. intros ia Hia. apply emits_perform. simpl.
    apply In_list_diff in Hia. tauto. }
  intros _. apply emits_bind.
  { apply emits_for_each_entry. intros ia s Hia Hs. simpl.
    apply In_list_diff in Hia. apply getitem_Ok in Hs. tauto. }
  intros _. apply emits_bind.
  { apply emits_for_each_entry. intros ia s Hia Hs. simpl.
    apply In_list_intersect in Hia. apply getitem_Ok in Hs. tauto. }
  intros _. apply emits_bind_lift. intros marathon_healthcheck_list Hhc.
  pose proof (healthcheck_names_spec _ _ Hhc) as Hmon.
  apply emits_bind; [now apply emits_ask |]. intros f5_pool_list.
  apply emits_bind; [now apply emits_ask |]. intros f5_virtual_list.
  apply emits_bind; [now apply emits_ask_healthchecks |].
  intros f5_healthcheck_dict.
  apply emits_bind.
  { apply emits_for_each. intros v Hv. apply emits_perform. simpl.
    apply In_list_diff in Hv. destruct Hv as [Hv Hn].
    apply not_owned_by_spec in Hv. unfold not_iapp_owned. tauto. }
  intros _. apply emits_bind.
  { apply emits_for_each. intros v Hv. apply emits_perform. simpl.
    apply In_list_diff in Hv. destruct Hv as [Hv Hn].
    apply not_owned_by_spec in Hv. unfold not_iapp_owned. tauto. }
  intros _. apply emits_bind.
  { apply emits_for_each_entry. intros hc ty Hin _. simpl.
    apply In_list_diff in Hin. destruct Hin as [Hv Hn].
    apply not_owned_by_spec in Hv. rewrite Hmon in Hn.
    unfold not_iapp_owned. tauto. }
  intros _. apply emits_bind.
  { apply emits_for_each. intros hc Hin.
    apply In_list_diff in Hin. destruct Hin as [Hin _].
    apply Hmon in Hin. destruct Hin as [Hn Hm].
    apply emits_bind_lift. intros s Hs. apply getitem_Ok in Hs.
    apply emits_for_each. intros item Hitem. apply emits_perform. simpl.
    split; [reflexivity |]. now exists hc, s. }
  intros _. apply emits_bind.
  { apply emits_for_each_entry. intros n s Hn Hs. simpl.
    apply In_list_diff in Hn. apply getitem_Ok in Hs. tauto. }
  intros _. apply emits_bind.
  { apply emits_for_each_entry. intros n s Hn Hs. simpl.
    apply In_list_diff in Hn. apply getitem_Ok in Hs. tauto. }
  intros _. apply emits_bind.
  { apply emits_for_each. intros hc Hin.
    apply In_list_intersect in Hin. destruct Hin as [Hin _].
    apply emits_bind_lift. intros s Hs. apply getitem_Ok in Hs.
    apply emits_for_each. intros item Hitem. apply emits_perform. simpl.
    split; [reflexivity |]. split; [exact Hin |]. now exists s. }
  intros _. apply emits_bind.
  { apply emits_for_each_entry. intros n s Hn Hs. simpl.
    apply In_list_intersect in Hn. apply getitem_Ok in Hs. tauto. }
  intros _. apply emits_bind.
  { apply emits_for_each_entry. intros n s Hn Hs. simpl.
    apply In_list_intersect in Hn. apply getitem_Ok in Hs. tauto. }
  intros _. apply emits_bind.
  { apply emits_for_each. intros pool Hpool. apply issued_for_members.
    apply list_of_set_In, in_app_or in Hpool.
    destruct Hpool as [H | H];
      [apply In_list_diff in H | apply In_list_intersect in H]; tauto. }
  intros _. now apply emits_perform.
Qed.

(** The partition that a call names; the listing of the folders names
    none. *)
Definition event_partition (e : event) : option string :=
  match e with
  | Read Folders => None
  | Read (Iapp_list p) | Read (Pool_list p) | Read (Virtual_list p)
  | Read (Pool_member_list p _) | Read_healthchecks p => Some p
  | Do (Iapp_delete p _) | Do (Iapp_create p _ _) | Do (Iapp_update p _ _)
  | Do (Virtual_delete p _) | Do (Pool_delete p _)
  | Do (Healthcheck_delete p _ _) | Do (Healthcheck_create p _)
  | Do (Pool_create p _ _) | Do (Virtual_create p _ _)
  | Do (Healthcheck_update p _ _) | Do (Pool_update p _ _)
  | Do (Virtual_update p _ _) | Do (Member_delete p _ _)
  | Do (Member_create p _ _ _) | Do (Member_update p _ _ _)
  | Do (Cleanup_nodes p) => Some p
  end.

Lemma issued_for_event_partition (cfg : config) (partition : string)
    (e : event) :
  issued_for cfg partition e -> event_partition e = Some partition.
Proof.
  destruct e as [q | p | c]; [destruct q | | destruct c]; simpl;
    try tauto; intros H; f_equal; tauto.
Qed.

Lemma issued_for_In (W : Type) (d : device W) (cfg : config)
    (partition : string) (w : W) (e : event) :
  In e (trace (apply_partition d cfg partition w)) ->
  issued_for cfg partition e.
Proof.
  intros H. pose proof (issued_for_partition d cfg partition w) as F.
  rewrite Forall_forall in F. now apply F.
Qed.

Lemma desired_name (cfg : config) (partition n : string) (s : service) :
  dict_get cfg n = Some s -> svc_partition s = partition ->
  In n (names_of cfg partition
          (match svc_iapp s with Some _ => true | None => false end)).
Proof. intros Hs Hp. apply names_of_spec. now exists s. Qed.

(** X2.  What the pass never deletes.  For an individually managed service
    that the configuration holds for the partition, the pass issues no
    delete of the pool or of the virtual server that bears the service's
    name, and no delete of the monitor of that name when one of the
    service's health checks names a protocol; for a templated service it
    issues no delete of the iApp of that name.  (A monitor that a service
    holds under another name, as the second monitor of a Kubernetes
    service, is not covered: the pass knows monitors by the names of the
    services only.) *)
Theorem named_resources_never_deleted (W : Type) (d : device W)
    (cfg : config) (partition : string) (w : W) (n : string) (s : service) :
  dict_get cfg n = Some s ->
  svc_partition s = partition ->
  let t := trace (apply_partition d cfg partition w) in
  (svc_iapp s = None ->
   ~ In (Do (Pool_delete partition n)) t /\
   ~ In (Do (Virtual_delete partition n)) t /\
   ((exists hc, In hc (svc_health s) /\ dict_has hc "protocol" = true) ->
    forall ty, ~ In (Do (Healthcheck_delete partition n ty)) t)) /\
  (svc_iapp s <> None -> ~ In (Do (Iapp_delete partition n)) t).
Proof.
  intros Hs Hp t. pose proof (desired_name cfg n Hs Hp) as Hn. split.
  - intros Hi. rewrite Hi in Hn. split; [| split].
    + intros H. apply issued_for_In in H. simpl in H. tauto.
    + intros H. apply issued_for_In in H. simpl in H. tauto.
    + intros [hc [Hhc Hproto]] ty H. apply issued_for_In in H. simpl in H.
      destruct H as [_ [H _]]. apply H. split; [exact Hn |].
      now exists s, hc.
  - intros Hi H. apply issued_for_In in H. simpl in H.
    destruct (svc_iapp s); [tauto | congruence].
Qed.

Lemma named_resources_never_deleted_witness :
  ~ In (Do (Pool_delete "prod" "app-a_10.0.0.1_80")) stale_trace /\
  ~ In (Do (Virtual_delete "prod" "app-a_10.0.0.1_80")) stale_trace /\
  (forall ty,
     ~ In (Do (Healthcheck_delete "prod" "app-a_10.0.0.1_80" ty)) stale_trace).
Proof.
  destruct (dict_get monitored_cfg "app-a_10.0.0.1_80") as [s |] eqn:E;
    [| discriminate E].
  assert (Hp : svc_partition s = "prod")
    by (vm_compute in E; injection E as <-; reflexivity).
  assert (Hi : svc_iapp s = None)
    by (vm_compute in E; injection E as <-; reflexivity).
  destruct (@named_resources_never_deleted unit stale_device monitored_cfg
              "prod" tt "app-a_10.0.0.1_80" s E Hp) as [H _].
  destruct (H Hi) as [H1 [H2 H3]].
  split; [exact H1 |]. split; [exact H2 |]. apply H3.
  vm_compute in E. injection E as <-. eexists. split; [left; reflexivity |].
  reflexivity.
Defined.

(** X3.  Resources of a managed iApp are left to the iApp: a virtual
    server, pool or monitor whose name starts with the name of an iApp that
    the configuration holds for the partition is never deleted by the
    pass, even though no individually managed service has that name. *)
Theorem iapp_owned_resources_never_deleted (W : Type) (d : device W)
    (cfg : config) (partition : string) (w : W) (ia n : string)
    (s : service) :
  dict_get cfg ia = Some s ->
  svc_partition s = partition ->
  svc_iapp s <> None ->
  startswith n ia = true ->
  let t := trace (apply_partition d cfg partition w) in
  ~ In (Do (Pool_delete partition n)) t /\
  ~ In (Do (Virtual_delete partition n)) t /\
  forall ty, ~ In (Do (Healthcheck_delete partition n ty)) t.
Proof.
  intros Hs Hp Hi Hn t.
  assert (Hia : In ia (names_of cfg partition true)).
  { pose proof (desired_name cfg ia Hs Hp) as H.
    destruct (svc_iapp s); [exact H | congruence]. }
  assert (Hno : ~ not_iapp_owned cfg partition n).
  { intros H. specialize (H ia Hia). congruence. }
  split; [| split]; [| | intros ty]; intros H; apply issued_for_In in H;
    simpl in H; tauto.
Qed.

(** A BIG-IP on which the iApp of [iapp_app] runs and has deployed a
    virtual server, a pool and a monitor of its own. *)
Definition deployed_iapp_device : device unit :=
  {| dev_names := fun q w =>
       (w, Ok match q with
              | Iapp_list _ => ["app-i_iapp_80"]
              | Pool_list _ => ["app-i_iapp_80_pool"; "stale"]
              | Virtual_list _ => ["app-i_iapp_80_vs"]
              | _ => []
              end);
     dev_healthchecks := fun _ w => (w, Ok [("app-i_iapp_80_monitor", "http")]);
     dev_do := fun _ w => (w, Ok tt) |}.

Lemma iapp_owned_resources_never_deleted_witness :
  let t := trace (apply_partition deployed_iapp_device templated_cfg
                    "prod" tt) in
  ~ In (Do (Pool_delete "prod" "app-i_iapp_80_pool")) t /\
  ~ In (Do (Virtual_delete "prod" "app-i_iapp_80_pool")) t /\
  forall ty, ~ In (Do (Healthcheck_delete "prod" "app-i_iapp_80_pool" ty)) t.
Proof.
  destruct (dict_get templated_cfg "app-i_iapp_80") as [s |] eqn:E;
    [| discriminate E].
  apply (@iapp_owned_resources_never_deleted unit deployed_iapp_device
           templated_cfg "prod" tt "app-i_iapp_80" "app-i_iapp_80_pool" s E).
  - vm_compute in E. injection E as <-. reflexivity.
  - vm_compute in E. injection E as <-. discriminate.
  - reflexivity.
Defined.

(** On [deployed_iapp_device] the stale pool goes and the iApp's stays. *)
Example deployed_iapp_pass :
  filter (fun e => match e with Do (Pool_delete _ _) => true | _ => false end)
         (trace (apply_partition deployed_iapp_device templated_cfg "prod" tt))
  = [Do (Pool_delete "prod" "stale")].
Proof. vm_compute. reflexivity. Qed.

(** X4.  Every create or update of a pool or a virtual server is issued
    under the name of an individually managed service that the configuration
    holds for the partition and carries that service's entry; every create
    or update of an iApp likewise, for a templated service. *)
Theorem creates_and_updates_carry_entries (W : Type) (d : device W)
    (cfg : config) (partition : string) (w : W) (p n : string) (s : service) :
  let t := trace (apply_partition d cfg partition w) in
  (In (Do (Pool_create p n s)) t \/ In (Do (Pool_update p n s)) t \/
   In (Do (Virtual_create p n s)) t \/ In (Do (Virtual_update p n s)) t ->
   p = partition /\ dict_get cfg n = Some s /\
   svc_partition s = partition /\ svc_iapp s = None) /\
  (In (Do (Iapp_create p n s)) t \/ In (Do (Iapp_update p n s)) t ->
   p = partition /\ dict_get cfg n = Some s /\
   svc_partition s = partition /\ svc_iapp s <> None).
Proof.
  intros t. split.
  - intros H.
    assert (H' : p = partition /\ In n (names_of cfg partition false) /\
                 dict_get cfg n = Some s).
    { destruct H as [H | [H | [H | H]]]; apply issued_for_In in H;
        exact H. }
    destruct H' as [Hp [Hn Hs]]. apply names_of_spec in Hn.
    destruct Hn as [s' [Hs' [Hpart Hi]]]. rewrite Hs in Hs'.
    injection Hs' as <-. repeat split; auto.
    destruct (svc_iapp s); [discriminate | reflexivity].
  - intros H.
    assert (H' : p = partition /\ In n (names_of cfg partition true) /\
                 dict_get cfg n = Some s).
    { destruct H as [H | H]; apply issued_for_In in H; exact H. }
    destruct H' as [Hp [Hn Hs]]. apply names_of_spec in Hn.
    destruct Hn as [s' [Hs' [Hpart Hi]]]. rewrite Hs in Hs'.
    injection Hs' as <-. repeat split; auto.
    destruct (svc_iapp s); [discriminate | discriminate].
Qed.

Lemma creates_and_updates_carry_entries_witness :
  exists s,
    In (Do (Pool_create "prod" "app-a_10.0.0.1_80" s)) stale_trace /\
    dict_get monitored_cfg "app-a_10.0.0.1_80" = Some s /\
    svc_partition s = "prod" /\ svc_iapp s = None.
Proof.
  destruct (dict_get monitored_cfg "app-a_10.0.0.1_80") as [s |] eqn:E;
    [| discriminate E].
  exists s.
  assert (Hin : In (Do (Pool_create "prod" "app-a_10.0.0.1_80" s))
                   stale_trace).
  { vm_compute in E. injection E as <-. vm_compute. do 8 right. left.
    reflexivity. }
  split; [exact Hin |].
  destruct (@creates_and_updates_carry_entries unit stale_device
              monitored_cfg "prod" tt "prod" "app-a_10.0.0.1_80" s)
    as [H _].
  destruct (H (or_introl Hin)) as [_ [H1 [H2 H3]]].
  split; [reflexivity |]. split; [exact H2 | exact H3].
Defined.

(** X5.  Pool members are handled only for individually managed services of
    the partition: a member is created or updated exactly with the state
    that the service's node list holds under its name, and a member that the
    node list holds is never deleted. *)
Theorem member_operations_follow_nodes (W : Type) (d : device W)
    (cfg : config) (partition : string) (w : W) (p pool m : string) :
  let t := trace (apply_partition d cfg partition w) in
  (forall data,
     In (Do (Member_create p pool m data)) t \/
     In (Do (Member_update p pool m data)) t ->
     exists s, p = partition /\ dict_get cfg pool = Some s /\
               svc_partition s = partition /\ svc_iapp s = None /\
               dict_get (svc_nodes s) m = Some data) /\
  (In (Do (Member_delete p pool m)) t ->
   exists s, p = partition /\ dict_get cfg pool = Some s /\
             svc_partition s = partition /\ svc_iapp s = None /\
             dict_get (svc_nodes s) m = None).
Proof.
  intros t.
  assert (G : forall s, In pool (names_of cfg partition false) ->
                        dict_get cfg pool = Some s ->
                        svc_partition s = partition /\ svc_iapp s = None).
  { intros s Hn Hs. apply names_of_spec in Hn.
    destruct Hn as [s' [Hs' [Hpart Hi]]]. rewrite Hs in Hs'.
    injection Hs' as <-. split; [exact Hpart |].
    destruct (svc_iapp s); [discriminate | reflexivity]. }
  split.
  - intros data H.
    assert (H' : p = partition /\ In pool (names_of cfg partition false) /\
                 exists s, dict_get cfg pool = Some s /\
                           dict_get (svc_nodes s) m = Some data).
    { destruct H as [H | H]; apply issued_for_In in H; exact H. }
    destruct H' as [Hp [Hn [s [Hs Hd]]]]. exists s.
    destruct (G s Hn Hs). auto.
  - intros H. apply issued_for_In in H. simpl in H.
    destruct H as [Hp [Hn [s [Hs Hd]]]]. exists s.
    destruct (G s Hn Hs). repeat split; auto.
    destruct (dict_get (svc_nodes s) m) eqn:E; [| reflexivity].
    exfalso. apply Hd. now apply dict_get_In_keys with m0.
Qed.

Lemma member_operations_follow_nodes_witness :
  exists s,
    dict_get monitored_cfg "app-a_10.0.0.1_80" = Some s /\
    dict_get (svc_nodes s) "10.1.0.1:31001" = Some member_up.
Proof.
  destruct (@member_operations_follow_nodes unit stale_device monitored_cfg
              "prod" tt "prod" "app-a_10.0.0.1_80" "10.1.0.1:31001")
    as [H _].
  destruct (H member_up) as [s [_ [Hs [_ [_ Hd]]]]].
  - left. vm_compute. do 11 right. left. reflexivity.
  - exists s. split; [exact Hs | exact Hd].
Defined.

(** The stage of a call in the pass: iApps, listing of the device, deletes,
    creates, updates, members, node sweep. *)
Definition stage (e : event) : nat :=
  match e with
  | Read Folders | Read (Iapp_list _)
  | Do (Iapp_delete _ _) | Do (Iapp_create _ _ _) | Do (Iapp_update _ _ _) => 0
  | Read (Pool_list _) | Read (Virtual_list _) | Read_healthchecks _ => 1
  | Do (Virtual_delete _ _) | Do (Pool_delete _ _)
  | Do (Healthcheck_delete _ _ _) => 2
  | Do (Healthcheck_create _ _) | Do (Pool_create _ _ _)
  | Do (Virtual_create _ _ _) => 3
  | Do (Healthcheck_update _ _ _) | Do (Pool_update _ _ _)
  | Do (Virtual_update _ _ _) => 4
  | Read (Pool_member_list _ _) | Do (Member_delete _ _ _)
  | Do (Member_create _ _ _ _) | Do (Member_update _ _ _ _) => 5
  | Do (Cleanup_nodes _) => 6
  end%nat.

Lemma stage_monotone (e1 e2 : event) :
  rank_le e1 e2 -> (stage e1 <= stage e2)%nat.
Proof.
  unfold rank_le.
  destruct e1 as [[] | | []]; destruct e2 as [[] | | []]; simpl; lia.
Qed.

(** X6.  The pass over a partition runs in stages: the iApp operations,
    then the listing of pools, virtual servers and monitors, then all
    deletes, then all creates, then all updates, then the pool members, and
    the node sweep last.  No call of an earlier stage follows a call of a
    later one, whatever the device answers. *)
Theorem pass_runs_in_stages (W : Type) (d : device W) (cfg : config)
    (partition : string) (w : W) (before after : list event) (e : event) :
  trace (apply_partition d cfg partition w) = (before ++ e :: after)%list ->
  Forall (fun x => (stage x <= stage e)%nat) before /\
  Forall (fun x => (stage e <= stage x)%nat) after.
Proof.
  intros Ht. destruct (phase_apply_partition d cfg partition w) as [Hs _].
  rewrite Ht in Hs. apply sorted_split in Hs. destruct Hs as [Hb Ha].
  split; (eapply Forall_impl; [| eassumption]); intros x;
    apply stage_monotone.
Qed.

Lemma pass_runs_in_stages_witness :
  Forall (fun x => (stage x <= 3)%nat) (firstn 8 stale_trace) /\
  Forall (fun x => (3 <= stage x)%nat) (skipn 9 stale_trace).
Proof.
  apply (@pass_runs_in_stages unit stale_device monitored_cfg "prod" tt
           (firstn 8 stale_trace) (skipn 9 stale_trace)
           (nth 8 stale_trace (Read Folders))).
  vm_compute. reflexivity.
Defined.

Lemma emits_impl (W A : Type) (P Q : event -> Prop) (m : M W A) :
  (forall e, P e -> Q e) -> emits P m -> emits Q m.
Proof. intros H Hm w. eapply Forall_impl; [exact H | apply Hm]. Qed.

(** X7.  Which partitions a pass touches.  Without the wildcard the folders
    of the device are not listed and every call is given a configured
    partition.  With ['*'] among the configured partitions, every call but
    the listing of the folders is given a partition that is one of the
    folders the device listed at the start of the pass, and is neither
    [Common] nor [/] nor ends in [.app]. *)
Theorem pass_touches_managed_partitions (W : Type) (d : device W)
    (cfg : config) (partitions : list string) (w : W) (e : event) :
  In e (trace (_apply_config d cfg partitions w)) ->
  (mem "*" partitions = false ->
   exists p, event_partition e = Some p /\ In p partitions) /\
  (mem "*" partitions = true ->
   e = Read Folders \/
   exists p folders w',
     event_partition e = Some p /\
     dev_names d Folders w = (w', Ok folders) /\
     In p folders /\
     p <> "Common" /\ p <> "/" /\ endswith p ".app" = false).
Proof.
  intros He.
  assert (L : forall l, emits (fun x => exists p, event_partition x = Some p
                                                  /\ In p l)
                              (for_each l (apply_partition d cfg))).
  { intros l. apply emits_for_each. intros p Hp.
    eapply emits_impl; [| apply issued_for_partition].
    intros x Hx. exists p. split; [| exact Hp].
    now apply issued_for_event_partition with cfg. }
  unfold _apply_config, get_partitions in He.
  destruct (mem "*" partitions) eqn:Es; split; try discriminate; intros _.
  - unfold bind, ask in He.
    destruct (dev_names d Folders w) as [w1 [folders |]] eqn:Ed;
      simpl in He.
    + destruct He as [<- | He]; [now left |]. right.
      pose proof (L (filter
                       (fun name =>
                          andb (andb (negb (String.eqb name "Common"))
                                     (negb (String.eqb name "/")))
                               (negb (endswith name ".app")))
                       folders) w1) as F.
      rewrite Forall_forall in F. destruct (F e He) as [p [Hx Hp]].
      apply filter_In in Hp. destruct Hp as [Hin Hp].
      apply andb_true_iff in Hp. destruct Hp as [Hp H3].
      apply andb_true_iff in Hp. destruct Hp as [H1 H2].
      apply negb_true_iff in H1, H2, H3.
      apply String.eqb_neq in H1, H2.
      exists p, folders, w1. auto 10.
    + destruct He as [<- | []]. now left.
  - assert (F : emits (fun x => exists p, event_partition x = Some p /\
                                          In p partitions)
                  (bind (ret partitions)
                        (fun ps => for_each ps (apply_partition d cfg)))).
    { apply emits_bind_lift with (r := Ok partitions).
      intros a Ha. injection Ha as <-. apply L. }
    specialize (F w). rewrite Forall_forall in F. now apply F.
Qed.

(** A BIG-IP with the folders of a usual installation, which accepts every
    call and holds nothing. *)
Definition folders_device : device unit :=
  {| dev_names := fun q w =>
       (w, Ok match q with
              | Folders => ["/"; "Common"; "prod"; "app-i_iapp_80.app"; "dev"]
              | _ => []
              end);
     dev_healthchecks := fun _ w => (w, Ok []);
     dev_do := fun _ w => (w, Ok tt) |}.

Lemma pass_touches_managed_partitions_witness :
  (exists p folders w',
     event_partition (Do (Cleanup_nodes "dev")) = Some p /\
     dev_names folders_device Folders tt = (w', Ok folders) /\
     In p folders /\
     p <> "Common" /\ p <> "/" /\ endswith p ".app" = false) /\
  (exists p, event_partition (Do (Cleanup_nodes "prod")) = Some p /\
             In p ["prod"]).
Proof.
  split.
  - destruct (@pass_touches_managed_partitions unit folders_device
                monitored_cfg ["*"] tt (Do (Cleanup_nodes "dev"))) as [_ H].
    + vm_compute. do 16 right. left. reflexivity.
    + destruct (H eq_refl) as [H0 | H0]; [discriminate H0 | exact H0].
  - destruct (@pass_touches_managed_partitions unit folders_device
                monitored_cfg ["prod"] tt (Do (Cleanup_nodes "prod")))
      as [H _].
    + vm_compute. do 10 right. left. reflexivity.
    + exact (H eq_refl).
Defined.

(* ===================================================================== *)
(** * Further properties: a device that has converged *)
(* ===================================================================== *)

Definition is_create_or_delete (e : event) : bool :=
  match e with
  | Do (Iapp_delete _ _) | Do (Iapp_create _ _ _)
  | Do (Virtual_delete _ _) | Do (Pool_delete _ _)
  | Do (Healthcheck_delete _ _ _) | Do (Healthcheck_create _ _)
  | Do (Pool_create _ _ _) | Do (Virtual_create _ _ _)
  | Do (Member_delete _ _ _) | Do (Member_create _ _ _ _) => true
  | _ => false
  end.

Definition same_names (l1 l2 : list string) : Prop :=
  forall x, In x l1 <-> In x l2.

(** [x] is the name of a resource that a desired iApp of the partition
    owns: it starts with the name of the iApp. *)
Definition iapp_owned (cfg : config) (partition x : string) : Prop :=
  exists ia, In ia (names_of cfg partition true) /\ startswith x ia = true.

(** [x] is the name of a monitor that the configuration desires for the
    partition: the ['name'] of a health check of one of its individually
    managed services. *)
Definition desired_monitor (cfg : config) (partition x : string) : Prop :=
  exists n s item,
    In n (names_of cfg partition false) /\ dict_get cfg n = Some s /\
    In item (svc_health s) /\ dict_get item "name" = Some (VStr x).

(** [l] holds every desired name and, besides those, only names that a
    desired iApp owns. *)
Definition lists_desired (cfg : config) (partition : string)
    (desired : string -> Prop) (l : list string) : Prop :=
  forall x, (desired x -> In x l) /\
            (In x l -> desired x \/ iapp_owned cfg partition x).

(** The device holds, for [partition], what the configuration desires: it
    lists the desired iApps; it lists every desired pool, virtual server
    and monitor, and besides those only resources of the iApps; and each
    desired pool has the members of its node list. *)
Record converged (W : Type) (d : device W) (cfg : config)
    (partition : string) : Prop := {
  conv_iapps : forall w w' l,
    dev_names d (Iapp_list partition) w = (w', Ok l) ->
    same_names l (names_of cfg partition true);
  conv_pools : forall w w' l,
    dev_names d (Pool_list partition) w = (w', Ok l) ->
    lists_desired cfg partition
      (fun x => In x (names_of cfg partition false)) l;
  conv_virtuals : forall w w' l,
    dev_names d (Virtual_list partition) w = (w', Ok l) ->
    lists_desired cfg partition
      (fun x => In x (names_of cfg partition false)) l;
  conv_monitors : forall w w' hd,
    dev_healthchecks d partition w = (w', Ok hd) ->
    lists_desired cfg partition (desired_monitor cfg partition) (keys hd);
  conv_members : forall pool s w w' l,
    dict_get cfg pool = Some s ->
    dev_names d (Pool_member_list partition pool) w = (w', Ok l) ->
    same_names l (keys (svc_nodes s)) }.

(** The configurations whose resources the pass can tell by the names of
    the services: every health check of an individually managed service of
    the partition bears the name of its service and names a protocol, and
    no individually managed service bears a name that starts with the name
    of a templated one. *)
Record named_after_services (cfg : config) (partition : string) : Prop := {
  nas_monitors : forall n s item,
    In n (names_of cfg partition false) -> dict_get cfg n = Some s ->
    In item (svc_health s) ->
    dict_get item "name" = Some (VStr n) /\ dict_has item "protocol" = true;
  nas_distinct : forall n,
    In n (names_of cfg partition false) -> not_iapp_owned cfg partition n }.

Lemma lists_desired_names (cfg : config) (partition : string)
    (l : list string) :
  named_after_services cfg partition ->
  lists_desired cfg partition
    (fun x => In x (names_of cfg partition false)) l ->
  same_names (not_owned_by (names_of cfg partition true) l)
             (names_of cfg partition false).
Proof.
  intros N H x. rewrite not_owned_by_spec. split.
  - intros [Hin Hno]. destruct (proj2 (H x) Hin) as [Hd | [ia [Hia Hs]]];
      [exact Hd |].
    rewrite (Hno ia Hia) in Hs. discriminate Hs.
  - intros Hd. split; [now apply H |]. now apply (@nas_distinct _ _ N).
Qed.

Lemma desired_monitor_spec (cfg : config) (partition x : string) :
  named_after_services cfg partition ->
  desired_monitor cfg partition x <->
  In x (names_of cfg partition false) /\ monitored cfg x.
Proof.
  intros N. split.
  - intros [n [s [item [Hn [Hs [Hitem Hname]]]]]].
    destruct (@nas_monitors _ _ N n s item Hn Hs Hitem) as [Hname' Hproto].
    rewrite Hname in Hname'. injection Hname' as ->.
    split; [exact Hn |]. now exists s, item.
  - intros [Hn [s [item [Hs [Hitem Hproto]]]]].
    exists x, s, item. split; [exact Hn |]. split; [exact Hs |].
    split; [exact Hitem |]. now apply (@nas_monitors _ _ N x s item Hn Hs Hitem).
Qed.

Lemma lists_desired_monitors (cfg : config) (partition : string)
    (l : list string) :
  named_after_services cfg partition ->
  lists_desired cfg partition (desired_monitor cfg partition) l ->
  forall x, In x (not_owned_by (names_of cfg partition true) l) <->
            In x (names_of cfg partition false) /\ monitored cfg x.
Proof.
  intros N H x. rewrite not_owned_by_spec, <- (desired_monitor_spec x N).
  split.
  - intros [Hin Hno]. destruct (proj2 (H x) Hin) as [Hd | [ia [Hia Hs]]];
      [exact Hd |].
    rewrite (Hno ia Hia) in Hs. discriminate Hs.
  - intros Hd. split; [now apply H |].
    apply (desired_monitor_spec x N) in Hd. destruct Hd as [Hn _].
    now apply (@nas_distinct _ _ N).
Qed.

Lemma list_diff_nil (l1 l2 : list string) :
  (forall x, In x l1 -> In x l2) -> list_diff l1 l2 = [].
Proof.
  intros H. unfold list_diff. induction l1 as [| x l1 IH]; simpl;
    [reflexivity |].
  assert (Hx : mem x l2 = true) by (apply mem_In, H; now left).
  rewrite Hx. simpl. apply IH. intros y Hy. apply H. now right.
Qed.

Lemma emits_bind_ask (W : Type) (d : device W) (P : event -> Prop) (B : Type)
    (q : query) (k : list string -> M W B) :
  P (Read q) ->
  (forall l, (exists w w', dev_names d q w = (w', Ok l)) -> emits P (k l)) ->
  emits P (bind (ask d q) k).
Proof.
  intros Hq Hk w. unfold bind, ask.
  destruct (dev_names d q w) as [w' [l |]] eqn:E; simpl.
  - constructor; [exact Hq |]. apply Hk. now exists w, w'.
  - now repeat constructor.
Qed.

Lemma emits_bind_ask_healthchecks (W : Type) (d : device W)
    (P : event -> Prop) (B : Type) (partition : string)
    (k : dict string -> M W B) :
  P (Read_healthchecks partition) ->
  (forall hd, (exists w w', dev_healthchecks d partition w = (w', Ok hd)) ->
              emits P (k hd)) ->
  emits P (bind (ask_healthchecks d partition) k).
Proof.
  intros Hq Hk w. unfold bind, ask_healthchecks.
  destruct (dev_healthchecks d partition w) as [w' [hd |]] eqn:E; simpl.
  - constructor; [exact Hq |]. apply Hk. now exists w, w'.
  - now repeat constructor.
Qed.

(** X8.  A pass over a device that has converged.  Let the configuration be
    one whose resources are named after its services: every health check of
    an individually managed service of the partition bears the service's
    name and names a protocol, and no such service is named like a resource
    of a desired iApp (its name starts with the name of none).  Then on a
    device that holds what the configuration desires for the partition, and
    besides that only resources of the desired iApps, the pass issues no
    create and no delete at all, for iApps, virtual servers, pools,
    monitors and pool members alike: only listings, updates and the node
    sweep. *)
Theorem converged_pass_creates_and_deletes_nothing (W : Type) (d : device W)
    (cfg : config) (partition : string) (w : W) :
  named_after_services cfg partition ->
  converged d cfg partition ->
  Forall (fun e => is_create_or_delete e = false)
         (trace (apply_partition d cfg partition w)).
Proof.
  intros N C. revert w. change (emits (fun e => is_create_or_delete e = false)
                                  (apply_partition d cfg partition)).
  set (Q := fun e => is_create_or_delete e = false).
  assert (Skip : forall A (l : list A) (body : A -> M W unit) B
                        (k : unit -> M W B),
             l = [] -> emits Q (k tt) -> emits Q (bind (for_each l body) k)).
  { intros A l body B k -> Hk w. unfold bind. simpl. apply Hk. }
  unfold apply_partition. cbv zeta.
  apply emits_bind_ask; [reflexivity |]. intros l0 [w0 [w0' H0]].
  pose proof (conv_iapps C _ H0) as S0.
  apply Skip; [apply list_diff_nil; intros x; apply S0 |].
  apply Skip; [apply list_diff_nil; intros x; apply S0 |].
  apply emits_bind.
  { apply emits_for_each_entry. reflexivity. }
  intros _. apply emits_bind_lift. intros hcl Hhcl.
  pose proof (healthcheck_names_spec _ _ Hhcl) as Hmon.
  apply emits_bind_ask; [reflexivity |]. intros l1 [w1 [w1' H1]].
  pose proof (lists_desired_names N (conv_pools C _ H1)) as S1.
  apply emits_bind_ask; [reflexivity |]. intros l2 [w2 [w2' H2]].
  pose proof (lists_desired_names N (conv_virtuals C _ H2)) as S2.
  apply emits_bind_ask_healthchecks; [reflexivity |].
  intros hd [w3 [w3' H3]].
  pose proof (lists_desired_monitors N (conv_monitors C _ H3)) as S3.
  apply Skip; [apply list_diff_nil; intros x; apply S2 |].
  apply Skip; [apply list_diff_nil; intros x; apply S1 |].
  apply Skip.
  { apply list_diff_nil. intros x Hx.
    exact (proj2 (Hmon x) (proj1 (S3 x) Hx)). }
  apply Skip.
  { apply list_diff_nil. intros x Hx.
    exact (proj2 (S3 x) (proj1 (Hmon x) Hx)). }
  apply Skip; [apply list_diff_nil; intros x; apply S1 |].
  apply Skip; [apply list_diff_nil; intros x; apply S2 |].
  apply emits_bind.
  { apply emits_for_each. intros hc _. apply emits_bind_lift. intros s _.
    apply emits_for_each. intros item _. now apply emits_perform. }
  intros _. apply emits_bind.
  { apply emits_for_each_entry. reflexivity. }
  intros _. apply emits_bind.
  { apply emits_for_each_entry. reflexivity. }
  intros _. apply emits_bind; [| intros _; now apply emits_perform].
  apply emits_for_each. intros pool _. unfold apply_members.
  apply emits_bind_ask; [reflexivity |]. intros l4 [w4 [w4' H4]].
  apply emits_bind_lift. intros s Hs. apply getitem_Ok in Hs.
  pose proof (@conv_members _ _ _ _ C pool s w4 w4' l4 Hs H4) as S4.
  apply Skip; [apply list_diff_nil; intros x; apply S4 |].
  apply Skip; [apply list_diff_nil; intros x; apply S4 |].
  apply emits_for_each_entry. reflexivity.
Qed.

(** A BIG-IP that holds exactly what [monitored_cfg] desires. *)
Definition converged_device : device unit :=
  {| dev_names := fun q w =>
       (w, Ok match q with
              | Pool_list _ | Virtual_list _ => ["app-a_10.0.0.1_80"]
              | Pool_member_list _ _ => ["10.1.0.2:31002"; "10.1.0.1:31001"]
              | _ => []
              end);
     dev_healthchecks := fun _ w => (w, Ok [("app-a_10.0.0.1_80", "http")]);
     dev_do := fun _ w => (w, Ok tt) |}.

Lemma monitored_cfg_named : named_after_services monitored_cfg "prod".
Proof.
  constructor.
  - intros n s item Hn Hs Hitem. vm_compute in Hn. destruct Hn as [<- | []].
    vm_compute in Hs. injection Hs as <-. simpl in Hitem.
    destruct Hitem as [<- | []]. split; reflexivity.
  - intros n Hn ia Hia. vm_compute in Hia. destruct Hia.
Qed.

Lemma converged_device_converged :
  converged converged_device monitored_cfg "prod".
Proof.
  constructor.
  - intros w w' l H. injection H as _ <-. intros x. vm_compute. tauto.
  - intros w w' l H. injection H as _ <-. intros x. vm_compute. tauto.
  - intros w w' l H. injection H as _ <-. intros x. vm_compute. tauto.
  - intros w w' hd H. injection H as _ <-. intros x. split.
    + intros Hd. apply (desired_monitor_spec x monitored_cfg_named) in Hd.
      destruct Hd as [Hn _]. exact Hn.
    + intros [<- | []]. left.
      apply (desired_monitor_spec "app-a_10.0.0.1_80" monitored_cfg_named).
      split; [vm_compute; now left |].
      destruct (dict_get monitored_cfg "app-a_10.0.0.1_80") as [s |] eqn:E;
        [| discriminate E].
      exists s. vm_compute in E. injection E as <-.
      eexists. split; [reflexivity |].
      split; [left; reflexivity | reflexivity].
  - intros pool s w w' l Hs H. injection H as _ <-.
    change (dict_get monitored_cfg pool) with
      (if String.eqb pool "app-a_10.0.0.1_80"
       then dict_get monitored_cfg "app-a_10.0.0.1_80" else None) in Hs.
    destruct (String.eqb pool "app-a_10.0.0.1_80"); [| discriminate].
    vm_compute in Hs. injection Hs as <-. intros x. simpl. tauto.
Qed.

Lemma converged_pass_creates_and_deletes_nothing_witness :
  Forall (fun e => is_create_or_delete e = false)
         (trace (apply_partition converged_device monitored_cfg "prod" tt)).
Proof.
  apply (@converged_pass_creates_and_deletes_nothing unit converged_device
           monitored_cfg "prod" tt).
  - exact monitored_cfg_named.
  - exact converged_device_converged.
Defined.

(** On [converged_device] the pass only lists, updates and sweeps. *)
Example converged_pass :
  map rank (trace (apply_partition converged_device monitored_cfg "prod" tt))
  = [0; 4; 5; 6; 13; 14; 15; 16; 16; 16; 17]%nat.
Proof. vm_compute. reflexivity. Qed.

(* ===================================================================== *)
(** * Further properties: the desired model of the Marathon builder *)
(* ===================================================================== *)

(** The entry that the loop builds for [a], its health list given. *)
Definition service_with (pf : platform) (a : app) (health : list (dict pyval))
    : service :=
  {| svc_virtual := Some
       {| v_enabled := true;
          v_disabled := false;
          v_ipProtocol := get_protocol (mode a);
          v_destination :=
            "/" ++ fmt_s (partition a) ++ "/" ++ fmt_s (bindAddr a) ++ ":"
                ++ str_of_Z (servicePort a);
          v_pool := "/" ++ fmt_s (partition a) ++ "/" ++ frontend_name_of a;
          v_sourceAddressTranslation := "automap";
          v_profiles := marathon_profiles a |};
     svc_pool := Some
       {| p_monitor :=
            match truthy_dict (healthCheck a) with
            | Some _ =>
                Some ("/" ++ fmt_s (partition a) ++ "/" ++ frontend_name_of a)
            | None => None
            end;
          p_loadBalancingMode := balance a |};
     svc_nodes := marathon_nodes pf a;
     svc_health := health;
     svc_partition := fmt_s (partition a);
     svc_name := frontend_name_of a;
     svc_iapp :=
       if truthy (iapp a) then
         Some {| template := fmt_s (iapp a);
                 tableName := iappTableName a;
                 variables := iappVariables a;
                 options := iappOptions a |}
       else None;
     svc_virtual_address := bindAddr a |}.

(** What it takes for the loop to emit an entry, and what the entry is. *)
Lemma marathon_service_inv (pf : platform) (partitions : list string)
    (a : app) (n : string) (s : service) :
  marathon_service pf partitions a = Ok (Some (n, s)) ->
  has_partition partitions (partition a) = Ok true /\
  truthy (partition a) = true /\
  orb (truthy (bindAddr a)) (truthy (iapp a)) = true /\
  (truthy (iapp a) = false -> is_label_data_valid pf a = true) /\
  n = frontend_name_of a /\
  exists health,
    match truthy_dict (healthCheck a) with
    | Some hc => exists hc', marathon_healthcheck n hc = Ok hc' /\
                             health = [hc']
    | None => health = []
    end /\
    s = service_with pf a health.
Proof.
  unfold marathon_service. rewrite has_partition_total. simpl.
  destruct (truthy (partition a)) eqn:Ep; simpl; [| discriminate].
  destruct (orb (mem "*" partitions) _) eqn:Em; simpl; [| discriminate].
  destruct (truthy (bindAddr a)) eqn:Eb, (truthy (iapp a)) eqn:Ei; simpl;
    try discriminate.
  - destruct (truthy_dict (healthCheck a)) as [hc |] eqn:Eh; simpl.
    + destruct (marathon_healthcheck _ hc) as [hc' |] eqn:Ehc; simpl;
        [| discriminate].
      intros H. injection H as <- <-. repeat split; auto; try discriminate.
      exists [hc']. unfold service_with. rewrite Ei, Eh. split; eauto.
    + intros H. injection H as <- <-. repeat split; auto; try discriminate.
      exists []. unfold service_with. rewrite Ei, Eh. split; eauto.
  - destruct (is_label_data_valid pf a) eqn:Ev; simpl; [| discriminate].
    destruct (truthy_dict (healthCheck a)) as [hc |] eqn:Eh; simpl.
    + destruct (marathon_healthcheck _ hc) as [hc' |] eqn:Ehc; simpl;
        [| discriminate].
      intros H. injection H as <- <-. repeat split; auto.
      exists [hc']. unfold service_with. rewrite Ei, Eh. split; eauto.
    + intros H. injection H as <- <-. repeat split; auto.
      exists []. unfold service_with. rewrite Ei, Eh. split; eauto.
  - destruct (truthy_dict (healthCheck a)) as [hc |] eqn:Eh; simpl.
    + destruct (marathon_healthcheck _ hc) as [hc' |] eqn:Ehc; simpl;
        [| discriminate].
      intros H. injection H as <- <-. repeat split; auto; try discriminate.
      exists [hc']. unfold service_with. rewrite Ei, Eh. split; eauto.
    + intros H. injection H as <- <-. repeat split; auto; try discriminate.
      exists []. unfold service_with. rewrite Ei, Eh. split; eauto.
Qed.

Lemma keys_dict_set {V} (c : dict V) (k : string) (v : V) (x : string) :
  In x (keys (dict_set c k v)) <-> x = k \/ In x (keys c).
Proof.
  unfold keys. induction c as [| [k0 v0] c IH]; simpl.
  - intuition.
  - destruct (String.eqb k k0) eqn:E; simpl.
    + apply String.eqb_eq in E. subst k0. intuition.
    + rewrite IH. intuition.
Qed.

Lemma NoDup_dict_set {V} (c : dict V) (k : string) (v : V) :
  NoDup (keys c) -> NoDup (keys (dict_set c k v)).
Proof.
  induction c as [| [k0 v0] c IH]; simpl; intros H.
  - repeat constructor. intros [].
  - apply NoDup_cons_iff in H. destruct H as [Hk H].
    destruct (String.eqb k k0) eqn:E; simpl.
    + apply String.eqb_eq in E. subst k0. now constructor.
    + constructor; [| now apply IH].
      change (~ In k0 (keys (dict_set c k v))). rewrite keys_dict_set.
      apply String.eqb_neq in E. intros [-> | Hc]; [congruence | contradiction].
Qed.

Lemma NoDup_dict_get {V} (c : dict V) (k : string) (v : V) :
  NoDup (keys c) -> In (k, v) c -> dict_get c k = Some v.
Proof.
  induction c as [| [k0 v0] c IH]; simpl; intros H Hin; [contradiction |].
  apply NoDup_cons_iff in H. destruct H as [Hk H].
  destruct Hin as [Heq | Hin].
  - injection Heq as -> ->. now rewrite String.eqb_refl.
  - destruct (String.eqb k k0) eqn:E.
    + apply String.eqb_eq in E. subst k0. exfalso. apply Hk.
      change (In k (map fst c)). apply in_map_iff. now exists (k, v).
    + now apply IH.
Qed.

Lemma marathon_loop_NoDup (pf : platform) (partitions : list string)
    (apps : list app) :
  forall f5 cfg, NoDup (keys f5) ->
                 marathon_loop pf partitions apps f5 = Ok cfg ->
                 NoDup (keys cfg).
Proof.
  induction apps as [| a apps IH]; simpl; intros f5 cfg Hnd H.
  - now injection H as <-.
  - destruct (marathon_service pf partitions a) as [[[n s] |] |]; simpl in H;
      try discriminate.
    + apply (IH _ _ (NoDup_dict_set _ n s Hnd) H).
    + apply (IH _ _ Hnd H).
Qed.

(** X9.  The desired model of the Marathon builder is a dictionary of
    services: no name occurs twice, every entry is stored under its own
    name, that name is the one derived from an application of the input,
    and its partition is one that [has_partition] accepts. *)
Theorem marathon_config_well_formed (pf : platform) (partitions : list string)
    (apps : list app) (cfg : config) :
  _create_config_marathon pf partitions apps = Ok cfg ->
  NoDup (keys cfg) /\
  forall n s, In (n, s) cfg ->
    dict_get cfg n = Some s /\
    svc_name s = n /\
    has_partition partitions (Some (svc_partition s)) = Ok true /\
    exists a, In a apps /\ n = frontend_name_of a /\
              partition a = Some (svc_partition s).
Proof.
  intros H.
  assert (Hnd : NoDup (keys cfg)).
  { unfold _create_config_marathon in H.
    apply (@marathon_loop_NoDup pf partitions _ [] cfg (NoDup_nil _) H). }
  split; [exact Hnd |]. intros n s Hin.
  destruct (@marathon_entries_managed pf partitions apps cfg H _ Hin)
    as [a [Ha [Hs Hm]]].
  apply marathon_service_inv in Hs.
  destruct Hs as [_ [Hp [_ [_ [Hn [health [_ ->]]]]]]].
  split; [now apply NoDup_dict_get |]. simpl.
  split; [now symmetry |].
  destruct (partition a) as [p |] eqn:Ep; [| discriminate Hp]. simpl.
  split; [exact Hm |]. exists a. auto.
Qed.

Lemma marathon_config_well_formed_witness :
  NoDup (keys monitored_cfg) /\
  forall n s, In (n, s) monitored_cfg ->
    dict_get monitored_cfg n = Some s /\
    svc_name s = n /\
    has_partition ["prod"] (Some (svc_partition s)) = Ok true /\
    exists a, In a [monitored_app] /\ n = frontend_name_of a /\
              partition a = Some (svc_partition s).
Proof.
  apply (@marathon_config_well_formed test_platform ["prod"] [monitored_app]
           monitored_cfg).
  vm_compute. reflexivity.
Defined.

Lemma get_protocol_range (v : pyval) :
  get_protocol v = Some "tcp" \/ get_protocol v = Some "udp" \/
  get_protocol v = None.
Proof.
  unfold get_protocol.
  destruct (String.eqb _ "tcp"); [now left |].
  destruct (String.eqb _ "http"); [now left |].
  destruct (String.eqb _ "udp"); [now right; left | now right; right].
Qed.

Lemma label_data_valid_iff (pf : platform) (a : app) :
  is_label_data_valid pf a = true <->
  get_protocol (mode a) <> None /\
  1 <= servicePort a <= 65535 /\
  ip_address pf (bindAddr a) = true /\
  mem (balance a) _lbmethods = true.
Proof.
  unfold is_label_data_valid.
  destruct (get_protocol (mode a)) as [p |];
    destruct (servicePort a <? 1) eqn:E1;
    destruct (servicePort a >? 65535) eqn:E2;
    destruct (ip_address pf (bindAddr a));
    destruct (mem (balance a) _lbmethods); simpl;
    try apply Z.ltb_lt in E1; try apply Z.ltb_ge in E1;
    try (apply Z.gtb_lt in E2);
    try (rewrite Z.gtb_ltb in E2; apply Z.ltb_ge in E2);
    split; try discriminate; try (intros [H1 [H2 [H3 H4]]]);
    try congruence; try lia; intros _; repeat split; try discriminate; lia.
Qed.

(** X10.  The port bounds and the other label tests: an application's labels
    are valid exactly when its mode derives a protocol, its service port
    lies in 1..65535 (both bounds included), its bind address parses, and
    its balancing method is one of the supported ones. *)
Theorem is_label_data_valid_spec (pf : platform) (a : app) :
  is_label_data_valid pf a = true <->
  get_protocol (mode a) <> None /\
  1 <= servicePort a <= 65535 /\
  ip_address pf (bindAddr a) = true /\
  mem (balance a) _lbmethods = true.
Proof. exact (label_data_valid_iff pf a). Qed.

Lemma marathon_healthcheck_name (name : string) (hc hc' : dict pyval) :
  marathon_healthcheck name hc = Ok hc' ->
  dict_get hc' "name" = Some (VStr name).
Proof.
  unfold marathon_healthcheck.
  set (hc1 := dict_set hc "name" (VStr name)).
  assert (H1 : dict_get hc1 "name" = Some (VStr name))
    by (unfold hc1; now rewrite dict_get_set).
  intros H.
  assert (G : forall hc2, dict_get hc2 "name" = Some (VStr name) ->
              (interval <- getitem hc2 "intervalSeconds" ;;
               timeout <- healthcheck_timeout_calculate hc2 ;;
               send <- healthcheck_sendstring hc2 ;;
               Ok (dict_set (dict_set (dict_set hc2 "interval" interval)
                               "timeout" (VInt timeout))
                     "send" (match send with
                             | Some s => VStr s
                             | None => VNone
                             end)))%result = Ok hc' ->
              dict_get hc' "name" = Some (VStr name)).
  { intros hc2 H2 E.
    destruct (getitem hc2 "intervalSeconds"); simpl in E; try discriminate.
    destruct (healthcheck_timeout_calculate hc2); simpl in E;
      try discriminate.
    destruct (healthcheck_sendstring hc2); simpl in E; try discriminate.
    injection E as <-. now rewrite !dict_get_set. }
  destruct (dict_get hc1 "protocol") as [p |]; simpl in H.
  - destruct (lower_val p) as [p' |]; simpl in H; try discriminate.
    apply (G (dict_set hc1 "protocol" p')); [| exact H].
    rewrite dict_get_set. exact H1.
  - apply (G _ H1 H).
Qed.

(** X11.  Every individually managed entry of the desired model is
    consistent in itself: its balancing method is a supported one, its
    protocol is [tcp] or [udp], its virtual server refers to the pool of the
    entry's own name, and its pool refers to a monitor exactly when the
    entry has a health monitor, which is then the only one and carries the
    entry's name. *)
Theorem marathon_entries_consistent (pf : platform) (partitions : list string)
    (apps : list app) (cfg : config) (n : string) (s : service) :
  _create_config_marathon pf partitions apps = Ok cfg ->
  In (n, s) cfg ->
  svc_iapp s = None ->
  exists v p,
    svc_virtual s = Some v /\ svc_pool s = Some p /\
    mem (p_loadBalancingMode p) _lbmethods = true /\
    (v_ipProtocol v = Some "tcp" \/ v_ipProtocol v = Some "udp") /\
    v_pool v = "/" ++ svc_partition s ++ "/" ++ n /\
    v_sourceAddressTranslation v = "automap" /\
    match svc_health s with
    | [] => p_monitor p = None
    | [hc] => p_monitor p = Some ("/" ++ svc_partition s ++ "/" ++ n) /\
              dict_get hc "name" = Some (VStr n)
    | _ => False
    end.
Proof.
  intros H Hin Hi.
  destruct (@marathon_entries_managed pf partitions apps cfg H _ Hin)
    as [a [_ [Hs _]]].
  apply marathon_service_inv in Hs.
  destruct Hs as [_ [_ [_ [Hv [Hn [health [Hh ->]]]]]]].
  simpl in Hi. destruct (truthy (iapp a)); [discriminate |].
  apply label_data_valid_iff in Hv; [| reflexivity].
  destruct Hv as [Hproto [_ [_ Hbal]]].
  eexists. eexists. split; [reflexivity |]. split; [reflexivity |]. simpl.
  split; [exact Hbal |]. split.
  { destruct (get_protocol_range (mode a)) as [E | [E | E]]; auto.
    congruence. }
  split; [now rewrite Hn |]. split; [reflexivity |].
  destruct (truthy_dict (healthCheck a)) as [hc |].
  - destruct Hh as [hc' [Hhc ->]]. split; [now rewrite Hn |].
    now apply marathon_healthcheck_name with hc.
  - now rewrite Hh.
Qed.

Lemma marathon_entries_consistent_witness :
  exists s v p hc,
    dict_get monitored_cfg "app-a_10.0.0.1_80" = Some s /\
    svc_virtual s = Some v /\ svc_pool s = Some p /\
    v_pool v = "/prod/app-a_10.0.0.1_80" /\
    svc_health s = [hc] /\
    p_monitor p = Some "/prod/app-a_10.0.0.1_80" /\
    dict_get hc "name" = Some (VStr "app-a_10.0.0.1_80").
Proof.
  destruct (dict_get monitored_cfg "app-a_10.0.0.1_80") as [s |] eqn:E;
    [| discriminate E].
  assert (Hin : In ("app-a_10.0.0.1_80", s) monitored_cfg).
  { vm_compute in E. injection E as <-. vm_compute. left. reflexivity. }
  assert (Hi : svc_iapp s = None).
  { vm_compute in E. injection E as <-. reflexivity. }
  assert (Hp : svc_partition s = "prod").
  { vm_compute in E. injection E as <-. reflexivity. }
  destruct (@marathon_entries_consistent test_platform ["prod"]
              [monitored_app] monitored_cfg "app-a_10.0.0.1_80" s
              eq_refl Hin Hi) as [v [p [Hv [Hpool [_ [_ [Hvp [_ Hm]]]]]]]].
  rewrite Hp in Hvp, Hm.
  destruct (svc_health s) as [| hc [| hc2 rest]] eqn:Eh.
  - exfalso. vm_compute in E. injection E as <-. discriminate Eh.
  - exists s, v, p, hc. destruct Hm as [Hm1 Hm2]. repeat split; auto.
  - contradiction.
Defined.

Lemma insert_sorted_In {A} (le : A -> A -> bool) (x y : A) (l : list A) :
  y = x \/ In y l -> In y (insert_sorted le x l).
Proof.
  induction l as [| z l IH]; simpl.
  - intros [-> | []]. now left.
  - destruct (le x z); simpl.
    + intros [-> | [-> | H]]; auto.
    + intros [-> | [-> | H]]; auto.
Qed.

Lemma sorted_In {A} (le : A -> A -> bool) (y : A) (l : list A) :
  In y l -> In y (sorted le l).
Proof.
  induction l as [| x l IH]; simpl; [tauto |].
  intros [-> | H]; apply insert_sorted_In; auto.
Qed.

(** The node key of a backend whose host resolves. *)
Definition node_key (pf : platform) (b : backend) : option string :=
  match resolve_ip pf (host b) with
  | Some ipv4 => Some (ipv4 ++ ":" ++ str_of_Z (port b))
  | None => None
  end.

Lemma nodes_fold_spec (pf : platform) (l : list backend) :
  forall acc : dict member_cfg,
    let nodes :=
      fold_left
        (fun nodes backendServer =>
           match resolve_ip pf (host backendServer) with
           | Some ipv4 =>
               dict_set nodes (ipv4 ++ ":" ++ str_of_Z (port backendServer))
                        member_up
           | None => nodes
           end) l acc in
    (NoDup (keys acc) -> NoDup (keys nodes)) /\
    (forall k, In k (keys nodes) <->
               In k (keys acc) \/ exists b, In b l /\ node_key pf b = Some k) /\
    ((forall k v, In (k, v) acc -> v = member_up) ->
     forall k v, In (k, v) nodes -> v = member_up).
Proof.
  induction l as [| b l IH]; intros acc; simpl.
  - split; [auto |]. split; [| auto].
    intros k. split; [auto |]. intros [H | [b [[] _]]]. exact H.
  - unfold node_key in *.
    destruct (resolve_ip pf (host b)) as [ip |] eqn:E.
    + destruct (IH (dict_set acc (ip ++ ":" ++ str_of_Z (port b)) member_up))
        as [I1 [I2 I3]].
      split; [intros H; apply I1; now apply NoDup_dict_set |]. split.
      * intros k. rewrite I2, keys_dict_set. split.
        -- intros [[-> | H] | [b' [Hb Hk]]]; auto.
           ++ right. exists b. split; [now left |]. now rewrite E.
           ++ right. exists b'. split; [now right | exact Hk].
        -- intros [H | [b' [[<- | Hb] Hk]]]; auto.
           ++ rewrite E in Hk. injection Hk as <-. auto.
           ++ right. now exists b'.
      * intros H. apply I3. intros k v Hin. apply In_dict_set in Hin.
        destruct Hin as [Heq | Hin]; [now injection Heq | eauto].
    + destruct (IH acc) as [I1 [I2 I3]].
      split; [exact I1 |]. split; [| exact I3].
      intros k. rewrite I2. split.
      * intros [H | [b' [Hb Hk]]]; auto. right. exists b'. auto.
      * intros [H | [b' [[<- | Hb] Hk]]]; auto.
        -- rewrite E in Hk. discriminate.
        -- right. now exists b'.
Qed.

(** X12.  The members of an entry of the desired model are the backends of
    its application whose host names resolve, each under the key
    [address:port] and once only; a backend whose host does not resolve is
    left out without failing the service; every member is administratively
    up with an enabled session. *)
Theorem marathon_members_resolved (pf : platform) (partitions : list string)
    (apps : list app) (cfg : config) (n : string) (s : service) :
  _create_config_marathon pf partitions apps = Ok cfg ->
  In (n, s) cfg ->
  exists a,
    In a apps /\ n = frontend_name_of a /\
    NoDup (keys (svc_nodes s)) /\
    (forall k, In k (keys (svc_nodes s)) <->
               exists b, In b (backends a) /\ node_key pf b = Some k) /\
    (forall k data, dict_get (svc_nodes s) k = Some data ->
                    m_state data = "user-up" /\
                    m_session data = "user-enabled").
Proof.
  intros H Hin.
  destruct (@marathon_entries_managed pf partitions apps cfg H _ Hin)
    as [a [Ha [Hs _]]].
  apply marathon_service_inv in Hs.
  destruct Hs as [_ [_ [_ [_ [Hn [health [_ ->]]]]]]].
  exists a. split; [exact Ha |]. split; [exact Hn |]. simpl.
  unfold marathon_nodes.
  destruct (nodes_fold_spec pf (sorted backend_le (backends a)) [])
    as [I1 [I2 I3]].
  split; [apply I1; constructor |]. split.
  - intros k. rewrite I2. split.
    + intros [[] | [b [Hb Hk]]]. exists b. split; [| exact Hk].
      now apply In_sorted in Hb.
    + intros [b [Hb Hk]]. right. exists b. split; [| exact Hk].
      now apply sorted_In.
  - intros k data Hd.
    assert (Hin' : In (k, data)
                      (fold_left
                         (fun nodes backendServer =>
                            match resolve_ip pf (host backendServer) with
                            | Some ipv4 =>
                                dict_set nodes
                                  (ipv4 ++ ":" ++ str_of_Z (port backendServer))
                                  member_up
                            | None => nodes
                            end)
                         (sorted backend_le (backends a)) [])).
    { revert Hd. generalize (fold_left
                         (fun nodes backendServer =>
                            match resolve_ip pf (host backendServer) with
                            | Some ipv4 =>
                                dict_set nodes
                                  (ipv4 ++ ":" ++ str_of_Z (port backendServer))
                                  member_up
                            | None => nodes
                            end)
                         (sorted backend_le (backends a)) []).
      intros c. induction c as [| [k0 v0] c IHc]; simpl; [discriminate |].
      destruct (String.eqb k k0) eqn:Ek.
      - apply String.eqb_eq in Ek. subst k0. intros Hd. injection Hd as ->.
        now left.
      - intros Hd. right. now apply IHc. }
    rewrite (I3 (fun k v (F : In (k, v) []) => match F with end) _ _ Hin').
    split; reflexivity.
Qed.

(** [monitored_app] on a platform that cannot resolve its second host. *)
Definition half_platform : platform :=
  {| resolve_ip := fun h => if String.eqb h "10.1.0.2" then None else Some h;
     ip_address := truthy |}.

Definition half_cfg : config :=
  or_empty (_create_config_marathon half_platform ["prod"] [monitored_app]).

Lemma marathon_members_resolved_witness :
  exists s,
    dict_get half_cfg "app-a_10.0.0.1_80" = Some s /\
    keys (svc_nodes s) = ["10.1.0.1:31001"] /\
    forall k data, dict_get (svc_nodes s) k = Some data ->
                   m_state data = "user-up" /\ m_session data = "user-enabled".
Proof.
  destruct (dict_get half_cfg "app-a_10.0.0.1_80") as [s |] eqn:Es;
    [| discriminate Es].
  exists s. split; [reflexivity |].
  assert (Hin : In ("app-a_10.0.0.1_80", s) half_cfg).
  { vm_compute in Es. injection Es as <-. vm_compute. left. reflexivity. }
  destruct (@marathon_members_resolved half_platform ["prod"] [monitored_app]
              half_cfg "app-a_10.0.0.1_80" s eq_refl Hin)
    as [a [_ [_ [_ [_ H]]]]].
  split; [| exact H].
  vm_compute in Es. injection Es as <-. reflexivity.
Defined.

(** The exceptions that the builder's own code can raise. *)
Definition is_builder_error (e : exn) : Prop :=
  e = KeyError \/ e = TypeError \/ e = AttributeError.

Lemma getitem_error {V} (c : dict V) (k : string) (e : exn) :
  getitem c k = Raise e -> e = KeyError.
Proof. unfold getitem. destruct (dict_get c k); congruence. Qed.

Lemma timeout_error (data : dict pyval) (e : exn) :
  healthcheck_timeout_calculate data = Raise e -> e = KeyError \/ e = TypeError.
Proof.
  unfold healthcheck_timeout_calculate, getitem, as_int.
  repeat match goal with
         | |- context [match ?x with _ => _ end] => destruct x; simpl
         end; intros H; try discriminate; injection H as <-; auto.
Qed.

Lemma sendstring_error (data : dict pyval) (e : exn) :
  healthcheck_sendstring data = Raise e -> e = KeyError.
Proof.
  intros H. destruct (dict_get data "protocol") as [p |] eqn:E.
  - destruct (pyval_eq_http p) as [-> | Hne];
      [rewrite (sendstring_http data E) in H
      | rewrite (sendstring_other data E Hne) in H]; discriminate.
  - unfold healthcheck_sendstring, getitem in H. rewrite E in H.
    simpl in H. now injection H as <-.
Qed.

Lemma marathon_healthcheck_error (name : string) (hc : dict pyval) (e : exn) :
  marathon_healthcheck name hc = Raise e -> is_builder_error e.
Proof.
  unfold marathon_healthcheck, is_builder_error.
  set (hc1 := dict_set hc "name" (VStr name)).
  assert (G : forall hc2 (k : pyval -> Z -> option string -> dict pyval),
              (interval <- getitem hc2 "intervalSeconds" ;;
               timeout <- healthcheck_timeout_calculate hc2 ;;
               send <- healthcheck_sendstring hc2 ;;
               Ok (k interval timeout send))%result = Raise e ->
              e = KeyError \/ e = TypeError \/ e = AttributeError).
  { intros hc2 k E.
    destruct (getitem hc2 "intervalSeconds") eqn:E1; simpl in E.
    - destruct (healthcheck_timeout_calculate hc2) eqn:E2; simpl in E.
      + destruct (healthcheck_sendstring hc2) eqn:E3; simpl in E;
          [discriminate |].
        injection E as <-. left. now apply sendstring_error in E3.
      + injection E as <-. apply timeout_error in E2. tauto.
    - injection E as <-. left. now apply getitem_error in E1. }
  intros H. destruct (dict_get hc1 "protocol") as [p |]; simpl in H.
  - destruct p as [| z | s]; simpl in H;
      try (injection H as <-; now right; right).
    exact (G _ (fun i t sd =>
                  dict_set (dict_set (dict_set _ "interval" i)
                              "timeout" (VInt t))
                    "send" (match sd with
                            | Some s => VStr s
                            | None => VNone
                            end)) H).
  - exact (G _ (fun i t sd =>
                  dict_set (dict_set (dict_set _ "interval" i)
                              "timeout" (VInt t))
                    "send" (match sd with
                            | Some s => VStr s
                            | None => VNone
                            end)) H).
Qed.

Lemma marathon_service_error (pf : platform) (partitions : list string)
    (a : app) (e : exn) :
  marathon_service pf partitions a = Raise e ->
  is_builder_error e /\
  exists hc, truthy_dict (healthCheck a) = Some hc /\
             marathon_healthcheck (frontend_name_of a) hc = Raise e.
Proof.
  unfold marathon_service. rewrite has_partition_total. simpl.
  destruct (negb _); [discriminate |].
  destruct (andb _ _); [discriminate |].
  destruct (andb _ _); [discriminate |].
  destruct (truthy_dict (healthCheck a)) as [hc |]; simpl; [| discriminate].
  destruct (marathon_healthcheck _ hc) as [hc' |] eqn:E; simpl;
    [discriminate |].
  intros H. injection H as <-. split.
  - now apply marathon_healthcheck_error in E.
  - now exists hc.
Qed.

Lemma marathon_loop_error (pf : platform) (partitions : list string)
    (apps : list app) (e : exn) :
  forall f5, marathon_loop pf partitions apps f5 = Raise e ->
  exists a, In a apps /\ marathon_service pf partitions a = Raise e.
Proof.
  induction apps as [| a apps IH]; simpl; intros f5 H; [discriminate |].
  destruct (marathon_service pf partitions a) as [[[n s] |] |] eqn:E;
    simpl in H.
  - destruct (IH _ H) as [b [Hb Hs]]. exists b. auto.
  - destruct (IH _ H) as [b [Hb Hs]]. exists b. auto.
  - injection H as <-. exists a. auto.
Qed.

(** An application that fails in [marathon_service] has passed the three
    tests by which the loop skips applications. *)
Lemma marathon_service_error_reached (pf : platform)
    (partitions : list string) (a : app) (e : exn) :
  marathon_service pf partitions a = Raise e ->
  has_partition partitions (partition a) = Ok true /\
  (truthy (bindAddr a) = true \/ truthy (iapp a) = true) /\
  (truthy (iapp a) = true \/ is_label_data_valid pf a = true).
Proof.
  unfold marathon_service. rewrite has_partition_total.
  destruct (andb (truthy (partition a)) _) eqn:Em; simpl; [| discriminate].
  destruct (truthy (bindAddr a)) eqn:Eb, (truthy (iapp a)) eqn:Ei; simpl;
    try discriminate;
    destruct (is_label_data_valid pf a) eqn:Ev; simpl; try discriminate;
    intros _; auto.
Qed.

(** X13.  When the Marathon builder fails, it is on the health check of an
    application of the input that the loop does not skip: one of a managed
    partition, with a bind address or an iApp, and with valid labels unless
    it has an iApp.  [regenerate_config_f5] then makes no call to the device
    at all and lets the exception through: it is not answered with the
    retry signal. *)
Theorem builder_failure_is_fatal_before_any_call (pf : platform)
    (partitions : list string) (apps : list app) (e : exn) :
  _create_config_marathon pf partitions apps = Raise e ->
  (exists a hc,
     In a apps /\
     has_partition partitions (partition a) = Ok true /\
     (truthy (bindAddr a) = true \/ truthy (iapp a) = true) /\
     (truthy (iapp a) = true \/ is_label_data_valid pf a = true) /\
     truthy_dict (healthCheck a) = Some hc /\
     marathon_healthcheck (frontend_name_of a) hc = Raise e) /\
  forall (W : Type) (d : device W) (w : W),
    let r := regenerate_config_f5 d pf partitions (Marathon_apps apps) w in
    outcome r = Raise e /\ trace r = [] /\ final r = w.
Proof.
  intros H. unfold _create_config_marathon in H.
  destruct (marathon_loop_error _ _ _ _ H) as [a [Ha Hs]].
  apply In_sorted in Ha.
  destruct (marathon_service_error _ _ _ Hs) as [He [hc [Hhc Hm]]].
  destruct (marathon_service_error_reached _ _ _ Hs) as [R1 [R2 R3]].
  split; [exists a, hc; auto 10 |].
  intros W d w. unfold regenerate_config_f5, retry_on_device_error,
    regenerate_pass, _create_config_marathon.
  rewrite H. unfold bind. simpl. split; [| split; reflexivity].
  destruct He as [-> | [-> | ->]]; reflexivity.
Qed.

(** [monitored_app] with a health check that lacks its interval. *)
Definition broken_app : app :=
  {| appId := "/app-x";
     partition := Some "prod";
     mode := VStr "http";
     balance := "round-robin";
     bindAddr := Some "10.0.0.3";
     servicePort := 80;
     profile := None;
     iapp := None;
     iappTableName := "";
     iappVariables := [];
     iappOptions := [];
     healthCheck := Some [ ("protocol", VStr "HTTP");
                           ("maxConsecutiveFailures", VInt 3);
                           ("timeoutSeconds", VInt 10) ];
     backends := [] |}.

Lemma builder_failure_is_fatal_before_any_call_witness :
  (exists a hc,
     In a [monitored_app; broken_app] /\
     has_partition ["prod"] (partition a) = Ok true /\
     (truthy (bindAddr a) = true \/ truthy (iapp a) = true) /\
     (truthy (iapp a) = true \/ is_label_data_valid test_platform a = true) /\
     truthy_dict (healthCheck a) = Some hc /\
     marathon_healthcheck (frontend_name_of a) hc = Raise KeyError) /\
  let r := regenerate_config_f5 stale_device test_platform ["prod"]
             (Marathon_apps [monitored_app; broken_app]) tt in
  outcome r = Raise KeyError /\ trace r = [] /\ final r = tt.
Proof.
  destruct (@builder_failure_is_fatal_before_any_call test_platform ["prod"]
              [monitored_app; broken_app] KeyError) as [H1 H2].
  - vm_compute. reflexivity.
  - split; [exact H1 | exact (H2 unit stale_device tt)].
Defined.

Lemma marathon_service_total (pf : platform) (partitions : list string)
    (a : app) :
  (forall hc, truthy_dict (healthCheck a) = Some hc ->
              well_formed_healthcheck hc) ->
  exists r, marathon_service pf partitions a = Ok r.
Proof.
  intros Hwf. destruct (marathon_service pf partitions a) as [r | e] eqn:E;
    [now exists r |].
  apply marathon_service_error in E. destruct E as [_ [hc [Hhc Hm]]].
  destruct (marathon_healthcheck_ok (frontend_name_of a) (Hwf hc Hhc))
    as [hc' Hok].
  congruence.
Qed.

(** X14.  The Marathon builder returns a model whenever every health check
    of the input that is neither missing nor empty holds its three integers
    and a protocol name: nothing else in an application's record can make
    it fail. *)
Theorem marathon_builder_total (pf : platform) (partitions : list string)
    (apps : list app) :
  (forall a hc, In a apps -> truthy_dict (healthCheck a) = Some hc ->
                well_formed_healthcheck hc) ->
  exists cfg, _create_config_marathon pf partitions apps = Ok cfg.
Proof.
  intros Hwf.
  destruct (_create_config_marathon pf partitions apps) as [cfg | e] eqn:E;
    [now exists cfg |].
  unfold _create_config_marathon in E.
  destruct (marathon_loop_error _ _ _ _ E) as [a [Ha Hs]].
  apply In_sorted in Ha.
  destruct (marathon_service_total pf partitions a (fun hc => Hwf a hc Ha))
    as [r Hr].
  congruence.
Qed.

Lemma marathon_builder_total_witness :
  exists cfg,
    _create_config_marathon test_platform ["*"]
      [monitored_app; iapp_app; unlabelled_app] = Ok cfg.
Proof.
  apply (@marathon_builder_total test_platform ["*"]
           [monitored_app; iapp_app; unlabelled_app]).
  intros a hc [<- | [<- | [<- | []]]] H; try discriminate H.
  injection H as <-. unfold well_formed_healthcheck. simpl. eauto 10.
Defined.

(* ===================================================================== *)
(** * Further properties: the helpers *)
(* ===================================================================== *)

(** X15.  [has_partition] never raises, the empty list of partitions
    included: its [raise] is dead code.  It answers [True] exactly for a
    partition that is a non-empty string and is covered by the wildcard or
    listed. *)
Theorem has_partition_spec (partitions : list string) (o : option string) :
  (forall e, has_partition partitions o <> Raise e) /\
  (has_partition partitions o = Ok true <->
   exists p, o = Some p /\ p <> "" /\ (In "*" partitions \/ In p partitions)).
Proof.
  rewrite has_partition_total. split; [discriminate |].
  destruct o as [p |]; simpl.
  - destruct (String.eqb p "") eqn:Ep; simpl.
    + apply String.eqb_eq in Ep. split; [discriminate |].
      intros [q [Hq [Hne _]]]. injection Hq as <-. contradiction.
    + apply String.eqb_neq in Ep. split.
      * intros H. injection H as H. apply orb_true_iff in H.
        exists p. rewrite !mem_In in H. auto.
      * intros [q [Hq [_ H]]]. injection Hq as <-.
        rewrite <- !mem_In in H. apply orb_true_iff in H. now rewrite H.
  - split; [discriminate |]. intros [q [Hq _]]. discriminate.
Qed.

Lemma dict_get_filter {V} (f : string -> bool) (c : dict V) (k : string) :
  dict_get (filter (fun kv => f (fst kv)) c) k
  = if f k then dict_get c k else None.
Proof.
  induction c as [| [k0 v0] c IH]; simpl.
  - now destruct (f k).
  - destruct (String.eqb k k0) eqn:E.
    + apply String.eqb_eq in E. subst k0.
      destruct (f k) eqn:Ef; simpl.
      * now rewrite String.eqb_refl.
      * rewrite IH. destruct (f k); congruence.
    + destruct (f k0); simpl; [rewrite E |]; exact IH.
Qed.

Lemma fields_http (data : dict pyval) :
  dict_get data "protocol" = Some (VStr "http") ->
  get_healthcheck_fields data
  = Ok (filter (fun kv => mem (fst kv) http_send_keys) data).
Proof.
  intros H. unfold get_healthcheck_fields.
  now rewrite (getitem_Some _ _ H).
Qed.

Lemma fields_tcp (data : dict pyval) :
  dict_get data "protocol" = Some (VStr "tcp") ->
  get_healthcheck_fields data
  = Ok (filter (fun kv => mem (fst kv) tcp_send_keys) data).
Proof.
  intros H. unfold get_healthcheck_fields.
  now rewrite (getitem_Some _ _ H).
Qed.

Lemma fields_other (data : dict pyval) (p : pyval) :
  dict_get data "protocol" = Some p ->
  p <> VStr "http" -> p <> VStr "tcp" ->
  get_healthcheck_fields data
  = Raise (Exception ("Protocol " ++ str p ++ " is not supported.")).
Proof.
  intros H N1 N2. unfold get_healthcheck_fields.
  rewrite (getitem_Some _ _ H). simpl.
  destruct p as [| z | s]; try reflexivity.
  repeat match goal with
         | |- context [match ?s with EmptyString => _ | String _ _ => _ end] =>
             destruct s; try reflexivity
         | |- context [match ?a with Ascii _ _ _ _ _ _ _ _ => _ end] =>
             destruct a
         | |- context [if ?b then _ else _] => destruct b; try reflexivity
         end; try (now contradiction N1); now contradiction N2.
Qed.

(** X17.  [get_healthcheck_fields] sends the device only the fields of its
    list for the protocol, each with the record's value, and nothing else:
    neither the protocol nor Marathon's own field names, and for [tcp]
    neither [username] nor [password].  A record without a protocol raises
    [KeyError]; a protocol other than [http] and [tcp] raises the
    exception that names it. *)
Theorem get_healthcheck_fields_spec (data : dict pyval) :
  (dict_get data "protocol" = None ->
   get_healthcheck_fields data = Raise KeyError) /\
  (forall p, dict_get data "protocol" = Some p ->
             p <> VStr "http" -> p <> VStr "tcp" ->
             get_healthcheck_fields data
             = Raise (Exception ("Protocol " ++ str p ++ " is not supported."))) /\
  (forall p, dict_get data "protocol" = Some (VStr p) ->
             p = "http" \/ p = "tcp" ->
             exists send,
               get_healthcheck_fields data = Ok send /\
               (forall k, dict_get send k =
                          if mem k (if String.eqb p "http" then http_send_keys
                                    else tcp_send_keys)
                          then dict_get data k else None) /\
               dict_get send "protocol" = None /\
               dict_get send "path" = None /\
               dict_get send "intervalSeconds" = None /\
               (p = "tcp" -> dict_get send "username" = None /\
                             dict_get send "password" = None)).
Proof.
  split; [| split].
  - intros H. unfold get_healthcheck_fields, getitem. now rewrite H.
  - intros p. apply fields_other.
  - intros p Hp [-> | ->].
    + eexists. split; [now apply fields_http |].
      split;
        [intros k;
         exact (dict_get_filter (fun x => mem x http_send_keys) data k) |].
      rewrite !(dict_get_filter (fun x => mem x http_send_keys)). simpl.
      repeat split; discriminate.
    + eexists. split; [now apply fields_tcp |].
      split;
        [intros k;
         exact (dict_get_filter (fun x => mem x tcp_send_keys) data k) |].
      rewrite !(dict_get_filter (fun x => mem x tcp_send_keys)). simpl.
      repeat split; reflexivity.
Qed.

Lemma get_healthcheck_fields_spec_witness :
  get_healthcheck_fields [("interval", VInt 5)] = Raise KeyError /\
  get_healthcheck_fields [("protocol", VStr "command"); ("interval", VInt 5)]
  = Raise (Exception "Protocol command is not supported.") /\
  exists send,
    get_healthcheck_fields
      [ ("protocol", VStr "tcp"); ("interval", VInt 5);
        ("username", VStr "admin"); ("timeout", VInt 21) ] = Ok send /\
    dict_get send "timeout" = Some (VInt 21) /\
    dict_get send "username" = None.
Proof.
  split; [| split].
  - apply (get_healthcheck_fields_spec [("interval", VInt 5)]). reflexivity.
  - destruct (get_healthcheck_fields_spec
                [("protocol", VStr "command"); ("interval", VInt 5)])
      as [_ [H _]].
    apply (H (VStr "command")); [reflexivity | discriminate | discriminate].
  - destruct (get_healthcheck_fields_spec
                [ ("protocol", VStr "tcp"); ("interval", VInt 5);
                  ("username", VStr "admin"); ("timeout", VInt 21) ])
      as [_ [_ H]].
    destruct (H "tcp" eq_refl (or_intror eq_refl))
      as [send [Hs [Hk [_ [_ [_ Hu]]]]]].
    exists send. split; [exact Hs |]. split.
    + rewrite Hk. reflexivity.
    + now apply Hu.
Defined.

(** The monitor record that the builder makes of a well-formed health
    check. *)
Definition monitor_record (name : string) (hc : dict pyval) (m i t : Z)
    (p : string) : dict pyval :=
  dict_set
    (dict_set
       (dict_set
          (dict_set (dict_set hc "name" (VStr name)) "protocol"
                    (VStr (lower p)))
          "interval" (VInt i))
       "timeout" (VInt ((m - 1) * i + t + 1)))
    "send"
    (if String.eqb (lower p) "http"
     then VStr ("GET " ++ match dict_get hc "path" with
                          | Some path => str path
                          | None => "/"
                          end ++ " HTTP/1.0" ++ crlf2)
     else VNone).

Lemma marathon_healthcheck_result (name : string) (hc : dict pyval)
    (m i t : Z) (p : string) :
  dict_get hc "maxConsecutiveFailures" = Some (VInt m) ->
  dict_get hc "intervalSeconds" = Some (VInt i) ->
  dict_get hc "timeoutSeconds" = Some (VInt t) ->
  dict_get hc "protocol" = Some (VStr p) ->
  marathon_healthcheck name hc = Ok (monitor_record name hc m i t p).
Proof.
  intros Hm Hi Ht Hp. unfold marathon_healthcheck, monitor_record.
  rewrite dict_get_set. simpl. rewrite Hp. simpl.
  set (hc2 := dict_set (dict_set hc "name" (VStr name)) "protocol" _).
  assert (G : forall k, String.eqb k "protocol" = false ->
                        String.eqb k "name" = false ->
                        dict_get hc2 k = dict_get hc k).
  { intros k E1 E2. unfold hc2. now rewrite !dict_get_set, E1, E2. }
  assert (Gp : dict_get hc2 "protocol" = Some (VStr (lower p))).
  { unfold hc2. now rewrite dict_get_set. }
  rewrite (getitem_Some hc2 "intervalSeconds" (v := VInt i))
    by (rewrite G; auto).
  simpl.
  rewrite (@timeout_of_ints hc2 m i t) by (rewrite G; auto).
  simpl.
  destruct (String.eqb (lower p) "http") eqn:E.
  - apply String.eqb_eq in E. rewrite E in Gp.
    rewrite (sendstring_http hc2 Gp). simpl. rewrite G by reflexivity.
    reflexivity.
  - apply String.eqb_neq in E.
    rewrite (sendstring_other hc2 Gp) by congruence. reflexivity.
Qed.

(** X18.  From Marathon's health check to the device.  For a check with its
    three integers and a protocol that is [http] or [tcp] in any letter
    case, the monitor that the builder records and
    [get_healthcheck_fields] selects carries the service's name, the
    interval, the timeout of the formula and the send string, and none of
    Marathon's own fields; for any other protocol the selection fails with
    the exception that [get_healthcheck_fields] raises itself. *)
Theorem marathon_monitor_sent (name : string) (hc : dict pyval)
    (m i t : Z) (p : string) :
  dict_get hc "maxConsecutiveFailures" = Some (VInt m) ->
  dict_get hc "intervalSeconds" = Some (VInt i) ->
  dict_get hc "timeoutSeconds" = Some (VInt t) ->
  dict_get hc "protocol" = Some (VStr p) ->
  exists hc',
    marathon_healthcheck name hc = Ok hc' /\
    (lower p = "http" \/ lower p = "tcp" ->
     exists send,
       get_healthcheck_fields hc' = Ok send /\
       dict_get send "name" = Some (VStr name) /\
       dict_get send "interval" = Some (VInt i) /\
       dict_get send "timeout" = Some (VInt ((m - 1) * i + t + 1)) /\
       dict_get send "send"
       = Some (if String.eqb (lower p) "http"
               then VStr ("GET " ++ match dict_get hc "path" with
                                    | Some path => str path
                                    | None => "/"
                                    end ++ " HTTP/1.0" ++ crlf2)
               else VNone) /\
       dict_get send "protocol" = None /\
       dict_get send "maxConsecutiveFailures" = None /\
       dict_get send "intervalSeconds" = None /\
       dict_get send "timeoutSeconds" = None) /\
    (lower p <> "http" -> lower p <> "tcp" ->
     exists msg, get_healthcheck_fields hc' = Raise (Exception msg)).
Proof.
  intros Hm Hi Ht Hp. exists (monitor_record name hc m i t p).
  split; [now apply marathon_healthcheck_result |].
  assert (Gp : dict_get (monitor_record name hc m i t p) "protocol"
               = Some (VStr (lower p))).
  { unfold monitor_record. now rewrite !dict_get_set. }
  split.
  - intros [E | E]; rewrite E in Gp.
    + exists (filter (fun kv => mem (fst kv) http_send_keys)
                     (monitor_record name hc m i t p)).
      split; [now apply fields_http |].
      rewrite !(dict_get_filter (fun x => mem x http_send_keys)).
      unfold monitor_record. rewrite !dict_get_set, E. simpl.
      repeat split; reflexivity.
    + exists (filter (fun kv => mem (fst kv) tcp_send_keys)
                     (monitor_record name hc m i t p)).
      split; [now apply fields_tcp |].
      rewrite !(dict_get_filter (fun x => mem x tcp_send_keys)).
      unfold monitor_record. rewrite !dict_get_set, E. simpl.
      repeat split; reflexivity.
  - intros N1 N2.
    rewrite (fields_other _ Gp) by congruence. eexists. reflexivity.
Qed.

Lemma marathon_monitor_sent_witness :
  exists hc' send,
    marathon_healthcheck "app-a_10.0.0.1_80" healthcheck_3_5_10 = Ok hc' /\
    get_healthcheck_fields hc' = Ok send /\
    dict_get send "timeout" = Some (VInt 21) /\
    dict_get send "send" = Some (VStr ("GET /health HTTP/1.0" ++ crlf2)) /\
    dict_get send "protocol" = None.
Proof.
  destruct (@marathon_monitor_sent "app-a_10.0.0.1_80" healthcheck_3_5_10
              3 5 10 "HTTP" eq_refl eq_refl eq_refl eq_refl)
    as [hc' [H1 [H2 _]]].
  destruct (H2 (or_introl eq_refl))
    as [send [S1 [_ [_ [S2 [S3 [S4 _]]]]]]].
  exists hc', send. repeat split; assumption.
Defined.

(* ===================================================================== *)
(** * Further properties: names that are taken apart again *)
(* ===================================================================== *)

(** The number of occurrences of [c] in [s]. *)
Fixpoint count_char (c : ascii) (s : string) : nat :=
  match s with
  | EmptyString => O
  | String x r => if Ascii.eqb x c then S (count_char c r) else count_char c r
  end.

Lemma split_length (c : ascii) (s : string) :
  List.length (split c s) = S (count_char c s).
Proof.
  induction s as [| x r IH]; simpl; [reflexivity |].
  destruct (Ascii.eqb x c); simpl; [now rewrite IH |].
  destruct (split c r); simpl in *; [discriminate | exact IH].
Qed.

Lemma split_none (c : ascii) (s : string) :
  count_char c s = O -> split c s = [s].
Proof.
  induction s as [| x r IH]; simpl; [reflexivity |].
  destruct (Ascii.eqb x c); [discriminate |].
  intros H. now rewrite (IH H).
Qed.

Lemma split_app (c : ascii) (a b : string) :
  count_char c a = O -> split c (a ++ String c b) = a :: split c b.
Proof.
  induction a as [| x a IH]; simpl.
  - intros _. now rewrite Ascii.eqb_refl.
  - destruct (Ascii.eqb x c); [discriminate |].
    intros H. now rewrite (IH H).
Qed.

Lemma count_char_app (c : ascii) (a b : string) :
  count_char c (a ++ b) = (count_char c a + count_char c b)%nat.
Proof.
  induction a as [| x a IH]; simpl; [reflexivity |].
  destruct (Ascii.eqb x c); simpl; now rewrite IH.
Qed.

(** The profile that the mode adds to every virtual server. *)
Definition common_profile (md : pyval) : list profile_ref :=
  if String.eqb (lower (str md)) "http"
  then [ {| prof_partition := "Common"; prof_name := "http" |} ]
  else match get_protocol md with
       | Some "tcp" => [ {| prof_partition := "Common"; prof_name := "tcp" |} ]
       | _ => []
       end.

Lemma marathon_profiles_common (a : app) (ssl : list profile_ref) :
  (if String.eqb (lower (str (mode a))) "http" then
     ssl ++ [ {| prof_partition := "Common"; prof_name := "http" |} ]
   else if match get_protocol (mode a) with
           | Some p => String.eqb p "tcp"
           | None => false
           end then
     ssl ++ [ {| prof_partition := "Common"; prof_name := "tcp" |} ]
   else ssl)%list
  = (ssl ++ common_profile (mode a))%list.
Proof.
  unfold common_profile.
  destruct (String.eqb (lower (str (mode a))) "http"); [reflexivity |].
  destruct (get_protocol_range (mode a)) as [E | [E | E]]; rewrite E; simpl;
    now rewrite ?app_nil_r.
Qed.

(** X19.  The SSL profile label.  A label with exactly one slash is taken
    apart at the slash and comes first in the profile list; a label with no
    slash or with several is dropped and the service keeps only the profile
    of its mode, as does a service without the label.  The profile of the
    mode is [Common/http] for [http], [Common/tcp] for [tcp], and none for
    [udp]. *)
Theorem marathon_profiles_spec (a : app) :
  (forall p n, count_char "/" p = O -> count_char "/" n = O ->
     profile a = Some (p ++ "/" ++ n) ->
     marathon_profiles a
     = {| prof_partition := p; prof_name := n |} :: common_profile (mode a)) /\
  (forall s, profile a = Some s -> count_char "/" s <> 1%nat ->
     marathon_profiles a = common_profile (mode a)) /\
  (profile a = None -> marathon_profiles a = common_profile (mode a)).
Proof.
  split; [| split].
  - intros p n Hp Hn H. unfold marathon_profiles.
    rewrite marathon_profiles_common, H. simpl fmt_s.
    assert (T : truthy (Some (p ++ "/" ++ n)) = true).
    { simpl. destruct p; reflexivity. }
    rewrite T. change (p ++ "/" ++ n) with (p ++ String "/" n).
    rewrite (@split_app "/" p n Hp), (@split_none "/" n Hn). reflexivity.
  - intros s H Hc. unfold marathon_profiles.
    rewrite marathon_profiles_common, H. simpl fmt_s.
    destruct (truthy (Some s)); [| reflexivity].
    pose proof (split_length "/" s) as L.
    destruct (split "/" s) as [| x [| y [| z r]]]; try reflexivity.
    simpl in L. injection L as L. congruence.
  - intros H. unfold marathon_profiles.
    now rewrite marathon_profiles_common, H.
Qed.

Lemma marathon_profiles_spec_witness :
  marathon_profiles
    {| appId := "/app-a"; partition := Some "prod"; mode := VStr "HTTP";
       balance := "round-robin"; bindAddr := Some "10.0.0.1";
       servicePort := 443; profile := Some "Common/clientssl";
       iapp := None; iappTableName := ""; iappVariables := [];
       iappOptions := []; healthCheck := None; backends := [] |}
  = [ {| prof_partition := "Common"; prof_name := "clientssl" |};
      {| prof_partition := "Common"; prof_name := "http" |} ] /\
  marathon_profiles
    {| appId := "/app-a"; partition := Some "prod"; mode := VStr "udp";
       balance := "round-robin"; bindAddr := Some "10.0.0.1";
       servicePort := 53; profile := Some "Common/sub/clientssl";
       iapp := None; iappTableName := ""; iappVariables := [];
       iappOptions := []; healthCheck := None; backends := [] |}
  = [].
Proof.
  split.
  - apply (marathon_profiles_spec
             {| appId := "/app-a"; partition := Some "prod";
                mode := VStr "HTTP"; balance := "round-robin";
                bindAddr := Some "10.0.0.1"; servicePort := 443;
                profile := Some "Common/clientssl"; iapp := None;
                iappTableName := ""; iappVariables := []; iappOptions := [];
                healthCheck := None; backends := [] |});
      reflexivity.
  - destruct (marathon_profiles_spec
             {| appId := "/app-a"; partition := Some "prod";
                mode := VStr "udp"; balance := "round-robin";
                bindAddr := Some "10.0.0.1"; servicePort := 53;
                profile := Some "Common/sub/clientssl"; iapp := None;
                iappTableName := ""; iappVariables := []; iappOptions := [];
                healthCheck := None; backends := [] |}) as [_ [H _]].
    apply (H "Common/sub/clientssl"); [reflexivity | discriminate].
Defined.

Lemma uint_no_colon (d : Decimal.uint) :
  count_char ":" (NilEmpty.string_of_uint d) = O.
Proof. induction d; simpl; auto. Qed.

Lemma str_of_Z_no_colon (z : Z) : count_char ":" (str_of_Z z) = O.
Proof.
  unfold str_of_Z, NilZero.string_of_int.
  destruct (Z.to_int z) as [d | d]; simpl; unfold NilZero.string_of_uint;
    destruct d; simpl; auto using uint_no_colon.
Qed.

Lemma iapp_row_of_key (ip prt : string) :
  (exists row, iapp_row (ip ++ ":" ++ prt) = Ok row) /\
  (count_char ":" ip = O -> count_char ":" prt = O ->
   split ":" (ip ++ ":" ++ prt) = [ip; prt]).
Proof.
  split.
  - unfold iapp_row. change (ip ++ ":" ++ prt) with (ip ++ String ":" prt).
    pose proof (split_length ":" (ip ++ String ":" prt)) as L.
    rewrite count_char_app in L. simpl in L.
    destruct (split ":" (ip ++ String ":" prt)) as [| x [| y r]];
      simpl in L; [lia | lia | eauto].
  - intros Hi Hp. change (ip ++ ":" ++ prt) with (ip ++ String ":" prt).
    now rewrite (@split_app ":" ip prt Hi), (@split_none ":" prt Hp).
Qed.

Lemma iapp_rows_total (l : list string) :
  (forall k, In k l -> exists row, iapp_row k = Ok row) ->
  exists rws, iapp_rows l = Ok rws.
Proof.
  induction l as [| k l IH]; simpl; intros H; [eauto |].
  destruct (H k (or_introl eq_refl)) as [row ->]. simpl.
  destruct IH as [rws ->]; [intros; apply H; now right |]. simpl. eauto.
Qed.

Lemma iapp_rows_In (l : list string) (rws : list (list string)) :
  iapp_rows l = Ok rws ->
  List.length rws = List.length l /\
  forall row, In row rws <-> exists k, In k l /\ iapp_row k = Ok row.
Proof.
  revert rws. induction l as [| k l IH]; simpl; intros rws H.
  - injection H as <-. split; [reflexivity |]. intros row. simpl.
    split; [tauto | intros [k [[] _]]].
  - destruct (iapp_row k) as [r |] eqn:E; simpl in H; try discriminate.
    destruct (iapp_rows l) as [more |]; simpl in H; try discriminate.
    injection H as <-. destruct (IH more eq_refl) as [L I].
    split; [simpl; now rewrite L |]. intros row. simpl. rewrite I. split.
    + intros [<- | [k' [Hk Hr]]]; [exists k; auto | exists k'; auto].
    + intros [k' [[<- | Hk] Hr]]; [left; congruence | right; now exists k'].
Qed.

(** X20.  Every templated entry of the Marathon builder's model has an iApp
    definition: [iapp_build_definition] cannot fail on the node names that
    the builder makes.  The definition carries the application's variables
    and one table, named by the application, with one row per member; and
    when the resolved addresses hold no colon, the rows are exactly the
    address, the port and ["0"] of each backend that resolved. *)
Theorem marathon_iapp_definition_defined (pf : platform)
    (partitions : list string) (apps : list app) (cfg : config)
    (n : string) (s : service) :
  _create_config_marathon pf partitions apps = Ok cfg ->
  In (n, s) cfg ->
  svc_iapp s <> None ->
  exists a def tbl,
    In a apps /\ n = frontend_name_of a /\
    iapp_build_definition s = Ok def /\
    def_variables def = iappVariables a /\
    def_tables def = [tbl] /\
    table_name tbl = iappTableName a /\
    List.length (rows tbl) = List.length (svc_nodes s) /\
    ((forall h ip, resolve_ip pf h = Some ip -> count_char ":" ip = O) ->
     forall row, In row (rows tbl) <->
       exists b ip, In b (backends a) /\ resolve_ip pf (host b) = Some ip /\
                    row = [ip; str_of_Z (port b); "0"]).
Proof.
  intros H Hin Hi.
  destruct (@marathon_entries_managed pf partitions apps cfg H _ Hin)
    as [a [Ha [Hs _]]].
  apply marathon_service_inv in Hs.
  destruct Hs as [_ [_ [_ [_ [Hn [health [_ ->]]]]]]].
  simpl in Hi. unfold iapp_build_definition. simpl.
  destruct (truthy (iapp a)); [| congruence].
  unfold marathon_nodes.
  destruct (nodes_fold_spec pf (sorted backend_le (backends a)) [])
    as [_ [I2 _]].
  match type of I2 with
  | forall k, In k (keys ?x) <-> _ => set (nodes := x) in *
  end.
  assert (K : forall k, In k (keys nodes) <->
                        exists b, In b (backends a) /\ node_key pf b = Some k).
  { intros k. rewrite I2. split.
    - intros [[] | [b [Hb Hk]]]. exists b. split; [| exact Hk].
      now apply In_sorted in Hb.
    - intros [b [Hb Hk]]. right. exists b. split; [| exact Hk].
      now apply sorted_In. }
  destruct (iapp_rows_total (keys nodes)) as [rws Hr].
  { intros k Hk. apply K in Hk. destruct Hk as [b [_ Hk]].
    unfold node_key in Hk. destruct (resolve_ip pf (host b)); [| discriminate].
    injection Hk as <-. apply iapp_row_of_key. }
  rewrite Hr. simpl. destruct (iapp_rows_In _ Hr) as [L I].
  exists a. eexists. eexists. split; [exact Ha |]. split; [exact Hn |].
  split; [reflexivity |]. simpl. split; [reflexivity |].
  split; [reflexivity |]. split; [reflexivity |]. split.
  { simpl. rewrite L. unfold keys. apply length_map. }
  intros Hv4 row. simpl. rewrite I. split.
  - intros [k [Hk Hrow]]. apply K in Hk. destruct Hk as [b [Hb Hk]].
    unfold node_key in Hk.
    destruct (resolve_ip pf (host b)) as [ip |] eqn:E; [| discriminate].
    injection Hk as <-. exists b, ip. split; [exact Hb |].
    split; [exact E |]. unfold iapp_row in Hrow.
    destruct (iapp_row_of_key ip (str_of_Z (port b))) as [_ S].
    pose proof (S (Hv4 _ _ E) (str_of_Z_no_colon _)) as S'.
    simpl in S', Hrow. rewrite S' in Hrow. congruence.
  - intros [b [ip [Hb [E ->]]]]. exists (ip ++ ":" ++ str_of_Z (port b)).
    split.
    + apply K. exists b. split; [exact Hb |]. unfold node_key. now rewrite E.
    + unfold iapp_row.
      destruct (iapp_row_of_key ip (str_of_Z (port b))) as [_ S].
      now rewrite (S (Hv4 _ _ E) (str_of_Z_no_colon _)).
Qed.

Lemma marathon_iapp_definition_defined_witness :
  exists s def tbl,
    dict_get templated_cfg "app-i_iapp_80" = Some s /\
    iapp_build_definition s = Ok def /\
    def_tables def = [tbl] /\
    table_name tbl = "pool__members" /\
    List.length (rows tbl) = 2%nat.
Proof.
  destruct (dict_get templated_cfg "app-i_iapp_80") as [s |] eqn:Es;
    [| discriminate Es].
  assert (Hin : In ("app-i_iapp_80", s) templated_cfg).
  { vm_compute in Es. injection Es as <-. vm_compute. left. reflexivity. }
  assert (Hi : svc_iapp s <> None).
  { vm_compute in Es. injection Es as <-. discriminate. }
  destruct (@marathon_iapp_definition_defined test_platform ["prod"]
              [iapp_app] templated_cfg "app-i_iapp_80" s eq_refl Hin Hi)
    as [a [def [tbl [Ha [_ [Hd [_ [Ht [Hn [Hl _]]]]]]]]]].
  exists s, def, tbl. split; [reflexivity |]. split; [exact Hd |].
  split; [exact Ht |].
  destruct Ha as [<- | []]. split; [exact Hn |].
  rewrite Hl. vm_compute in Es. injection Es as <-. reflexivity.
Defined.

(* ===================================================================== *)
(** * Further properties: the Kubernetes builder *)
(* ===================================================================== *)

Lemma str_append_assoc (a b c : string) : (a ++ b) ++ c = a ++ (b ++ c).
Proof. induction a as [| x a IH]; simpl; [reflexivity | now rewrite IH]. Qed.

(** The name and the path of the monitor at position [index] of a
    service. *)
Definition k8s_monitor_name (frontend_name : string) (index : nat) : string :=
  match index with
  | O => frontend_name
  | _ => frontend_name ++ "_" ++ str_of_Z (Z.of_nat index)
  end.

Definition k8s_monitor_path (part frontend_name : string) (index : nat)
    : string :=
  "/" ++ part ++ "/" ++ k8s_monitor_name frontend_name index.

Lemma k8s_monitors_health (part fn : string) (hms : list (dict pyval)) :
  forall index acc,
    fst (k8s_monitors part fn index hms acc)
    = map (fun jh => dict_set (snd jh) "name"
                       (VStr (k8s_monitor_name fn (fst jh))))
          (combine (seq index (List.length hms)) hms).
Proof.
  induction hms as [| h rest IH]; intros index acc; simpl; [reflexivity |].
  match goal with
  | |- context [k8s_monitors part fn (S index) rest ?m] =>
      specialize (IH (S index) m);
      destruct (k8s_monitors part fn (S index) rest m) as [hs ms]
  end.
  simpl in *. rewrite IH. reflexivity.
Qed.

Lemma k8s_monitors_next (part fn : string) (index : nat) (h : dict pyval)
    (rest : list (dict pyval)) (m : string) :
  k8s_monitors part fn (S index) (h :: rest) (Some m)
  = (dict_set h "name" (VStr (k8s_monitor_name fn (S index)))
       :: fst (k8s_monitors part fn (S (S index)) rest
                 (Some ((m ++ " and ") ++ k8s_monitor_path part fn (S index)))),
     snd (k8s_monitors part fn (S (S index)) rest
            (Some ((m ++ " and ") ++ k8s_monitor_path part fn (S index))))).
Proof.
  cbn [k8s_monitors fmt_s].
  change ("/" ++ part ++ "/" ++ fn ++ "_" ++ str_of_Z (Z.of_nat (S index)))
    with (k8s_monitor_path part fn (S index)).
  now destruct (k8s_monitors part fn (S (S index)) rest _).
Qed.

Lemma concat_cons (sep x : string) (l : list string) :
  String.concat sep (x :: l)
  = match l with
    | [] => x
    | _ => x ++ sep ++ String.concat sep l
    end.
Proof. now destruct l. Qed.

Lemma k8s_monitors_joined (part fn : string) (hms : list (dict pyval)) :
  forall index m,
    snd (k8s_monitors part fn (S index) hms (Some m))
    = Some match map (k8s_monitor_path part fn)
                     (seq (S index) (List.length hms)) with
           | [] => m
           | paths => m ++ " and " ++ String.concat " and " paths
           end.
Proof.
  induction hms as [| h rest IH]; intros index m; [reflexivity |].
  rewrite k8s_monitors_next. cbn [snd]. rewrite IH.
  cbn [List.length seq map]. rewrite concat_cons. f_equal.
  destruct (map (k8s_monitor_path part fn)
                (seq (S (S index)) (List.length rest))) as [| p ps].
  - apply str_append_assoc.
  - now rewrite !str_append_assoc.
Qed.

(** X21.  The monitors of a Kubernetes service.  The health monitors are
    named in their order: the first by the service's name, the one at
    position [i > 0] by the name followed by [_i]; and the pool's monitor
    expression is the list of their paths [/partition/name] joined by
    [" and "], or [None] when the service has no health monitor. *)
Theorem k8s_monitors_spec (part fn : string) (hms : list (dict pyval)) :
  k8s_monitors part fn O hms None
  = (map (fun jh => dict_set (snd jh) "name"
                      (VStr (k8s_monitor_name fn (fst jh))))
         (combine (seq O (List.length hms)) hms),
     match hms with
     | [] => None
     | _ => Some (String.concat " and "
                    (map (k8s_monitor_path part fn)
                         (seq O (List.length hms))))
     end).
Proof.
  rewrite (surjective_pairing (k8s_monitors part fn O hms None)).
  rewrite k8s_monitors_health. f_equal.
  destruct hms as [| h rest]; [reflexivity |].
  cbn [k8s_monitors].
  change ("/" ++ part ++ "/" ++ fn) with (k8s_monitor_path part fn O).
  pose proof (k8s_monitors_joined part fn rest O
                (k8s_monitor_path part fn O)) as S.
  destruct (k8s_monitors part fn 1 rest (Some (k8s_monitor_path part fn O)))
    as [hs' ms'].
  cbn [snd] in S |- *. rewrite S. cbn [List.length seq map].
  rewrite concat_cons.
  now destruct (map (k8s_monitor_path part fn) (seq 1 (List.length rest))).
Qed.

(** Three monitors of the service [svc_10.0.0.1_80] of [prod]. *)
Example k8s_three_monitors :
  snd (k8s_monitors "prod" "svc_10.0.0.1_80" O
         [ [("protocol", VStr "http")]; [("protocol", VStr "tcp")];
           [("protocol", VStr "tcp")] ] None)
  = Some ("/prod/svc_10.0.0.1_80 and /prod/svc_10.0.0.1_80_1"
          ++ " and /prod/svc_10.0.0.1_80_2").
Proof. reflexivity. Qed.

Lemma kubernetes_loop_entries (partitions : list string)
    (svcs : list k8s_service) :
  forall (f5 cfg : config),
    _create_config_kubernetes_from partitions svcs f5 = Ok cfg ->
    (NoDup (keys f5) -> NoDup (keys cfg)) /\
    forall e, In e cfg ->
      In e f5 \/
      exists svc, In svc svcs /\ kubernetes_service partitions svc = Ok (Some e).
Proof.
  induction svcs as [| svc svcs IH]; simpl; intros f5 cfg H.
  - injection H as <-. split; [auto |]. intros e He. now left.
  - destruct (kubernetes_service partitions svc) as [[[n s] |] |] eqn:Hs;
      simpl in H; try discriminate.
    + destruct (IH _ _ H) as [I1 I2]. split.
      * intros Hnd. apply I1. now apply NoDup_dict_set.
      * intros e He. destruct (I2 e He) as [Hin | [svc' [Hin Hk]]].
        -- apply In_dict_set in Hin. destruct Hin as [-> | Hin];
             [right; exists svc; auto | now left].
        -- right. exists svc'. auto.
    + destruct (IH _ _ H) as [I1 I2]. split; [exact I1 |].
      intros e He. destruct (I2 e He) as [Hin | [svc' [Hin Hk]]];
        [now left | right; exists svc'; auto].
Qed.

Lemma k8s_nodes_up (prt : string) (addrs : list string) :
  forall acc : dict member_cfg,
    (forall k v, In (k, v) acc -> v = member_up) ->
    forall k v,
      In (k, v) (fold_left (fun nodes node =>
                              dict_set nodes (node ++ ":" ++ prt) member_up)
                           addrs acc) ->
      v = member_up.
Proof.
  induction addrs as [| a addrs IH]; simpl; intros acc H; [exact H |].
  apply IH. intros k v Hin. apply In_dict_set in Hin.
  destruct Hin as [Heq | Hin]; [now injection Heq | eauto].
Qed.

Lemma dict_get_In {V} (c : dict V) (k : string) (v : V) :
  dict_get c k = Some v -> In (k, v) c.
Proof.
  induction c as [| [k0 v0] c IH]; simpl; [discriminate |].
  destruct (String.eqb k k0) eqn:E.
  - apply String.eqb_eq in E. subst k0. intros H. injection H as ->.
    now left.
  - intros H. right. now apply IH.
Qed.

(** X22.  The desired model of the Kubernetes builder.  No name occurs
    twice and every entry is stored under its own name, in a partition that
    [has_partition] accepts.  An entry is either templated or individually
    managed, never both: it has a virtual server and a pool exactly when it
    has no iApp.  Every member is administratively up with an enabled
    session. *)
Theorem kubernetes_config_well_formed (partitions : list string)
    (svcs : list k8s_service) (cfg : config) :
  _create_config_kubernetes partitions svcs = Ok cfg ->
  NoDup (keys cfg) /\
  forall n s, In (n, s) cfg ->
    dict_get cfg n = Some s /\
    svc_name s = n /\
    has_partition partitions (Some (svc_partition s)) = Ok true /\
    (svc_iapp s = None <-> svc_virtual s <> None) /\
    (svc_iapp s = None <-> svc_pool s <> None) /\
    (svc_iapp s <> None -> svc_health s = []) /\
    (forall k data, dict_get (svc_nodes s) k = Some data ->
                    m_state data = "user-up" /\
                    m_session data = "user-enabled").
Proof.
  unfold _create_config_kubernetes. intros H.
  destruct (kubernetes_loop_entries _ _ _ H) as [I1 I2].
  assert (Hnd : NoDup (keys cfg)) by (apply I1; constructor).
  split; [exact Hnd |]. intros n s Hin.
  split; [now apply NoDup_dict_get |].
  destruct (I2 _ Hin) as [[] | [svc [_ Hs]]].
  unfold kubernetes_service in Hs. rewrite has_partition_total in Hs.
  simpl in Hs.
  destruct (truthy (fe_partition (vs_frontend svc))) eqn:Ep;
    [| discriminate].
  destruct (orb (mem "*" partitions) _) eqn:Em; [| discriminate].
  simpl in Hs.
  assert (Hp : has_partition partitions
                 (Some (fmt_s (fe_partition (vs_frontend svc)))) = Ok true).
  { rewrite has_partition_total.
    destruct (fe_partition (vs_frontend svc)); [| discriminate].
    simpl in *. now rewrite Ep, Em. }
  assert (Hup : forall nodes k data,
             nodes = fold_left
                       (fun nodes node =>
                          dict_set nodes
                            (node ++ ":"
                               ++ str_of_Z (poolMemberPort (vs_backend svc)))
                            member_up)
                       (poolMemberAddrs (vs_backend svc)) [] ->
             dict_get nodes k = Some data ->
             m_state data = "user-up" /\ m_session data = "user-enabled").
  { intros nodes k data -> Hd. apply dict_get_In in Hd.
    rewrite (k8s_nodes_up _ _ []
               (fun k v (F : In (k, v) []) => match F with end) _ _ Hd).
    now split. }
  destruct (fe_iapp (vs_frontend svc)) as [tmpl |].
  - destruct (match fe_virtualAddress (vs_frontend svc) with
              | Some va => va_bindAddr va
              | None => None
              end); injection Hs as <- <-; simpl;
      (split; [reflexivity |]); (split; [exact Hp |]);
      (split; [split; [discriminate | congruence] |]);
      (split; [split; [discriminate | congruence] |]);
      (split; [reflexivity |]); intros k data; now apply Hup.
  - destruct (match fe_virtualAddress (vs_frontend svc) with
              | Some va => va_bindAddr va
              | None => None
              end) as [addr |]; [| discriminate].
    destruct (k8s_monitors _ _ O _ None) as [health monitors].
    injection Hs as <- <-. simpl.
    split; [reflexivity |]. split; [exact Hp |].
    split; [split; [discriminate | reflexivity] |].
    split; [split; [discriminate | reflexivity] |].
    split; [congruence |]. intros k data. now apply Hup.
Qed.

(** A service with a virtual address and two monitors, and a templated
    service of the same backend. *)
Definition k8s_frontend (ia : option string) : frontend :=
  {| fe_partition := Some "prod";
     fe_virtualAddress :=
       Some {| va_bindAddr := Some "10.0.0.5"; va_port := 80 |};
     fe_iapp := ia;
     fe_iappTableName := "pool__members";
     fe_iappVariables := [("pool__addr", "10.0.0.5")];
     fe_iappOptions := [];
     fe_sslProfile := None;
     fe_mode := VStr "http";
     fe_balance := "round-robin" |}.

Definition k8s_svcs : list k8s_service :=
  [ {| vs_frontend := k8s_frontend None;
       vs_backend :=
         {| serviceName := "web"; be_servicePort := 8080;
            poolMemberPort := 30080;
            poolMemberAddrs := ["172.16.0.1"; "172.16.0.2"];
            healthMonitors := [ [("protocol", VStr "http")];
                                [("protocol", VStr "tcp")] ] |} |};
    {| vs_frontend := k8s_frontend (Some "/Common/f5.http");
       vs_backend :=
         {| serviceName := "web"; be_servicePort := 8080;
            poolMemberPort := 30080;
            poolMemberAddrs := ["172.16.0.1"];
            healthMonitors := [] |} |} ].

Definition k8s_cfg : config :=
  or_empty (_create_config_kubernetes ["prod"] k8s_svcs).

Lemma kubernetes_config_well_formed_witness :
  keys k8s_cfg = ["web_10.0.0.5_80"; "web_iapp_80"] /\
  NoDup (keys k8s_cfg) /\
  forall n s, In (n, s) k8s_cfg ->
    svc_name s = n /\ (svc_iapp s = None <-> svc_virtual s <> None).
Proof.
  split; [reflexivity |].
  destruct (@kubernetes_config_well_formed ["prod"] k8s_svcs k8s_cfg eq_refl)
    as [Hnd H].
  split; [exact Hnd |]. intros n s Hin.
  destruct (H n s Hin) as [_ [H1 [_ [H2 _]]]]. now split.
Defined.

(* ===================================================================== *)
(** * Further properties: the node sweep *)
(* ===================================================================== *)

(** X23.  The sweep where no pool is shadowed.  When every pool of the
    partition is the first of its name in the pool collection and the node
    names of the partition are distinct, a sweep that returns has deleted
    exactly the nodes of the partition that no member of its pools refers
    to, and has modified exactly the referenced nodes that were not up or
    unchecked with an enabled session. *)
Theorem sweep_deletes_exactly_unreferenced (b b' : bigip) (partition : string)
    (log : list node_event) (n : string) :
  NoDup (get_node_list b partition) ->
  unshadowed b partition ->
  cleanup_nodes b partition = Ok (b', log) ->
  In n (get_node_list b partition) ->
  (In (Node_delete n) log <-> ~ referenced b partition n) /\
  (In (Node_modify n) log <->
   referenced b partition n /\ unhealthy_in b partition n).
Proof.
  intros Hnd Hun H. exact (cleanup_nodes_unshadowed Hnd Hun H n).
Qed.

Lemma three_node_bigip_unshadowed : unshadowed three_node_bigip "prod".
Proof.
  intros p [<- | [<- | []]] _; reflexivity.
Qed.

Lemma sweep_deletes_exactly_unreferenced_witness :
  (In (Node_delete "10.1.0.3")
      [Node_modify "10.1.0.2"; Node_delete "10.1.0.3"] <->
   ~ referenced three_node_bigip "prod" "10.1.0.3") /\
  (In (Node_modify "10.1.0.3")
      [Node_modify "10.1.0.2"; Node_delete "10.1.0.3"] <->
   referenced three_node_bigip "prod" "10.1.0.3" /\
   unhealthy_in three_node_bigip "prod" "10.1.0.3").
Proof.
  apply (@sweep_deletes_exactly_unreferenced three_node_bigip
           {| ltm_pools := ltm_pools three_node_bigip;
              ltm_nodes :=
                [ {| node_name := "10.1.0.1"; node_partition := "prod";
                     node_state := "up";
                     node_session := "monitor-enabled" |};
                  {| node_name := "10.1.0.2"; node_partition := "prod";
                     node_state := "user-up";
                     node_session := "user-enabled" |} ] |}
           "prod" [Node_modify "10.1.0.2"; Node_delete "10.1.0.3"]
           "10.1.0.3").
  - simpl. repeat constructor; simpl; intuition discriminate.
  - exact three_node_bigip_unshadowed.
  - reflexivity.
  - simpl. auto.
Defined.

(** The nodes outside [partition]. *)
Definition nodes_outside (partition : string) (nodes : list node_obj)
    : list node_obj :=
  filter (fun node => negb (String.eqb (node_partition node) partition)) nodes.

Lemma is_node_partition (partition name : string) (node : node_obj) :
  is_node partition name node = true ->
  String.eqb (node_partition node) partition = true.
Proof. unfold is_node. intros H. now apply andb_true_iff in H. Qed.

Lemma outside_modify (partition name s1 s2 : string) (nodes : list node_obj) :
  nodes_outside partition (modify_first partition name s1 s2 nodes)
  = nodes_outside partition nodes.
Proof.
  induction nodes as [| node nodes IH]; simpl; [reflexivity |].
  destruct (is_node partition name node) eqn:E; simpl.
  - now rewrite (is_node_partition _ _ _ E).
  - now rewrite IH.
Qed.

Lemma outside_delete (partition name : string) (nodes : list node_obj) :
  nodes_outside partition (delete_first partition name nodes)
  = nodes_outside partition nodes.
Proof.
  induction nodes as [| node nodes IH]; simpl; [reflexivity |].
  destruct (is_node partition name node) eqn:E; simpl.
  - now rewrite (is_node_partition _ _ _ E).
  - now rewrite IH.
Qed.

(** What the loop over the members keeps, whatever the pools hold. *)
Lemma sweep_members_keeps (partition : string) (members : list string) :
  forall st st',
    sweep_members partition st members = Ok st' ->
    ltm_pools (sw_bigip st') = ltm_pools (sw_bigip st) /\
    nodes_outside partition (ltm_nodes (sw_bigip st'))
    = nodes_outside partition (ltm_nodes (sw_bigip st)) /\
    (forall n, In n (sw_node_list st') -> In n (sw_node_list st)) /\
    (forall e, In e (sw_log st') ->
               In e (sw_log st) \/
               exists n, e = Node_modify n /\ In n (sw_node_list st)).
Proof.
  induction members as [| m members IH]; simpl; intros st st' H.
  - injection H as <-. auto.
  - destruct (sweep_member partition st m) as [st1 |] eqn:E; simpl in H;
      try discriminate.
    destruct (IH _ _ H) as [I1 [I2 [I3 I4]]].
    apply sweep_member_spec in E.
    destruct E as [name [_ [Hp [[_ ->] | [Hm [Hl [node [_ Hh]]]]]]]];
      [auto |].
    assert (Hsub : forall n, In n (sw_node_list st1) ->
                             In n (sw_node_list st)).
    { intros n Hn. rewrite Hl in Hn. now apply remove_first_In in Hn. }
    split; [congruence |]. split; [| split].
    + rewrite I2. destruct Hh as [[_ [-> _]] | [_ [-> _]]]; [reflexivity |].
      simpl. apply outside_modify.
    + auto.
    + intros e He. destruct (I4 e He) as [Hin | [n [-> Hn]]].
      * destruct Hh as [[_ [_ Hlog]] | [_ [_ Hlog]]]; rewrite Hlog in Hin;
          [now left |].
        apply In_log_snoc in Hin. destruct Hin as [Hin | ->]; [now left |].
        right. exists name. split; [reflexivity | now apply mem_In].
      * right. exists n. auto.
Qed.

Lemma sweep_pools_keeps (partition : string) (pools : list string) :
  forall st st',
    sweep_pools partition st pools = Ok st' ->
    ltm_pools (sw_bigip st') = ltm_pools (sw_bigip st) /\
    nodes_outside partition (ltm_nodes (sw_bigip st'))
    = nodes_outside partition (ltm_nodes (sw_bigip st)) /\
    (forall n, In n (sw_node_list st') -> In n (sw_node_list st)) /\
    (forall e, In e (sw_log st') ->
               In e (sw_log st) \/
               exists n, e = Node_modify n /\ In n (sw_node_list st)).
Proof.
  induction pools as [| pool pools IH]; simpl; intros st st' H.
  - injection H as <-. auto.
  - destruct (get_pool_member_list (sw_bigip st) partition pool)
      as [ms |]; simpl in H; try discriminate.
    destruct (sweep_members partition st ms) as [st1 |] eqn:E; simpl in H;
      try discriminate.
    destruct (sweep_members_keeps _ _ _ E) as [M1 [M2 [M3 M4]]].
    destruct (IH _ _ H) as [I1 [I2 [I3 I4]]].
    split; [congruence |]. split; [congruence |]. split; [auto |].
    intros e He. destruct (I4 e He) as [Hin | [n [-> Hn]]]; auto.
    right. exists n. auto.
Qed.

Lemma sweep_delete_keeps (partition : string) (node_list : list string) :
  forall b log b' log',
    sweep_delete partition b log node_list = Ok (b', log') ->
    ltm_pools b' = ltm_pools b /\
    nodes_outside partition (ltm_nodes b')
    = nodes_outside partition (ltm_nodes b).
Proof.
  induction node_list as [| n node_list IH]; simpl; intros b log b' log' H.
  - injection H as <- _. auto.
  - unfold node_delete in H.
    destruct (get_node b partition n); simpl in H; try discriminate.
    destruct (IH _ _ _ _ H) as [I1 I2]. simpl in *.
    split; [exact I1 |]. rewrite I2. apply outside_delete.
Qed.

(** X24.  The sweep stays in its partition.  Whatever the pools and nodes of
    the device are, a sweep that returns has left the pools as they were,
    has left every node of every other partition in place and unchanged,
    and has deleted or modified only nodes that were listed for the
    partition when it began. *)
Theorem sweep_stays_in_partition (b b' : bigip) (partition : string)
    (log : list node_event) :
  cleanup_nodes b partition = Ok (b', log) ->
  ltm_pools b' = ltm_pools b /\
  nodes_outside partition (ltm_nodes b')
  = nodes_outside partition (ltm_nodes b) /\
  forall n, In (Node_delete n) log \/ In (Node_modify n) log ->
            In n (get_node_list b partition).
Proof.
  unfold cleanup_nodes. intros H.
  destruct (sweep_pools partition _ (get_pool_list b partition))
    as [st |] eqn:E; simpl in H; try discriminate.
  destruct (sweep_pools_keeps _ _ _ E) as [P1 [P2 [P3 P4]]]. simpl in *.
  destruct (sweep_delete_keeps _ _ _ _ H) as [D1 D2].
  split; [congruence |]. split; [congruence |].
  apply sweep_delete_log in H. subst log. intros n Hn.
  assert (Hin : In (Node_delete n) (map Node_delete (sw_node_list st)) \/
                In (Node_modify n) (sw_log st)).
  { destruct Hn as [Hn | Hn]; apply in_app_or in Hn;
      destruct Hn as [Hn | Hn]; auto.
    - destruct (P4 _ Hn) as [[] | [x [Hx _]]]. discriminate.
    - apply in_map_iff in Hn. destruct Hn as [x [Hx _]]. discriminate. }
  destruct Hin as [Hin | Hin].
  - apply in_map_iff in Hin. destruct Hin as [x [Hx Hin]].
    injection Hx as ->. now apply P3.
  - destruct (P4 _ Hin) as [[] | [x [Hx Hin']]]. now injection Hx as ->.
Qed.

(** A BIG-IP with nodes in two partitions; the node of [dev] is disabled
    and nothing refers to it. *)
Definition two_partition_bigip : bigip :=
  {| ltm_pools :=
       [ {| pool_name := "web"; pool_partition := "prod";
            pool_members := ["10.1.0.1:80"] |} ];
     ltm_nodes :=
       [ {| node_name := "10.1.0.1"; node_partition := "prod";
            node_state := "up"; node_session := "monitor-enabled" |};
         {| node_name := "10.9.9.9"; node_partition := "dev";
            node_state := "user-down"; node_session := "user-disabled" |};
         {| node_name := "10.1.0.7"; node_partition := "prod";
            node_state := "unchecked"; node_session := "user-enabled" |} ] |}.

Lemma sweep_stays_in_partition_witness :
  nodes_outside "prod"
    [ {| node_name := "10.1.0.1"; node_partition := "prod";
         node_state := "up"; node_session := "monitor-enabled" |};
      {| node_name := "10.9.9.9"; node_partition := "dev";
         node_state := "user-down"; node_session := "user-disabled" |} ]
  = nodes_outside "prod" (ltm_nodes two_partition_bigip) /\
  forall n, In (Node_delete n) [Node_delete "10.1.0.7"] \/
            In (Node_modify n) [Node_delete "10.1.0.7"] ->
            In n (get_node_list two_partition_bigip "prod").
Proof.
  destruct (@sweep_stays_in_partition two_partition_bigip
              {| ltm_pools := ltm_pools two_partition_bigip;
                 ltm_nodes :=
                   [ {| node_name := "10.1.0.1"; node_partition := "prod";
                        node_state := "up";
                        node_session := "monitor-enabled" |};
                     {| node_name := "10.9.9.9"; node_partition := "dev";
                        node_state := "user-down";
                        node_session := "user-disabled" |} ] |}
              "prod" [Node_delete "10.1.0.7"] eq_refl) as [_ H].
  exact H.
Defined.

Lemma find_modify_none (partition name n s1 s2 : string)
    (nodes : list node_obj) :
  find (is_node partition n) nodes <> None ->
  find (is_node partition n) (modify_first partition name s1 s2 nodes)
  <> None.
Proof.
  induction nodes as [| node nodes IH]; simpl; [auto |].
  destruct (is_node partition name node) eqn:E; simpl.
  - change (is_node partition n
              {| node_name := node_name node;
                 node_partition := node_partition node;
                 node_state := s1; node_session := s2 |})
      with (is_node partition n node).
    destruct (is_node partition n node); [discriminate | auto].
  - destruct (is_node partition n node); auto.
Qed.

Lemma find_delete_other (partition name n : string) (nodes : list node_obj) :
  n <> name ->
  find (is_node partition n) (delete_first partition name nodes)
  = find (is_node partition n) nodes.
Proof.
  intros Hne. induction nodes as [| node nodes IH]; simpl; [reflexivity |].
  destruct (is_node partition name node) eqn:E; simpl.
  - unfold is_node in E |- *. apply andb_true_iff in E. destruct E as [E _].
    apply String.eqb_eq in E. rewrite E.
    assert (F : String.eqb name n = false)
      by (apply String.eqb_neq; congruence).
    now rewrite F.
  - now rewrite IH.
Qed.

Lemma listed_node_exists (b : bigip) (partition n : string) :
  In n (get_node_list b partition) -> get_node b partition n <> None.
Proof.
  unfold get_node_list, get_node. induction (ltm_nodes b) as [| node l IH];
    simpl; [tauto |].
  destruct (String.eqb (node_partition node) partition) eqn:Ep; simpl.
  - intros [<- | H].
    + unfold is_node. rewrite String.eqb_refl, Ep. discriminate.
    + destruct (is_node partition n node); [discriminate | auto].
  - intros H. destruct (is_node partition n node); [discriminate | auto].
Qed.

(** Every name still in the node list has its node on the device. *)
Definition nodes_present (partition : string) (st : sweep) : Prop :=
  forall n, In n (sw_node_list st) ->
            get_node (sw_bigip st) partition n <> None.

Lemma sweep_members_total (partition : string) (members : list string) :
  forall st,
    nodes_present partition st ->
    (forall m, In m members -> member_node m <> None) ->
    exists st', sweep_members partition st members = Ok st' /\
                nodes_present partition st'.
Proof.
  induction members as [| m members IH]; simpl; intros st Hp Hm;
    [eauto |].
  assert (E : exists st1, sweep_member partition st m = Ok st1 /\
                          nodes_present partition st1).
  { pose proof (Hm m (or_introl eq_refl)) as Hw.
    unfold member_node in Hw. unfold sweep_member.
    destruct (split ":" m) as [| name [| prt [| x r]]]; try congruence.
    destruct (mem name (sw_node_list st)) eqn:Em; [| eauto].
    pose proof (Hp name (proj1 (mem_In _ _) Em)) as Hn.
    destruct (get_node (sw_bigip st) partition name) as [node |];
      [| congruence].
    destruct (andb _ _); eexists; (split; [reflexivity |]);
      intros n Hin; simpl in *; apply remove_first_In in Hin.
    - now apply Hp.
    - unfold get_node. simpl. apply find_modify_none. now apply Hp. }
  destruct E as [st1 [-> Hp1]]. simpl.
  apply IH; [exact Hp1 |]. intros m' Hm'. apply Hm. now right.
Qed.

Lemma sweep_delete_total (partition : string) (node_list : list string) :
  forall b log,
    NoDup node_list ->
    (forall n, In n node_list -> get_node b partition n <> None) ->
    exists b' log', sweep_delete partition b log node_list = Ok (b', log').
Proof.
  induction node_list as [| n node_list IH]; simpl; intros b log Hnd Hp;
    [eauto |].
  apply NoDup_cons_iff in Hnd. destruct Hnd as [Hn Hnd].
  unfold node_delete.
  destruct (get_node b partition n) eqn:E;
    [| exfalso; apply (Hp n (or_introl eq_refl)); exact E].
  simpl. apply IH; [exact Hnd |].
  intros n' Hn'. unfold get_node. simpl.
  rewrite find_delete_other by (intros ->; contradiction).
  apply Hp. now right.
Qed.

(** X25.  When the sweep returns.  With distinct node names, no shadowed
    pool, and every member of the partition's pools named [address:port]
    with exactly one colon, [cleanup_nodes] returns: its own code raises
    nothing. *)
Theorem sweep_returns (b : bigip) (partition : string) :
  NoDup (get_node_list b partition) ->
  unshadowed b partition ->
  (forall p m, In p (ltm_pools b) -> pool_partition p = partition ->
               In m (pool_members p) -> member_node m <> None) ->
  exists b' log, cleanup_nodes b partition = Ok (b', log).
Proof.
  intros Hnd Hun Hm. unfold cleanup_nodes, get_pool_list.
  rewrite sweep_pools_as_members.
  2:{ simpl. intros p Hp. apply filter_In in Hp. destruct Hp as [Hp Hpart].
      apply String.eqb_eq in Hpart. exact (Hun p Hp Hpart). }
  destruct (@sweep_members_total partition
              (flat_map pool_members
                 (filter (fun pool => String.eqb (pool_partition pool)
                                                 partition)
                         (ltm_pools b)))
              {| sw_bigip := b;
                 sw_node_list := get_node_list b partition;
                 sw_log := [] |}) as [st [Hs Hp]].
  - intros n Hn. simpl in *. now apply listed_node_exists.
  - intros m Hin. apply in_flat_map in Hin. destruct Hin as [p [Hp Hin]].
    apply filter_In in Hp. destruct Hp as [Hp Hpart].
    apply String.eqb_eq in Hpart. now apply (Hm p m).
  - rewrite Hs. simpl.
    apply sweep_members_spec in Hs; [| exact Hnd].
    destruct Hs as [_ [Hnd' _]].
    now apply sweep_delete_total.
Qed.

Lemma sweep_returns_witness :
  exists b' log, cleanup_nodes three_node_bigip "prod" = Ok (b', log).
Proof.
  apply (@sweep_returns three_node_bigip "prod").
  - simpl. repeat constructor; simpl; intuition discriminate.
  - exact three_node_bigip_unshadowed.
  - intros p m [<- | [<- | []]] _ Hin; simpl in Hin;
      repeat (destruct Hin as [<- | Hin]; [vm_compute; discriminate |]);
      destruct Hin.
Defined.

(* ===================================================================== *)
(** * Further properties: the listing of the monitors *)
(* ===================================================================== *)

(** A health monitor of the device: [hc.name] and [hc.partition]. *)
Record monitor_obj : Type := {
  hc_name : string;
  hc_partition : string }.

(** One loop of [get_healthcheck_list]: every monitor of the partition is
    entered under its name, [healthcheck_dict.update({hc.name: {'type': ty}})];
    the entry [{'type': ty}] is kept as [ty]. *)
Definition tag_monitors (partition ty : string)
    (healthchecks : list monitor_obj) (healthcheck_dict : dict string)
    : dict string :=
  fold_left (fun acc hc =>
               if String.eqb (hc_partition hc) partition
               then dict_set acc (hc_name hc) ty
               else acc)
            healthchecks healthcheck_dict.

(** [CloudBigIP.get_healthcheck_list(partition)] over the collection of the
    http monitors and that of the tcp monitors. *)
Definition get_healthcheck_list (https tcps : list monitor_obj)
    (partition : string) : dict string :=
  tag_monitors partition "tcp" tcps (tag_monitors partition "http" https []).

(** The names of the monitors of a collection that are in the partition. *)
Definition monitor_names (partition : string) (hcs : list monitor_obj)
    : list string :=
  map hc_name
      (filter (fun hc => String.eqb (hc_partition hc) partition) hcs).

Lemma tag_monitors_get (partition ty : string) (hcs : list monitor_obj) :
  forall acc n,
    dict_get (tag_monitors partition ty hcs acc) n
    = if mem n (monitor_names partition hcs) then Some ty
      else dict_get acc n.
Proof.
  unfold tag_monitors, monitor_names.
  induction hcs as [| hc hcs IH]; simpl; intros acc n; [reflexivity |].
  rewrite IH. destruct (String.eqb (hc_partition hc) partition); simpl;
    [| reflexivity].
  rewrite dict_get_set. unfold mem. simpl.
  destruct (String.eqb n (hc_name hc)); simpl;
    [now destruct (existsb _ _) | reflexivity].
Qed.

Lemma tag_monitors_keys (partition ty : string) (hcs : list monitor_obj) :
  forall acc,
    NoDup (keys acc) ->
    NoDup (keys (tag_monitors partition ty hcs acc)) /\
    forall n, In n (keys (tag_monitors partition ty hcs acc)) <->
              In n (monitor_names partition hcs) \/ In n (keys acc).
Proof.
  unfold tag_monitors, monitor_names.
  induction hcs as [| hc hcs IH]; simpl; intros acc Hnd.
  - split; [exact Hnd | intros n; tauto].
  - destruct (String.eqb (hc_partition hc) partition); simpl.
    + destruct (IH (dict_set acc (hc_name hc) ty)
                  (NoDup_dict_set _ _ _ Hnd)) as [H1 H2].
      split; [exact H1 |]. intros n. rewrite H2, keys_dict_set.
      split; [intros [H | [-> | H]] | intros [[<- | H] | H]]; auto.
    + now apply IH.
Qed.

(** X26.  The listing of the monitors of a partition.  The dictionary holds
    each name once; its names are those of the http and of the tcp monitors
    of the partition; and a name is listed as [tcp] whenever a tcp monitor
    of the partition bears it, as [http] only when none does: of two
    monitors of one name, the http one is not listed. *)
Theorem get_healthcheck_list_spec (https tcps : list monitor_obj)
    (partition : string) :
  let l := get_healthcheck_list https tcps partition in
  NoDup (keys l) /\
  (forall n, In n (keys l) <->
             In n (monitor_names partition https) \/
             In n (monitor_names partition tcps)) /\
  (forall n, dict_get l n =
             if mem n (monitor_names partition tcps) then Some "tcp"
             else if mem n (monitor_names partition https) then Some "http"
             else None).
Proof.
  unfold get_healthcheck_list.
  destruct (@tag_monitors_keys partition "http" https [])
    as [H1 H2]; [constructor |].
  destruct (@tag_monitors_keys partition "tcp" tcps _ H1) as [H3 H4].
  split; [exact H3 |]. split.
  - intros n. rewrite H4, H2. simpl. tauto.
  - intros n. now rewrite !tag_monitors_get.
Qed.

Ltac quiet :=
  repeat first
    [ apply emits_ret
    | apply emits_lift
    | apply emits_ask; exact I
    | apply emits_ask_healthchecks; exact I
    | apply emits_perform; exact I
    | apply emits_bind_lift; intros ? _
    | apply emits_bind; [| intros ?]
    | apply emits_for_each; intros ? _
    | progress unfold apply_members ].

(** X27.  The type under which a monitor is deleted.  On a device whose
    listing of the monitors is [get_healthcheck_list], every monitor that
    the pass deletes is deleted under the type it was listed with: as a tcp
    monitor when a tcp monitor of the partition bears the name, as an http
    monitor only when an http monitor bears it and no tcp monitor does.  An
    http monitor that shares its name with a tcp monitor is never
    deleted. *)
Theorem monitor_deleted_under_listed_type (W : Type) (d : device W)
    (cfg : config) (partition : string) (https tcps : list monitor_obj)
    (w : W) (hc ty : string) :
  (forall w0 w1 hd, dev_healthchecks d partition w0 = (w1, Ok hd) ->
                    hd = get_healthcheck_list https tcps partition) ->
  In (Do (Healthcheck_delete partition hc ty))
     (trace (apply_partition d cfg partition w)) ->
  (ty = "tcp" /\ In hc (monitor_names partition tcps)) \/
  (ty = "http" /\ In hc (monitor_names partition https) /\
   ~ In hc (monitor_names partition tcps)).
Proof.
  intros Hdev Hin.
  set (P := fun e =>
              match e with
              | Do (Healthcheck_delete _ n t) =>
                  dict_get (get_healthcheck_list https tcps partition) n
                  = Some t
              | _ => True
              end).
  assert (F : emits P (apply_partition d cfg partition)).
  { unfold apply_partition. cbv zeta.
    apply emits_bind; [quiet |]. intros f5_iapp_list.
    apply emits_bind; [quiet |]. intros _.
    apply emits_bind; [quiet |]. intros _.
    apply emits_bind; [quiet |]. intros _.
    apply emits_bind_lift. intros marathon_healthcheck_list _.
    apply emits_bind; [quiet |]. intros f5_pool_list.
    apply emits_bind; [quiet |]. intros f5_virtual_list.
    apply emits_bind_ask_healthchecks; [exact I |].
    intros hd [w0 [w1 Hhd]]. apply Hdev in Hhd. subst hd.
    apply emits_bind; [quiet |]. intros _.
    apply emits_bind; [quiet |]. intros _.
    apply emits_bind.
    { apply emits_for_each_entry. intros n t _ Ht.
      apply getitem_Ok in Ht. exact Ht. }
    intros _. quiet. }
  specialize (F w). rewrite Forall_forall in F. specialize (F _ Hin).
  unfold P in F.
  unfold get_healthcheck_list in F. rewrite !tag_monitors_get in F.
  change (dict_get [] hc) with (@None string) in F.
  destruct (mem hc (monitor_names partition tcps)) eqn:E1.
  - injection F as <-. left. split; [reflexivity | now apply mem_In].
  - destruct (mem hc (monitor_names partition https)) eqn:E2;
      [| discriminate].
    injection F as <-. right. split; [reflexivity |].
    split; [now apply mem_In | now apply mem_not_In].
Qed.

(** A BIG-IP with a stale http monitor and a stale tcp monitor of one
    name, and nothing else. *)
Definition twin_monitors_device : device unit :=
  {| dev_names := fun _ w => (w, Ok []);
     dev_healthchecks := fun p w =>
       (w, Ok (get_healthcheck_list
                 [ {| hc_name := "stale"; hc_partition := "prod" |} ]
                 [ {| hc_name := "stale"; hc_partition := "prod" |} ] p));
     dev_do := fun _ w => (w, Ok tt) |}.

Lemma monitor_deleted_under_listed_type_witness :
  ("tcp" = "tcp" /\
   In "stale" (monitor_names "prod"
                 [ {| hc_name := "stale"; hc_partition := "prod" |} ])) \/
  ("tcp" = "http" /\
   In "stale" (monitor_names "prod"
                 [ {| hc_name := "stale"; hc_partition := "prod" |} ]) /\
   ~ In "stale" (monitor_names "prod"
                   [ {| hc_name := "stale"; hc_partition := "prod" |} ])).
Proof.
  apply (@monitor_deleted_under_listed_type unit twin_monitors_device
           monitored_cfg "prod"
           [ {| hc_name := "stale"; hc_partition := "prod" |} ]
           [ {| hc_name := "stale"; hc_partition := "prod" |} ]
           tt "stale" "tcp").
  - intros w0 w1 hd H. injection H as _ <-. reflexivity.
  - vm_compute. do 4 right. left. reflexivity.
Defined.

(** On [twin_monitors_device] the tcp monitor is deleted and the http
    monitor of the same name is not. *)
Example twin_monitors_pass :
  let t := trace (apply_partition twin_monitors_device monitored_cfg
                    "prod" tt) in
  In (Do (Healthcheck_delete "prod" "stale" "tcp")) t /\
  ~ In (Do (Healthcheck_delete "prod" "stale" "http")) t.
Proof.
  split.
  - vm_compute. do 4 right. left. reflexivity.
  - vm_compute. intuition discriminate.
Qed.

(* ===================================================================== *)
(** * Further properties: what a completed pass has done *)
(* ===================================================================== *)

Lemma bind_ok_In {W A B} (m : M W A) (k : A -> M W B) (w : W) (b : B)
    (t : list event) :
  outcome (bind m k w) = Ok b ->
  incl (trace (bind m k w)) t ->
  exists a, outcome (m w) = Ok a /\
            incl (trace (m w)) t /\
            outcome (k a (final (m w))) = Ok b /\
            incl (trace (k a (final (m w)))) t.
Proof.
  intros H I. destruct (bind_ok _ _ _ H) as [a [Ha [Hk E]]].
  exists a. rewrite E in I. split; [exact Ha |].
  split; [intros e He; apply I, in_or_app; now left |].
  split; [exact Hk |]. intros e He. apply I, in_or_app. now right.
Qed.

Lemma lift_ok {W A} (r : result A) (w : W) (a : A) :
  outcome (lift r w) = Ok a -> r = Ok a.
Proof. destruct r; simpl; congruence. Qed.

Lemma perform_trace {W} (d : device W) (c : command) (w : W) :
  trace (perform d c w) = [Do c].
Proof. unfold perform. now destruct (dev_do d c w). Qed.

(** A loop over names that returned has issued the call of every name, with
    the value looked up for it. *)
Lemma for_each_entry_done {W A} (d : device W) (l : list string)
    (r : string -> result A) (c : string -> A -> command) (w : W)
    (t : list event) (x : string) :
  outcome (for_each l (fun x => bind (lift (r x))
                                     (fun a => perform d (c x a))) w)
  = Ok tt ->
  incl (trace (for_each l (fun x => bind (lift (r x))
                                         (fun a => perform d (c x a))) w))
       t ->
  In x l ->
  exists a, r x = Ok a /\ In (Do (c x a)) t.
Proof.
  intros H I Hx. destruct (for_each_ok _ _ _ H x Hx) as [w' [Ho Hi]].
  cbv beta in Ho, Hi. destruct (r x) as [a | e].
  - exists a. split; [reflexivity |]. apply I, Hi.
    unfold bind. simpl. rewrite perform_trace. now left.
  - discriminate Ho.
Qed.

(** The same for the loops over the health monitors of each name. *)
Lemma for_each_items_done {W A B} (d : device W) (l : list string)
    (r : string -> result A) (items : A -> list B)
    (c : string -> B -> command) (w : W) (t : list event) (x : string) :
  outcome (for_each l (fun x =>
             bind (lift (r x))
                  (fun a => for_each (items a)
                              (fun item => perform d (c x item)))) w)
  = Ok tt ->
  incl (trace (for_each l (fun x =>
                 bind (lift (r x))
                      (fun a => for_each (items a)
                                  (fun item => perform d (c x item)))) w))
       t ->
  In x l ->
  exists a, r x = Ok a /\
            forall item, In item (items a) -> In (Do (c x item)) t.
Proof.
  intros H I Hx. destruct (for_each_ok _ _ _ H x Hx) as [w' [Ho Hi]].
  cbv beta in Ho, Hi. destruct (r x) as [a | e].
  - exists a. split; [reflexivity |]. intros item Hitem.
    unfold bind in Ho, Hi. simpl in Ho, Hi.
    destruct (for_each_ok _ _ _ Ho item Hitem) as [w'' [_ Hi']].
    apply I, Hi, Hi'. rewrite perform_trace. now left.
  - discriminate Ho.
Qed.

(** What a returned member phase has done for one pool. *)
Lemma apply_members_done (W : Type) (d : device W) (cfg : config)
    (partition pool : string) (s : service) (w : W) (t : list event) :
  outcome (apply_members d cfg partition pool w) = Ok tt ->
  incl (trace (apply_members d cfg partition pool w)) t ->
  dict_get cfg pool = Some s ->
  In (Read (Pool_member_list partition pool)) t /\
  forall m data, dict_get (svc_nodes s) m = Some data ->
    In (Do (Member_create partition pool m data)) t \/
    In (Do (Member_update partition pool m data)) t.
Proof.
  unfold apply_members. intros H I Hs.
  destruct (bind_ok_In _ _ _ H I) as [f5 [_ [I0 [H1 I1]]]].
  clear H I. split.
  { apply I0. unfold ask. destruct (dev_names d _ w). now left. }
  destruct (bind_ok_In _ _ _ H1 I1) as [s' [Hs' [_ [H2 I2]]]].
  apply lift_ok, getitem_Ok in Hs'. rewrite Hs in Hs'. injection Hs' as <-.
  clear H1 I1. simpl in H2, I2.
  destruct (bind_ok_In _ _ _ H2 I2) as [[] [_ [_ [H3 I3]]]]. clear H2 I2.
  destruct (bind_ok_In _ _ _ H3 I3) as [[] [H4 [I4 [H5 I5]]]]. clear H3 I3.
  intros m data Hm.
  pose proof (dict_get_In_keys _ _ Hm) as Hk.
  destruct (in_dec string_dec m f5) as [Hin | Hout].
  - right.
    destruct (@for_each_entry_done _ _ d _
                (fun member => getitem (svc_nodes s) member)
                (fun member data => Member_update partition pool member data)
                _ t m H5 I5
                (proj2 (In_list_intersect _ _ m) (conj Hk Hin)))
      as [data' [Hd Hc]].
    apply getitem_Ok in Hd. rewrite Hm in Hd. injection Hd as <-. exact Hc.
  - left.
    destruct (@for_each_entry_done _ _ d _
                (fun member => getitem (svc_nodes s) member)
                (fun member data => Member_create partition pool member data)
                _ t m H4 I4
                (proj2 (In_list_diff _ _ m) (conj Hk Hout)))
      as [data' [Hd Hc]].
    apply getitem_Ok in Hd. rewrite Hm in Hd. injection Hd as <-. exact Hc.
Qed.

(** X28.  What a completed pass has called.  When the pass over a partition
    returns, then for every individually managed service that the
    configuration holds for the partition: the create or the update of a
    pool was called under the service's name, and the create or the update
    of a virtual server, each with the service's entry; the member list of
    that pool was read, and for every member of the service's node list the
    create or the update of the member was called with its state; and when
    one of the service's health checks names a protocol, the health check
    that bears the service's name was handed to the create of a monitor or
    to the update of the monitor of that name.  For every templated service
    the create or the update of its iApp was called, and the node sweep was
    called.  (A health check under another name, as the second monitor of
    a Kubernetes service, is not covered.) *)
Theorem completed_pass_has_called (W : Type) (d : device W)
    (cfg : config) (partition : string) (w : W) :
  outcome (apply_partition d cfg partition w) = Ok tt ->
  let t := trace (apply_partition d cfg partition w) in
  (forall n s,
     In n (names_of cfg partition false) -> dict_get cfg n = Some s ->
     (In (Do (Pool_create partition n s)) t \/
      In (Do (Pool_update partition n s)) t) /\
     (In (Do (Virtual_create partition n s)) t \/
      In (Do (Virtual_update partition n s)) t) /\
     In (Read (Pool_member_list partition n)) t /\
     (forall m data, dict_get (svc_nodes s) m = Some data ->
        In (Do (Member_create partition n m data)) t \/
        In (Do (Member_update partition n m data)) t) /\
     (monitored cfg n -> forall item, In item (svc_health s) ->
        dict_get item "name" = Some (VStr n) ->
        In (Do (Healthcheck_create partition item)) t \/
        In (Do (Healthcheck_update partition n item)) t)) /\
  (forall ia s,
     In ia (names_of cfg partition true) -> dict_get cfg ia = Some s ->
     In (Do (Iapp_create partition ia s)) t \/
     In (Do (Iapp_update partition ia s)) t) /\
  In (Do (Cleanup_nodes partition)) t.
Proof.
  intros H t.
  assert (I : incl (trace (apply_partition d cfg partition w)) t)
    by apply incl_refl.
  clearbody t. unfold apply_partition in H, I. cbv zeta in H, I.
  destruct (bind_ok_In _ _ _ H I) as [f5i [_ [_ [H1 I1]]]]. clear H I.
  destruct (bind_ok_In _ _ _ H1 I1) as [[] [_ [_ [H2 I2]]]]. clear H1 I1.
  destruct (bind_ok_In _ _ _ H2 I2) as [[] [Hic [Iic [H3 I3]]]].
  clear H2 I2.
  destruct (bind_ok_In _ _ _ H3 I3) as [[] [Hiu [Iiu [H4 I4]]]].
  clear H3 I3.
  destruct (bind_ok_In _ _ _ H4 I4) as [mhl [Hmhl [_ [H5 I5]]]].
  clear H4 I4. apply lift_ok in Hmhl.
  pose proof (healthcheck_names_spec _ _ Hmhl) as Hmon.
  destruct (bind_ok_In _ _ _ H5 I5) as [f5p [_ [_ [H6 I6]]]]. clear H5 I5.
  destruct (bind_ok_In _ _ _ H6 I6) as [f5v [_ [_ [H7 I7]]]]. clear H6 I6.
  destruct (bind_ok_In _ _ _ H7 I7) as [f5h [_ [_ [H8 I8]]]]. clear H7 I7.
  destruct (bind_ok_In _ _ _ H8 I8) as [[] [_ [_ [H9 I9]]]]. clear H8 I8.
  destruct (bind_ok_In _ _ _ H9 I9) as [[] [_ [_ [H10 I10]]]]. clear H9 I9.
  destruct (bind_ok_In _ _ _ H10 I10) as [[] [_ [_ [H11 I11]]]].
  clear H10 I10.
  destruct (bind_ok_In _ _ _ H11 I11) as [[] [Hha [Iha [H12 I12]]]].
  clear H11 I11.
  destruct (bind_ok_In _ _ _ H12 I12) as [[] [Hpa [Ipa [H13 I13]]]].
  clear H12 I12.
  destruct (bind_ok_In _ _ _ H13 I13) as [[] [Hva [Iva [H14 I14]]]].
  clear H13 I13.
  destruct (bind_ok_In _ _ _ H14 I14) as [[] [Hhu [Ihu [H15 I15]]]].
  clear H14 I14.
  destruct (bind_ok_In _ _ _ H15 I15) as [[] [Hpu [Ipu [H16 I16]]]].
  clear H15 I15.
  destruct (bind_ok_In _ _ _ H16 I16) as [[] [Hvu [Ivu [H17 I17]]]].
  clear H16 I16.
  destruct (bind_ok_In _ _ _ H17 I17) as [[] [Hme [Ime [H18 I18]]]].
  clear H17 I17.
  set (mil := names_of cfg partition true) in *.
  set (mpl := names_of cfg partition false) in *.
  split; [| split].
  - intros n s Hn Hs.
    (* the pool *)
    assert (Hpool : In n (list_diff mpl (not_owned_by mil f5p)) \/
                    In n (list_intersect mpl (not_owned_by mil f5p))).
    { destruct (in_dec string_dec n (not_owned_by mil f5p)) as [Hin | Hout].
      - right. apply In_list_intersect. now split.
      - left. apply In_list_diff. now split. }
    split.
    { destruct Hpool as [Hd | Hi].
      - left.
        destruct (@for_each_entry_done _ _ d _ (fun pool => getitem cfg pool)
                    (fun pool s => Pool_create partition pool s)
                    _ t n Hpa Ipa Hd) as [s' [Hs' Hc]].
        apply getitem_Ok in Hs'. rewrite Hs in Hs'. injection Hs' as <-.
        exact Hc.
      - right.
        destruct (@for_each_entry_done _ _ d _ (fun pool => getitem cfg pool)
                    (fun pool s => Pool_update partition pool s)
                    _ t n Hpu Ipu Hi) as [s' [Hs' Hc]].
        apply getitem_Ok in Hs'. rewrite Hs in Hs'. injection Hs' as <-.
        exact Hc. }
    (* the virtual server *)
    split.
    { destruct (in_dec string_dec n (not_owned_by mil f5v)) as [Hin | Hout].
      - right.
        destruct (@for_each_entry_done _ _ d _ (fun virt => getitem cfg virt)
                    (fun virt s => Virtual_update partition virt s)
                    _ t n Hvu Ivu
                    (proj2 (In_list_intersect _ _ n) (conj Hn Hin)))
          as [s' [Hs' Hc]].
        apply getitem_Ok in Hs'. rewrite Hs in Hs'. injection Hs' as <-.
        exact Hc.
      - left.
        destruct (@for_each_entry_done _ _ d _ (fun virt => getitem cfg virt)
                    (fun virt s => Virtual_create partition virt s)
                    _ t n Hva Iva
                    (proj2 (In_list_diff _ _ n) (conj Hn Hout)))
          as [s' [Hs' Hc]].
        apply getitem_Ok in Hs'. rewrite Hs in Hs'. injection Hs' as <-.
        exact Hc. }
    (* the members *)
    assert (Hmem : In n (list_of_set
                           (list_diff mpl (not_owned_by mil f5p)
                              ++ list_intersect mpl (not_owned_by mil f5p)))).
    { apply list_of_set_In, in_or_app. exact Hpool. }
    destruct (for_each_ok _ _ _ Hme n Hmem) as [w' [Ho Hi]].
    destruct (@apply_members_done W d cfg partition n s w' t Ho
                (fun e He => Ime e (Hi e He)) Hs) as [Hread Hmembers].
    split; [exact Hread |]. split; [exact Hmembers |].
    (* the monitors *)
    intros Hm item Hitem _.
    destruct (in_dec string_dec n (not_owned_by mil (keys f5h)))
      as [Hin | Hout].
    + right.
      destruct (@for_each_items_done _ _ _ d _ (fun hc => getitem cfg hc)
                  svc_health
                  (fun hc item => Healthcheck_update partition hc item)
                  _ t n Hhu Ihu
                  (proj2 (In_list_intersect _ _ n) (conj Hn Hin)))
        as [s' [Hs' Hc]].
      apply getitem_Ok in Hs'. rewrite Hs in Hs'. injection Hs' as <-.
      now apply Hc.
    + left.
      assert (Hl : In n (list_diff mhl (not_owned_by mil (keys f5h)))).
      { apply In_list_diff. split; [| exact Hout]. apply Hmon. now split. }
      destruct (@for_each_items_done _ _ _ d _ (fun hc => getitem cfg hc)
                  svc_health
                  (fun _ item => Healthcheck_create partition item)
                  _ t n Hha Iha Hl)
        as [s' [Hs' Hc]].
      apply getitem_Ok in Hs'. rewrite Hs in Hs'. injection Hs' as <-.
      now apply Hc.
  - intros ia s Hia Hs.
    destruct (in_dec string_dec ia f5i) as [Hin | Hout].
    + right.
      destruct (@for_each_entry_done _ _ d _ (fun ia => getitem cfg ia)
                  (fun ia s => Iapp_update partition ia s)
                  _ t ia Hiu Iiu
                  (proj2 (In_list_intersect _ _ ia) (conj Hia Hin)))
        as [s' [Hs' Hc]].
      apply getitem_Ok in Hs'. rewrite Hs in Hs'. injection Hs' as <-.
      exact Hc.
    + left.
      destruct (@for_each_entry_done _ _ d _ (fun ia => getitem cfg ia)
                  (fun ia s => Iapp_create partition ia s)
                  _ t ia Hic Iic
                  (proj2 (In_list_diff _ _ ia) (conj Hia Hout)))
        as [s' [Hs' Hc]].
      apply getitem_Ok in Hs'. rewrite Hs in Hs'. injection Hs' as <-.
      exact Hc.
  - apply I18. rewrite perform_trace. now left.
Qed.

Lemma completed_pass_has_called_witness :
  let t := trace (apply_partition stale_device monitored_cfg "prod" tt) in
  (forall n s,
     In n (names_of monitored_cfg "prod" false) ->
     dict_get monitored_cfg n = Some s ->
     (In (Do (Pool_create "prod" n s)) t \/
      In (Do (Pool_update "prod" n s)) t) /\
     (In (Do (Virtual_create "prod" n s)) t \/
      In (Do (Virtual_update "prod" n s)) t) /\
     In (Read (Pool_member_list "prod" n)) t /\
     (forall m data, dict_get (svc_nodes s) m = Some data ->
        In (Do (Member_create "prod" n m data)) t \/
        In (Do (Member_update "prod" n m data)) t) /\
     (monitored monitored_cfg n -> forall item, In item (svc_health s) ->
        dict_get item "name" = Some (VStr n) ->
        In (Do (Healthcheck_create "prod" item)) t \/
        In (Do (Healthcheck_update "prod" n item)) t)) /\
  (forall ia s,
     In ia (names_of monitored_cfg "prod" true) ->
     dict_get monitored_cfg ia = Some s ->
     In (Do (Iapp_create "prod" ia s)) t \/
     In (Do (Iapp_update "prod" ia s)) t) /\
  In (Do (Cleanup_nodes "prod")) t.
Proof.
  apply (@completed_pass_has_called unit stale_device monitored_cfg
           "prod" tt).
  vm_compute. reflexivity.
Defined.

(** A BIG-IP that holds what [k8s_cfg] desires, both monitors of its
    individually managed service included, and accepts every call. *)
Definition two_monitors_device : device unit :=
  {| dev_names := fun q w =>
       (w, Ok match q with
              | Iapp_list _ => ["web_iapp_80"]
              | Pool_list _ | Virtual_list _ => ["web_10.0.0.5_80"]
              | Pool_member_list _ _ => ["172.16.0.1:30080"; "172.16.0.2:30080"]
              | Folders => []
              end);
     dev_healthchecks := fun _ w =>
       (w, Ok [("web_10.0.0.5_80", "http"); ("web_10.0.0.5_80_1", "tcp")]);
     dev_do := fun _ w => (w, Ok tt) |}.

(** The pass knows monitors by the names of the services only.  The second
    monitor of a Kubernetes service, though the configuration desires it,
    is deleted by the pass, and its health check is handed to the update of
    the monitor that bears the service's name; such a configuration is not
    one whose resources are named after its services. *)
Example second_monitor_deleted :
  let t := trace (apply_partition two_monitors_device k8s_cfg "prod" tt) in
  desired_monitor k8s_cfg "prod" "web_10.0.0.5_80_1" /\
  In (Do (Healthcheck_delete "prod" "web_10.0.0.5_80_1" "tcp")) t /\
  In (Do (Healthcheck_update "prod" "web_10.0.0.5_80"
            [("protocol", VStr "tcp"); ("name", VStr "web_10.0.0.5_80_1")]))
     t /\
  ~ named_after_services k8s_cfg "prod".
Proof.
  assert (D : desired_monitor k8s_cfg "prod" "web_10.0.0.5_80_1").
  { destruct (dict_get k8s_cfg "web_10.0.0.5_80") as [s |] eqn:E;
      [| discriminate E].
    exists "web_10.0.0.5_80", s,
      [("protocol", VStr "tcp"); ("name", VStr "web_10.0.0.5_80_1")].
    split; [vm_compute; now left |]. split; [exact E |].
    vm_compute in E. injection E as <-.
    split; [right; left; reflexivity | reflexivity]. }
  split; [exact D |]. split; [| split].
  - vm_compute. repeat (try (left; reflexivity); right).
  - vm_compute. repeat (try (left; reflexivity); right).
  - intros N. apply (desired_monitor_spec "web_10.0.0.5_80_1" N) in D.
    destruct D as [D _]. vm_compute in D. intuition discriminate.
Qed.
